(** * UIUC crawler v3: a shallow embedding of the scraping orchestrator

    Sources embedded here:
    - [apps/crawler-v3/src/utils.ts]: [getIntConfig], [generateTermsToScrape],
      [getTermCode], [getTermName];
    - [apps/crawler-v3/src/index.ts]: [SPECIFIED_TERMS] and the other
      configuration constants, [sleep], the module-level counters,
      [scrapeWithDelay], and [main] (discovery, pool run, drain loop, abort
      handling, index writing).

    JavaScript numbers that hold integers are modelled as [Z]; the result of
    [parseInt] is a [jsnum], an integer or [NaN].  The arithmetic of [sleep]
    is carried out on double-precision numbers ([Double]).  JavaScript
    strings are [string]s of ASCII characters. *)

From Stdlib Require Import ZArith Lia Ascii String.
From Stdlib Require Import DecimalString DecimalZ.
From stdpp Require Import gmap strings list fin_maps.

Local Open Scope Z_scope.

(** ** JavaScript values used by the crawler *)

(** A [number] that is either an integer or [NaN].  [parseInt] returns a
    double; the model is exact for magnitudes below 2^53. *)
Inductive jsnum : Type :=
| JNaN
| JInt (z : Z).

#[global] Instance jsnum_eq_dec : EqDecision jsnum.
Proof. solve_decision. Defined.

(** The outcome of evaluating an expression that may throw. *)
Inductive completion (A : Type) : Type :=
| Normal (a : A)
| Throw (message : string).
Arguments Normal {A} a.
Arguments Throw {A} message.

(** [a ?? d] *)
Definition nullish {A} (a : option A) (d : A) : A :=
  match a with
  | Some x => x
  | None => d
  end.

(** ** utils.ts *)

Module Utils.

(** *** [parseInt(value, 10)] *)

(** White space skipped by [parseInt]: TAB, LF, VT, FF, CR and SPACE (the
    ASCII members of the language's white-space class). *)
Definition is_ws (a : ascii) : bool :=
  let n := nat_of_ascii a in
  ((9 <=? n)%nat && (n <=? 13)%nat) || (n =? 32)%nat.

Fixpoint skip_ws (s : string) : string :=
  match s with
  | String a s' => if is_ws a then skip_ws s' else s
  | EmptyString => s
  end.

Definition digit_of (a : ascii) : option Z :=
  let n := Z.of_nat (nat_of_ascii a) in
  if (48 <=? n) && (n <=? 57) then Some (n - 48) else None.

(** The value of the longest prefix of decimal digits; [acc] is [None] while
    no digit has been read. *)
Fixpoint digits_prefix (s : string) (acc : option Z) : option Z :=
  match s with
  | String a s' =>
      match digit_of a with
      | Some d => digits_prefix s' (Some (10 * nullish acc 0 + d))
      | None => acc
      end
  | EmptyString => acc
  end.

(** Strip an optional sign. *)
Definition split_sign (s : string) : Z * string :=
  match s with
  | String a r =>
      if Ascii.eqb a "-" then (-1, r)
      else if Ascii.eqb a "+" then (1, r)
      else (1, s)
  | EmptyString => (1, s)
  end.

Definition parseInt (value : string) : jsnum :=
  let '(sign, body) := split_sign (skip_ws value) in
  match digits_prefix body None with
  | Some v => JInt (sign * v)
  | None => JNaN
  end.

(** [parseInt] as it is called inside the [try] block: it always completes
    normally. *)
Definition parseInt_call (value : string) : completion jsnum :=
  Normal (parseInt value).

(** After white space and an optional sign, the text starts with a digit. *)
Definition has_int_prefix (value : string) : bool :=
  match snd (split_sign (skip_ws value)) with
  | String a _ => bool_decide (is_Some (digit_of a))
  | EmptyString => false
  end.

(** [process.env]: a variable that is set holds a string. *)
Abbreviation Env := (gmap string string).

(** [getIntConfig(key)]: [None] is [null]. *)
Definition getIntConfig (env : Env) (key : string) : option jsnum :=
  match env !! key with
  | None => None
  | Some value =>
      match parseInt_call value with
      | Normal n => Some n
      | Throw _ => None
      end
  end.

(** *** [generateTermsToScrape] *)

Record Term : Type := mkTerm { year : string; term : string }.

#[global] Instance Term_eq_dec : EqDecision Term.
Proof. solve_decision. Defined.

(** [n.toString()] for an integer [n]. *)
Definition toString (n : Z) : string := NilZero.string_of_int (Z.to_int n).

Definition termOrder : list string := ["spring"; "summer"; "fall"; "winter"].

(** [arr.indexOf(x)], [-1] when absent. *)
Fixpoint indexOf (x : string) (arr : list string) : Z :=
  match arr with
  | [] => -1
  | y :: arr' =>
      if String.eqb y x then 0
      else let i := indexOf x arr' in if i <? 0 then -1 else i + 1
  end.

(** [termOrder[i]]; an index outside the array reads [undefined], modelled
    as the string of that name. *)
Definition termOrder_at (i : Z) : string :=
  if i <? 0 then "undefined"
  else default "undefined" (termOrder !! Z.to_nat i).

Definition currentTermOf (currentMonth : Z) : string :=
  if currentMonth <=? 1 then "winter"
  else if currentMonth <=? 5 then "spring"
  else if currentMonth <=? 8 then "summer"
  else if currentMonth <=? 12 then "fall"
  else "spring".

(** The variables of the walk loop. *)
Record Walk : Type := mkWalk {
  terms : list Term;
  currentTermIndex : Z;
  walkYear : Z
}.

(** One iteration of the [for] loop. *)
Definition walk_body (w : Walk) : Walk :=
  let term := termOrder_at (currentTermIndex w) in
  let termYear := if String.eqb term "winter" then walkYear w else walkYear w in
  let terms' := terms w ++ [mkTerm (toString termYear) term] in
  let idx := currentTermIndex w - 1 in
  if idx <? 0 then
    mkWalk terms' (Z.of_nat (length termOrder) - 1) (walkYear w - 1)
  else if String.eqb term "spring" then
    mkWalk terms' idx (walkYear w - 1)
  else
    mkWalk terms' idx (walkYear w).

Definition walk_init (currentYear currentMonth : Z) : Walk :=
  let currentTerm := currentTermOf currentMonth in
  let year := currentYear in
  let year := if String.eqb currentTerm "winter" then currentYear else year in
  mkWalk [] (indexOf currentTerm termOrder) year.

(** [generateTermsToScrape(numTerms)], with the clock read ([getFullYear()]
    and [getMonth() + 1]) passed in.  The loop runs while [i < numTerms]. *)
Definition generateTermsToScrape (currentYear currentMonth numTerms : Z)
  : list Term :=
  terms (Nat.iter (Z.to_nat numTerms) walk_body
           (walk_init currentYear currentMonth)).

(** *** [getTermCode] *)

Definition lower_ascii (a : ascii) : ascii :=
  let n := nat_of_ascii a in
  if (65 <=? n)%nat && (n <=? 90)%nat then ascii_of_nat (n + 32) else a.

(** [s.toLowerCase()] on ASCII text. *)
Fixpoint toLowerCase (s : string) : string :=
  match s with
  | String a s' => String (lower_ascii a) (toLowerCase s')
  | EmptyString => EmptyString
  end.

(** What a property read on the object literal [termCodes] can produce: an
    own string property, a member inherited from [Object.prototype], or
    [undefined]. *)
Inductive PropValue : Type :=
| PUndefined
| PString (s : string)
| PInherited (name : string).

(** The property names of [Object.prototype]. *)
Definition objectPrototypeKeys : list string :=
  ["constructor"; "__defineGetter__"; "__defineSetter__"; "hasOwnProperty";
   "__lookupGetter__"; "__lookupSetter__"; "isPrototypeOf";
   "propertyIsEnumerable"; "toString"; "valueOf"; "__proto__";
   "toLocaleString"].

(** [termCodes[key]]: own properties first, then the prototype. *)
Definition termCodes_get (key : string) : PropValue :=
  if String.eqb key "spring" then PString "02"
  else if String.eqb key "summer" then PString "05"
  else if String.eqb key "fall" then PString "08"
  else if String.eqb key "winter" then PString "12"
  else if bool_decide (key ∈ objectPrototypeKeys) then PInherited key
  else PUndefined.

(** [!code] is [true] for [undefined] and the empty string. *)
Definition falsy (v : PropValue) : bool :=
  match v with
  | PUndefined => true
  | PString s => bool_decide (s = "")
  | PInherited _ => false
  end.

(** The text a value contributes to a template literal. *)
Definition display (v : PropValue) : string :=
  match v with
  | PUndefined => "undefined"
  | PString s => s
  | PInherited name =>
      if String.eqb name "__proto__" then "[object Object]"
      else if String.eqb name "constructor"
           then "function Object() { [native code] }"
           else "function " +:+ name +:+ "() { [native code] }"
  end.

Definition getTermCode (year term : string) : completion string :=
  let code := termCodes_get (toLowerCase term) in
  if falsy code then Throw ("Invalid term: " +:+ term)
  else Normal (year +:+ display code).

(** *** [getTermName] *)

Definition hex_digit_of (a : ascii) : option Z :=
  let n := Z.of_nat (nat_of_ascii a) in
  if (48 <=? n) && (n <=? 57) then Some (n - 48)
  else if (97 <=? n) && (n <=? 102) then Some (n - 87)
  else if (65 <=? n) && (n <=? 70) then Some (n - 55)
  else None.

(** The value of the longest prefix of hexadecimal digits. *)
Fixpoint hex_prefix (s : string) (acc : option Z) : option Z :=
  match s with
  | String a s' =>
      match hex_digit_of a with
      | Some d => hex_prefix s' (Some (16 * nullish acc 0 + d))
      | None => acc
      end
  | EmptyString => acc
  end.

(** The text after a prefix [0x] or [0X], when there is one. *)
Definition hex_body (body : string) : option string :=
  match body with
  | String a (String x rest) =>
      if Ascii.eqb a "0" && (Ascii.eqb x "x" || Ascii.eqb x "X")
      then Some rest else None
  | _ => None
  end.

(** [parseInt(year)], called without a radix: after white space and an
    optional sign, a text that starts with [0x] or [0X] is read as
    hexadecimal, any other text as decimal. *)
Definition parseInt_default (value : string) : jsnum :=
  let '(sign, body) := split_sign (skip_ws value) in
  let digits :=
    match hex_body body with
    | Some hex => hex_prefix hex None
    | None => digits_prefix body None
    end in
  match digits with
  | Some v => JInt (sign * v)
  | None => JNaN
  end.

(** [parseInt(year) - 1] rendered back into the template; [NaN - 1] is
    [NaN]. *)
Definition display_num (n : jsnum) : string :=
  match n with
  | JNaN => "NaN"
  | JInt z => toString z
  end.

Definition jsnum_pred (n : jsnum) : jsnum :=
  match n with
  | JNaN => JNaN
  | JInt z => JInt (z - 1)
  end.

Definition capitalize (s : string) : string :=
  match s with
  | String a s' =>
      let n := nat_of_ascii a in
      String (if (97 <=? n)%nat && (n <=? 122)%nat then ascii_of_nat (n - 32) else a)
             (toLowerCase s')
  | EmptyString => EmptyString
  end.

Definition getTermName (year term : string) : string :=
  let termName := capitalize term in
  if String.eqb (toLowerCase term) "winter" then
    "Winter " +:+ display_num (jsnum_pred (parseInt_default year)) +:+ "-" +:+ year
  else termName +:+ " " +:+ year.

End Utils.

(** ** index.ts *)

(** *** Numbers in [sleep]

    [sleep] computes on IEEE 754 double-precision numbers.  A finite double
    is an integer multiple of [2^-1074], the smallest positive double:
    [Fin n] stands for [n * 2^-1074].  The positive and the negative zero
    are not told apart; nothing in [sleep] depends on the sign of a zero. *)
Module Double.

Inductive double : Type :=
| NaN
| Inf (negative : bool)
| Fin (n : Z).

(** The number 1, counted in multiples of [2^-1074]. *)
Definition one : Z := 2 ^ 1074.

(** [p / d] rounded to the nearest integer, a tie to the even one; for
    [0 <= p] and [0 < d]. *)
Definition rne_div (p d : Z) : Z :=
  let q := p / d in
  let r := p mod d in
  if 2 * r <? d then q
  else if d <? 2 * r then q + 1
  else if Z.even q then q else q + 1.

(** The double nearest to [p * 2^-(1074+s)], for [0 <= p], as a multiple of
    [2^-1074]: [k] low bits are dropped so that at most 53 significant bits
    stay and nothing below [2^-1074]; the check for overflow comes after. *)
Definition round_nonneg (p s : Z) : Z :=
  let k := Z.max (Z.log2 p - 52) s in
  rne_div p (2 ^ k) * 2 ^ (k - s).

Definition round (p s : Z) : Z :=
  if p <? 0 then - round_nonneg (- p) s else round_nonneg p s.

(** A rounded value of [2^1024] or more is an infinity. *)
Definition fin_of (n : Z) : double :=
  if 2 ^ 2098 <=? Z.abs n then Inf (n <? 0) else Fin n.

Definition dneg (x : double) : double :=
  match x with
  | NaN => NaN
  | Inf b => Inf (negb b)
  | Fin n => Fin (- n)
  end.

(** [x + y] *)
Definition dadd (x y : double) : double :=
  match x, y with
  | NaN, _ | _, NaN => NaN
  | Inf a, Inf b => if Bool.eqb a b then Inf a else NaN
  | Inf a, Fin _ => Inf a
  | Fin _, Inf b => Inf b
  | Fin a, Fin b => fin_of (round (a + b) 0)
  end.

(** [x - y] *)
Definition dsub (x y : double) : double := dadd x (dneg y).

(** [x * y]: the exact product of two multiples of [2^-1074] is a multiple
    of [2^-2148]. *)
Definition dmul (x y : double) : double :=
  match x, y with
  | NaN, _ | _, NaN => NaN
  | Inf a, Inf b => Inf (xorb a b)
  | Inf a, Fin n | Fin n, Inf a =>
      if n =? 0 then NaN else Inf (xorb a (n <? 0))
  | Fin a, Fin b => fin_of (round (a * b) 1074)
  end.

(** [x <= y]; false when either is [NaN]. *)
Definition dleb (x y : double) : bool :=
  match x, y with
  | NaN, _ | _, NaN => false
  | Inf true, _ => true
  | _, Inf false => true
  | Inf false, _ => false
  | _, Inf true => false
  | Fin a, Fin b => a <=? b
  end.

(** [Math.max(x, y)] *)
Definition dmax (x y : double) : double :=
  match x, y with
  | NaN, _ | _, NaN => NaN
  | _, _ => if dleb x y then y else x
  end.

(** The double of an integer literal. *)
Definition of_Z (z : Z) : double := fin_of (round (z * one) 0).

(** The double of a decimal literal whose value is [a / b], for [0 < a] and
    [0 < b]: the nearest double. *)
Definition of_ratio (a b : Z) : double :=
  let p := a * one in
  let k := Z.max (Z.log2 (p / b) - 52) 0 in
  fin_of (rne_div p (b * 2 ^ k) * 2 ^ k).

(** A number read by [getIntConfig], as arithmetic receives it. *)
Definition of_jsnum (n : jsnum) : double :=
  match n with
  | JNaN => NaN
  | JInt z => of_Z z
  end.

End Double.

(** *** [sleep]

    [random] is the value returned by [Math.random()], a double that is at
    least 0 and less than 1. *)
Module Pacing.
Import Double.

Definition jitter (ms jitterPercent random : double) : double :=
  dmul (dmul ms jitterPercent) (dsub (dmul random (of_Z 2)) (of_Z 1)).

(** The delay handed to [setTimeout]. *)
Definition actualDelay (ms jitterPercent random : double) : double :=
  dmax (of_Z 100) (dadd ms (jitter ms jitterPercent random)).

(** The default value of the parameter [jitterPercent], the literal [0.3]. *)
Definition defaultJitterPercent : double := of_ratio 3 10.

End Pacing.

Module Crawler.

Import Utils.

(** [CourseInfo], as the scraper hands it out. *)
Record CourseInfo : Type := mkCourse { subject : string; number : string }.

#[global] Instance CourseInfo_eq_dec : EqDecision CourseInfo.
Proof. solve_decision. Defined.

(** The module-level variables [totalRequests], [rateLimitCount],
    [forbidden403Count] and [abortRequested]. *)
Record Session : Type := mkSession {
  totalRequests : Z;
  rateLimitCount : Z;
  forbidden403Count : Z;
  abortRequested : bool
}.

(** Declared in the source and never read: the first 403 sets the flag. *)
Definition MAX_403_ERRORS : Z := 1.

Definition session0 : Session := mkSession 0 0 0 false.

(** Lines written to the console by [scrapeWithDelay]. *)
Inductive LogLine : Type :=
| LogForbidden (c : CourseInfo)
| LogAborting
| LogRateLimited (c : CourseInfo)
| LogExcessiveRateLimiting (times : Z)
| LogFailedToScrape (c : CourseInfo).

(** Calls that leave the process, and console output, in program order. *)
Inductive Event : Type :=
| EvSleep (c : CourseInfo)
| EvRequest (c : CourseInfo)
| EvConsole (line : LogLine).

(** The configuration constants read from the environment. *)
Record Config : Type := mkConfig {
  CONCURRENCY : jsnum;
  REQUEST_DELAY_MS : jsnum;
  COURSES_PER_SUBJECT : option jsnum
}.

Definition config_of_env (env : Env) : Config :=
  {| CONCURRENCY := nullish (getIntConfig env "CONCURRENCY") (JInt 2);
     REQUEST_DELAY_MS := nullish (getIntConfig env "REQUEST_DELAY_MS") (JInt 500);
     COURSES_PER_SUBJECT := getIntConfig env "COURSES_PER_SUBJECT" |}.

(** *** [SPECIFIED_TERMS] *)

(** [s.split(sep)] for a separator of one character: the pieces between the
    separators; there is always at least one piece. *)
Fixpoint split (sep : ascii) (s : string) : list string :=
  match s with
  | EmptyString => [EmptyString]
  | String a rest =>
      if Ascii.eqb a sep then EmptyString :: split sep rest
      else
        match split sep rest with
        | piece :: pieces => String a piece :: pieces
        | [] => [String a EmptyString]
        end
  end.

(** [s.trimEnd()] *)
Fixpoint trimEnd (s : string) : string :=
  match s with
  | EmptyString => EmptyString
  | String a rest =>
      match trimEnd rest with
      | EmptyString => if is_ws a then EmptyString else String a EmptyString
      | kept => String a kept
      end
  end.

(** [s.trim()] *)
Definition trim (s : string) : string := trimEnd (skip_ws s).

(** [const [year, term] = termStr.trim().split('/')]: a missing element is
    [undefined], here [None]. *)
Definition specified_term (termStr : string) : option string * option string :=
  let pieces := split "/" (trim termStr) in
  (pieces !! 0%nat, pieces !! 1%nat).

(** [process.env.SPECIFIED_TERMS?.split(',').map(...)]: [None] when the
    variable is not set. *)
Definition SPECIFIED_TERMS (env : Env)
  : option (list (option string * option string)) :=
  match env !! "SPECIFIED_TERMS" with
  | None => None
  | Some value => Some (specified_term <$> split "," value)
  end.

Section WithWriter.

(** The raw payload returned by [scrapeCourse] and the course the writer
    makes of it; both belong to collaborators. *)
Context {Raw Conv : Type}.
Variable convertCourse : Raw -> Conv.

(** How a call of [scrapeCourse] ends: it resolves with a payload ([None]
    is a falsy payload such as [null]) or rejects with an error whose
    [response?.status] is given ([None] when there is no response).  A
    rejection with [null] or [undefined], on which reading [error.response]
    itself throws, is not represented. *)
Inductive Reply : Type :=
| Scraped (payload : option Raw)
| Rejected (httpStatus : option Z).

(** The object a pool task resolves with. *)
Record Result : Type := mkResult {
  course : CourseInfo;
  data : option Raw;
  success : bool
}.

Definition skipped (c : CourseInfo) : Result := mkResult c None false.

(** Where a pool task stands: in [await sleep(delayMs)], in
    [await scrapeCourse(...)], or resolved. *)
Inductive Stage : Type :=
| Sleeping
| Fetching
| Settled (r : Result).

(** *** [scrapeWithDelay], cut at its two [await]s *)

(** From the call to the first [await]. *)
Definition scrapeWithDelay_start (s : Session) (c : CourseInfo) : Stage :=
  if abortRequested s then Settled (skipped c) else Sleeping.

(** From the end of the sleep to the call of [scrapeCourse]. *)
Definition scrapeWithDelay_wake (s : Session) : Session :=
  mkSession (totalRequests s + 1) (rateLimitCount s) (forbidden403Count s)
            (abortRequested s).

(** From the settling of [scrapeCourse] to the [return]. *)
Definition scrapeWithDelay_settle (s : Session) (c : CourseInfo) (r : Reply)
  : Session * Result * list LogLine :=
  match r with
  | Scraped scraped => (s, mkResult c scraped true, [])
  | Rejected httpStatus =>
      if bool_decide (httpStatus = Some 403) then
        (mkSession (totalRequests s) (rateLimitCount s)
                   (forbidden403Count s + 1) true,
         skipped c, [LogForbidden c; LogAborting])
      else
        let '(s1, log1) :=
          if bool_decide (httpStatus = Some 429) then
            let n := rateLimitCount s + 1 in
            (mkSession (totalRequests s) n (forbidden403Count s)
                       (abortRequested s),
             LogRateLimited c ::
               (if n >? 5 then [LogExcessiveRateLimiting n] else []))
          else (s, []) in
        (s1, skipped c,
         log1 ++ (if negb (abortRequested s1) then [LogFailedToScrape c] else []))
  end.

(** The callback handed to [asyncPool], up to its first [await]. *)
Definition pool_callback (s : Session) (c : CourseInfo) : Stage :=
  if abortRequested s then Settled (skipped c)
  else scrapeWithDelay_start s c.

(** *** The drain loop's variables *)

Record Tally : Type := mkTally {
  coursesMap : gmap string Conv;
  successCount : Z;
  failureCount : Z;
  completed : Z
}.

Definition tally0 : Tally := mkTally ∅ 0 0 0.

Definition courseKey (c : CourseInfo) : string :=
  subject c +:+ " " +:+ number c.

(** [result.success && result.data] *)
Definition stored (r : Result) : option Raw :=
  if success r then data r else None.

(** The body of the [for await] loop up to the abort check.  The progress
    line it prints is console output only and is left out. *)
Definition aggregate (t : Tally) (r : Result) : Tally :=
  match stored r with
  | Some d =>
      mkTally (<[courseKey (course r) := convertCourse d]> (coursesMap t))
              (successCount t + 1) (failureCount t) (completed t + 1)
  | None =>
      mkTally (coursesMap t) (successCount t) (failureCount t + 1)
              (completed t + 1)
  end.

(** *** The pool *)

(** Whether the [for await] loop is still waiting for results, left through
    [break], or ended because the pool has nothing more to yield. *)
Inductive Status : Type :=
| Draining
| Broke
| Exhausted.

(** Modelled from the spec: the bounded pool [asyncPool] of the package
    tiny-async-pool, which is not part of the repository.  It keeps the
    started tasks in [executing]; it starts queued items one after the
    other and, whenever the number of started tasks has reached the
    concurrency, waits for one of them and yields its result; when the
    queue is empty it yields the remaining results.  [yielded] lists the
    results handed to the loop so far. *)
Record Pool : Type := mkPool {
  session : Session;
  queue : list CourseInfo;
  executing : list (CourseInfo * Stage);
  tally : Tally;
  status : Status;
  yielded : list Result;
  trace : list Event
}.

(** [executing.size >= concurrency]; a comparison with [NaN] is false. *)
Definition size_ge (n : nat) (concurrency : jsnum) : bool :=
  match concurrency with
  | JInt z => z <=? Z.of_nat n
  | JNaN => false
  end.

Definition sleep_events (c : CourseInfo) (st : Stage) : list Event :=
  match st with
  | Sleeping => [EvSleep c]
  | _ => []
  end.

(** The pool's [for] loop: start queued items until the pool is full. *)
Fixpoint start_queued (concurrency : jsnum) (s : Session) (q : list CourseInfo)
    (exec : list (CourseInfo * Stage)) (tr : list Event)
  : list CourseInfo * list (CourseInfo * Stage) * list Event :=
  match q with
  | [] => ([], exec, tr)
  | c :: q' =>
      let st := pool_callback s c in
      let exec' := exec ++ [(c, st)] in
      let tr' := tr ++ sleep_events c st in
      if size_ge (length exec') concurrency then (q', exec', tr')
      else start_queued concurrency s q' exec' tr'
  end.

(** The loop asks the pool for its next result. *)
Definition resume (concurrency : jsnum) (p : Pool) : Pool :=
  let '(q, exec, tr) :=
    start_queued concurrency (session p) (queue p) (executing p) (trace p) in
  mkPool (session p) q exec (tally p)
         (match q, exec with [], [] => Exhausted | _, _ => Draining end)
         (yielded p) tr.

(** What the event loop runs next: the timer of task [k] fires, the request
    of task [k] settles, or the pool hands the result of the resolved task
    [k] to the drain loop. *)
Inductive Tick : Type :=
| TimerFires (k : nat)
| FetchSettles (k : nat) (r : Reply)
| PoolYields (k : nat).

Definition step (concurrency : jsnum) (p : Pool) (t : Tick) : Pool :=
  match status p with
  | Draining =>
      match t with
      | TimerFires k =>
          match executing p !! k with
          | Some (c, Sleeping) =>
              mkPool (scrapeWithDelay_wake (session p)) (queue p)
                     (<[k := (c, Fetching)]> (executing p)) (tally p)
                     Draining (yielded p) (trace p ++ [EvRequest c])
          | _ => p
          end
      | FetchSettles k r =>
          match executing p !! k with
          | Some (c, Fetching) =>
              let '(s', res, log) := scrapeWithDelay_settle (session p) c r in
              mkPool s' (queue p) (<[k := (c, Settled res)]> (executing p))
                     (tally p) Draining (yielded p)
                     (trace p ++ (EvConsole <$> log))
          | _ => p
          end
      | PoolYields k =>
          match executing p !! k with
          | Some (c, Settled res) =>
              let p1 :=
                mkPool (session p) (queue p) (delete k (executing p))
                       (aggregate (tally p) res) Draining
                       (yielded p ++ [res]) (trace p) in
              if abortRequested (session p1) then
                mkPool (session p1) (queue p1) (executing p1) (tally p1)
                       Broke (yielded p1) (trace p1)
              else resume concurrency p1
          | _ => p
          end
      end
  | _ => p
  end.

(** The pool as the loop first asks it for a result. *)
Definition pool_start (concurrency : jsnum) (s : Session)
    (coursesToScrape : list CourseInfo) : Pool :=
  resume concurrency (mkPool s coursesToScrape [] tally0 Draining [] []).

Definition run_pool (concurrency : jsnum) (s : Session)
    (coursesToScrape : list CourseInfo) (sched : list Tick) : Pool :=
  fold_left (step concurrency) sched (pool_start concurrency s coursesToScrape).

(** Node runs a callback and everything that became ready through it before
    the next timer or network callback: a settled request is handed to the
    drain loop at once. *)
Inductive MacroTask : Type :=
| Timer (k : nat)
| Settle (k : nat) (r : Reply).

Definition node_step (concurrency : jsnum) (p : Pool) (m : MacroTask) : Pool :=
  match m with
  | Timer k => step concurrency p (TimerFires k)
  | Settle k r =>
      step concurrency (step concurrency p (FetchSettles k r)) (PoolYields k)
  end.

Definition run_node (concurrency : jsnum) (s : Session)
    (coursesToScrape : list CourseInfo) (ms : list MacroTask) : Pool :=
  fold_left (node_step concurrency) ms (pool_start concurrency s coursesToScrape).

Definition ticks_of (m : MacroTask) : list Tick :=
  match m with
  | Timer k => [TimerFires k]
  | Settle k r => [FetchSettles k r; PoolYields k]
  end.

(** *** [main] *)

(** Files handed to the writer, oldest first.  A term's dataset is
    identified with its course map: [generateTermData] and the caches it
    derives belong to the writer. *)
Inductive FileOp : Type :=
| WriteTermData (termCode : string) (courses : gmap string Conv)
| WriteIndex (entries : list (string * string)).

(** What the outside world does while one term is processed: the replies of
    [scrapeSubjects] and [scrapeCourseList], and the order in which timers
    and requests complete during the pool run. *)
Record TermWorld : Type := mkWorld {
  subjectsReply : completion (list string);
  courseListReply : string -> completion (list CourseInfo);
  schedule : list Tick
}.

(** The state of [main]: the module-level variables, [allTermData] (term
    code, term name, dataset), the files written so far, and, as a record
    of the run, the value of the module-level variables each time a pool
    was started. *)
Record Run : Type := mkRun {
  vars : Session;
  allTermData : list (string * string * gmap string Conv);
  disk : list FileOp;
  poolStarts : list Session
}.

Definition run0 : Run := mkRun session0 [] [] [].

(** How the process ends: [main] returns (exit status 0), [process.exit]
    is called, or the loop is still waiting for the events of a schedule
    that has run out. *)
Inductive Ending : Type :=
| Returned
| Exited (code : Z)
| Waiting.

Inductive Flow : Type :=
| Continue
| Stop (e : Ending).

(** [courses.slice(0, n)] *)
Definition slice0 {A} (l : list A) (n : jsnum) : list A :=
  match n with
  | JNaN => []
  | JInt z =>
      if z <? 0 then take (Z.to_nat (Z.of_nat (length l) + z)) l
      else take (Z.to_nat z) l
  end.

(** Step 2: the loop over the subjects.  The pause after each subject only
    takes time and is left out. *)
Fixpoint discover (cap : option jsnum)
    (courseList : string -> completion (list CourseInfo))
    (subjects : list string) (allCourses : list CourseInfo)
  : completion (list CourseInfo) :=
  match subjects with
  | [] => Normal allCourses
  | subj :: rest =>
      match courseList subj with
      | Throw e => Throw e
      | Normal courses =>
          let taken :=
            match cap with
            | Some n =>
                if (0 <? length courses)%nat then slice0 courses n else courses
            | None => courses
            end in
          discover cap courseList rest (allCourses ++ taken)
      end
  end.

(** Steps 1 and 2 and the term code: [None] when the term is skipped
    ([continue]) or an error reaches the [catch] of the term. *)
Definition discovered (cfg : Config) (t : Term) (w : TermWorld)
  : option (string * list CourseInfo) :=
  match subjectsReply w with
  | Throw _ => None
  | Normal subjects =>
      if (length subjects =? 0)%nat then None
      else
        match discover (COURSES_PER_SUBJECT cfg) (courseListReply w) subjects [] with
        | Throw _ => None
        | Normal allCourses =>
            if (length allCourses =? 0)%nat then None
            else
              match getTermCode (year t) (term t) with
              | Throw _ => None
              | Normal termCode => Some (termCode, allCourses)
              end
        end
  end.

(** "Reset abort flag for each term" *)
Definition reset_for_term (s : Session) : Session :=
  mkSession (totalRequests s) (rateLimitCount s) 0 false.

(** [writeTermData] followed by [allTermData.push].  The writer's functions
    are taken to complete normally. *)
Definition save_term (r : Run) (s : Session) (termCode termName : string)
    (courses : gmap string Conv) : Run :=
  mkRun s (allTermData r ++ [(termCode, termName, courses)])
        (disk r ++ [WriteTermData termCode courses]) (poolStarts r).

(** The code after the drain loop. *)
Definition after_pool (r : Run) (t : Term) (termCode : string) (p : Pool)
  : Run * Flow :=
  let termName := getTermName (year t) (term t) in
  if abortRequested (session p) then
    if successCount (tally p) >? 0 then
      (save_term r (session p) termCode termName (coursesMap (tally p)),
       Stop (Exited 1))
    else
      (mkRun (session p) (allTermData r) (disk r) (poolStarts r),
       Stop (Exited 1))
  else
    (save_term r (session p) termCode termName (coursesMap (tally p)),
     Continue).

(** The body of the loop over the terms. *)
Definition process_term (cfg : Config) (r : Run) (t : Term) (w : TermWorld)
  : Run * Flow :=
  match discovered cfg t w with
  | None => (r, Continue)
  | Some (termCode, coursesToScrape) =>
      let s := reset_for_term (vars r) in
      let r1 := mkRun s (allTermData r) (disk r) (poolStarts r ++ [s]) in
      let p := run_pool (CONCURRENCY cfg) s coursesToScrape (schedule w) in
      match status p with
      | Draining =>
          (mkRun (session p) (allTermData r1) (disk r1) (poolStarts r1),
           Stop Waiting)
      | _ => after_pool r1 t termCode p
      end
  end.

(** "Write index.json with all terms" *)
Definition write_index (r : Run) : Run :=
  match allTermData r with
  | [] => r
  | _ =>
      mkRun (vars r) (allTermData r)
            (disk r ++ [WriteIndex ((fun d => (d.1.1, d.1.2)) <$> allTermData r)])
            (poolStarts r)
  end.

Fixpoint main_loop (cfg : Config) (r : Run) (ts : list (Term * TermWorld))
  : Run * Ending :=
  match ts with
  | [] => (write_index r, Returned)
  | (t, w) :: rest =>
      match process_term cfg r t w with
      | (r', Continue) => main_loop cfg r' rest
      | (r', Stop e) => (r', e)
      end
  end.

(** [main], given the terms to scrape and what the world does for each. *)
Definition main (cfg : Config) (termsToScrape : list (Term * TermWorld))
  : Run * Ending :=
  match termsToScrape with
  | [] => (run0, Returned)
  | _ => main_loop cfg run0 termsToScrape
  end.

End WithWriter.

End Crawler.

(** * The vocabulary of the properties *)

(** ** Pacing *)

Module PacingSpec.
Import Double.

(** [x] is a number with [lo <= x <= hi], for integers [lo] and [hi]. *)
Definition between (lo hi : Z) (x : double) : Prop :=
  exists d, x = Fin d /\ lo * one <= d <= hi * one.

(** [x <= y] as a proposition. *)
Definition dle (x y : double) : Prop := dleb x y = true.

End PacingSpec.

(** ** Term planning *)

Module TermSpec.
Import Utils.

(** The year written in a term, read back as a number. *)
Definition parse_year (s : string) : option Z :=
  Z.of_int <$> NilZero.int_of_string s.

(** The place of a term name in the cycle, [None] for other names. *)
Definition cycle_pos (name : string) : option Z :=
  let i := indexOf name termOrder in
  if i <? 0 then None else Some i.

(** Rank of a term along the planner's cycle spring, summer, fall, winter,
    next year's spring: four ranks per year value, winter last.  This is
    the order of the walk; it is not the order of the calendar, in which the
    winter of year value [y] is the one that ends in January [y] (see
    [calendar_key]). *)
Definition cycle_rank (t : Term) : option Z :=
  match parse_year (year t), cycle_pos (term t) with
  | Some y, Some i => Some (4 * y + i)
  | _, _ => None
  end.

(** One backward step in the cycle, as the specification words it: the term
    before spring is the winter of the year before; every other term is
    preceded by the previous name of the same year. *)
Definition prev_in_cycle (t : Term) : option Term :=
  match parse_year (year t) with
  | None => None
  | Some y =>
      if String.eqb (term t) "spring" then Some (mkTerm (toString (y - 1)) "winter")
      else if String.eqb (term t) "summer" then Some (mkTerm (toString y) "spring")
      else if String.eqb (term t) "fall" then Some (mkTerm (toString y) "summer")
      else if String.eqb (term t) "winter" then Some (mkTerm (toString y) "fall")
      else None
  end.

(** The term of rank [k] in the cycle. *)
Definition term_of_key (k : Z) : Term :=
  mkTerm (toString (k / 4)) (termOrder_at (k mod 4)).

Definition walk_key (w : Walk) : Z := 4 * walkYear w + currentTermIndex w.

Definition in_cycle (w : Walk) : Prop := 0 <= currentTermIndex w <= 3.

(** The loop variables when the element of index [i] is emitted. *)
Definition walk_at (cy cm : Z) (i : nat) : Walk :=
  Nat.iter i walk_body (walk_init cy cm).

Definition own_term (key : string) : bool :=
  bool_decide (key ∈ termOrder).

(** The term the planner takes as the current one when the clock reads
    month [m] of year [y]: the first term it emits. *)
Definition current_term (y m : Z) : Term :=
  mkTerm (toString y) (currentTermOf m).

(** The first month of the year in which the planner takes a term of this
    name as the current one (utils.ts:30-37): January for winter, February
    for spring, June for summer, September for fall. *)
Definition start_month (name : string) : option Z :=
  if String.eqb name "winter" then Some 1
  else if String.eqb name "spring" then Some 2
  else if String.eqb name "summer" then Some 6
  else if String.eqb name "fall" then Some 9
  else None.

(** The place of a term on the calendar: the first month, counted from
    year 0, in which it is the current term.  The winter of year value [y]
    is the one current in January [y], "Winter y-1 - y" in [getTermName]. *)
Definition calendar_key (t : Term) : option Z :=
  match parse_year (year t), start_month (term t) with
  | Some y, Some m => Some (12 * y + m)
  | _, _ => None
  end.

End TermSpec.

(** ** The pool run, the drain loop and [main] *)

Module PoolSpec.
Import Utils Crawler.

Section WithWriter.

Context {Raw Conv : Type}.
Variable convertCourse : Raw -> Conv.

Implicit Types (p : Pool (Raw:=Raw) (Conv:=Conv)) (s : Session) (c : CourseInfo).
Implicit Types (r : Result (Raw:=Raw)) (ys : list (Result (Raw:=Raw))).
Implicit Types (run : Run (Conv:=Conv)).

(** The keys under which the results of a list are stored. *)
Definition stored_keys ys : list string :=
  (fun r => courseKey (course r)) <$> filter (fun r => is_Some (stored r)) ys.

(** What holds of every pool state reached from the start of a run over
    [courses]: the tally is the loop body folded over the yielded results;
    every course is yielded, started or queued; a resolved task carries the
    result of its own course; the loop was left through [break] only with
    the flag set, and ended otherwise only with nothing left. *)
Record Inv (courses : list CourseInfo) p : Prop := mkInv {
  inv_tally :
    tally p = fold_left (aggregate convertCourse) (yielded p) tally0;
  inv_perm :
    (course <$> yielded p) ++ (fst <$> executing p) ++ queue p ≡ₚ courses;
  inv_settled :
    forall k c r, executing p !! k = Some (c, Settled r) -> course r = c;
  inv_broke : status p = Broke -> abortRequested (session p) = true;
  inv_exhausted : status p = Exhausted -> executing p = [] /\ queue p = []
}.

(** The claim C1 as worded: when the loop is over, every course that was
    started has had its result aggregated. *)
Definition every_started_result_aggregated p : Prop :=
  status p <> Draining -> executing p = [].

(** Every request in a trace comes after the sleep of the same course. *)
Definition paced (tr : list Event) : Prop :=
  forall (i : nat) c, tr !! i = Some (EvRequest c) ->
    exists j : nat, (j < i)%nat /\ tr !! j = Some (EvSleep c).

(** Whether an event is a call of [scrapeCourse]. *)
Definition is_request (e : Event) : bool :=
  match e with
  | EvRequest _ => true
  | _ => false
  end.

(** The trace is paced and holds the sleep of every task that is asleep. *)
Record Paced p : Prop := mkPaced {
  paced_sleeping :
    forall (k : nat) c, executing p !! k = Some (c, Sleeping) ->
      EvSleep c ∈ trace p;
  paced_trace : paced (trace p)
}.

(** The courses for which a sleep was started, in order. *)
Definition slept (tr : list Event) : list CourseInfo :=
  omap (fun e => match e with EvSleep c => Some c | _ => None end) tr.

(** Unless the loop was left through [break] the flag is clear, and no
    resolved task is kept waiting for the loop. *)
Record Prompt p : Prop := mkPrompt {
  prompt_flag : status p <> Broke -> abortRequested (session p) = false;
  prompt_unsettled :
    forall (k : nat) c r, executing p !! k <> Some (c, Settled r)
}.

(** While the loop waits, the flag is clear and every started task is still
    asleep, and there is at least one. *)
Definition Ready p : Prop :=
  status p = Draining ->
  abortRequested (session p) = false /\
  executing p <> [] /\
  Forall (fun e => e.2 = Sleeping) (executing p).

(** The dataset files and the index entries that belong to [allTermData]. *)
Definition writes_of (l : list (string * string * gmap string Conv))
  : list (FileOp (Conv:=Conv)) :=
  (fun d => WriteTermData d.1.1 d.2) <$> l.

Definition index_of (l : list (string * string * gmap string Conv))
  : list (string * string) :=
  (fun d => (d.1.1, d.1.2)) <$> l.

Definition is_index (op : FileOp (Conv:=Conv)) : bool :=
  match op with
  | WriteIndex _ => true
  | WriteTermData _ _ => false
  end.

(** How often the index was written. *)
Definition index_writes (ops : list (FileOp (Conv:=Conv))) : nat :=
  length (filter (fun op => is_index op) ops).

(** The claim C4 as worded: every pool run starts from the initial
    session. *)
Definition pools_start_fresh run : Prop :=
  Forall (fun s => s = session0) (poolStarts run).

(** What the code resets. *)
Definition flag_and_403_reset s : Prop :=
  abortRequested s = false /\ forbidden403Count s = 0.

(** The courses for which [scrapeCourse] was called, in order. *)
Definition requested (tr : list Event) : list CourseInfo :=
  omap (fun e => match e with EvRequest c => Some c | _ => None end) tr.

(** The courses of the started tasks that are still asleep. *)
Definition sleepers (exec : list (CourseInfo * Stage (Raw:=Raw)))
  : list CourseInfo :=
  omap (fun e => match e.2 with Sleeping => Some e.1 | _ => None end) exec.

(** The number of tasks the pool keeps started at most: the concurrency,
    and one when the concurrency is below one. *)
Definition pool_limit (z : Z) : nat := Z.to_nat (Z.max 1 z).

(** Two pool states that differ at most in the counters of the session and
    in the console lines. *)
Record Agree p1 p2 : Prop := mkAgree {
  agree_queue : queue p1 = queue p2;
  agree_executing : executing p1 = executing p2;
  agree_tally : tally p1 = tally p2;
  agree_status : status p1 = status p2;
  agree_yielded : yielded p1 = yielded p2;
  agree_flag : abortRequested (session p1) = abortRequested (session p2);
  agree_slept : slept (trace p1) = slept (trace p2);
  agree_requested : requested (trace p1) = requested (trace p2)
}.

(** A reply other than HTTP 403. *)
Definition not_403 (reply : Reply (Raw:=Raw)) : Prop :=
  reply <> Rejected (Some 403).

(** No request of the schedule is answered 403. *)
Definition no_403 (sched : list (Tick (Raw:=Raw))) : Prop :=
  Forall (fun t => match t with
                   | FetchSettles _ reply => not_403 reply
                   | _ => True
                   end) sched.

(** Every course is requested, asleep, queued, or was skipped; the counter
    [totalRequests] has grown by the number of requests. *)
Record Counted (s0 : Session) (courses : list CourseInfo) p : Prop := mkCounted {
  counted_courses :
    requested (trace p) ++ sleepers (executing p) ++ queue p ⊆+ courses;
  counted_total :
    totalRequests (session p) =
    totalRequests s0 + Z.of_nat (length (requested (trace p)))
}.

(** As long as the flag is clear every course is requested, asleep or
    queued. *)
Definition Full (courses : list CourseInfo) p : Prop :=
  abortRequested (session p) = false ->
  requested (trace p) ++ sleepers (executing p) ++ queue p ≡ₚ courses.

(** An exhausted pool was last asked for a result with the flag clear. *)
Definition Calm p : Prop :=
  status p = Exhausted -> abortRequested (session p) = false.

(** The codes of the terms that have one, in the order of the terms. *)
Definition term_codes (ts : list (Term * TermWorld (Raw:=Raw))) : list string :=
  omap (fun tw => match getTermCode (year tw.1) (term tw.1) with
                  | Normal code => Some code
                  | Throw _ => None
                  end) ts.

(** The codes of the datasets kept for the index, oldest first. *)
Definition kept_codes run : list string :=
  (fun d => d.1.1) <$> allTermData run.

(** The lines written to the console, in order. *)
Definition console (tr : list Event) : list LogLine :=
  omap (fun e => match e with EvConsole line => Some line | _ => None end) tr.

(** The courses reported as rate limited, and those reported as forbidden. *)
Definition rate_limited (ls : list LogLine) : list CourseInfo :=
  omap (fun line => match line with LogRateLimited c => Some c | _ => None end) ls.

Definition forbidden (ls : list LogLine) : list CourseInfo :=
  omap (fun line => match line with LogForbidden c => Some c | _ => None end) ls.

(** The lines written after the first report of a 403 reply. *)
Fixpoint after_block (ls : list LogLine) : list LogLine :=
  match ls with
  | [] => []
  | LogForbidden _ :: rest => rest
  | _ :: rest => after_block rest
  end.

(** The counters and the flag of a session [s] that started as [s0], read
    off the console lines [ls] written in between. *)
Record LoggedAt s0 s (ls : list LogLine) : Prop := mkLogged {
  logged_429 :
    rateLimitCount s = rateLimitCount s0 + Z.of_nat (length (rate_limited ls));
  logged_403 :
    forbidden403Count s = forbidden403Count s0 + Z.of_nat (length (forbidden ls));
  logged_flag :
    abortRequested s =
    match forbidden ls with [] => abortRequested s0 | _ => true end;
  logged_excess :
    forall n, LogExcessiveRateLimiting n ∈ ls -> 5 < n <= rateLimitCount s;
  logged_quiet :
    abortRequested s0 = false ->
    forall c, LogFailedToScrape c ∉ after_block ls
}.

Definition Logged s0 p : Prop := LoggedAt s0 (session p) (console (trace p)).

(** The started tasks whose request has not been answered: those asleep
    and those waiting for their reply. *)
Definition unsettled (exec : list (CourseInfo * Stage (Raw:=Raw)))
  : list CourseInfo :=
  omap (fun e => match e.2 with Settled _ => None | _ => Some e.1 end) exec.

(** The 403 replies counted since the session was [s0], and the requests
    that can still be answered, fit into a pool of [limit] tasks; with the
    flag clear none has been counted. *)
Record Fits (limit : nat) s0 p : Prop := mkFits {
  fits_started : (length (executing p) <= limit)%nat;
  fits_grows : forbidden403Count s0 <= forbidden403Count (session p);
  fits_clear :
    abortRequested (session p) = false ->
    forbidden403Count (session p) = forbidden403Count s0;
  fits_room :
    forbidden403Count (session p) - forbidden403Count s0
    + Z.of_nat (length (unsettled (executing p))) <= Z.of_nat limit
}.

End WithWriter.

(** ** Concrete input *)

Definition cs101 : CourseInfo := mkCourse "CS" "101".
Definition cs225 : CourseInfo := mkCourse "CS" "225".
Definition cs374 : CourseInfo := mkCourse "CS" "374".

(** In the runs below the payload of a course is a text and the writer
    keeps it as it is. *)
Definition keep (payload : string) : string := payload.

Definition cfg2 : Config := mkConfig (JInt 2) (JInt 500) None.

(** Two courses are started; the request for the first is answered 403
    while the request for the second is still under way. *)
Definition blocked_first : list (Tick (Raw:=string)) :=
  [TimerFires 0; TimerFires 1; FetchSettles 0 (Rejected (Some 403)); PoolYields 0].

(** A term whose catalogue lists two courses of one subject. *)
Definition two_courses (sched : list (Tick (Raw:=string)))
  : TermWorld (Raw:=string) :=
  mkWorld (Normal ["CS"]) (fun _ => Normal [cs101; cs225]) sched.

(** The second course succeeds, then the first is answered 403. *)
Definition success_then_block : list (Tick (Raw:=string)) :=
  [TimerFires 0; TimerFires 1;
   FetchSettles 1 (Scraped (Some "cs225 page")); PoolYields 1;
   FetchSettles 0 (Rejected (Some 403)); PoolYields 0].

(** The first course is answered 429, the second succeeds. *)
Definition limited_then_success : list (Tick (Raw:=string)) :=
  [TimerFires 0; FetchSettles 0 (Rejected (Some 429)); PoolYields 0;
   TimerFires 0; FetchSettles 0 (Scraped (Some "cs225 page")); PoolYields 0].

Definition spring25 : Term := mkTerm "2025" "spring".
Definition winter24 : Term := mkTerm "2024" "winter".

(** One worker, two courses: both succeed, one after the other. *)
Definition both_succeed : list (Tick (Raw:=string)) :=
  [TimerFires 0; FetchSettles 0 (Scraped (Some "cs101 page")); PoolYields 0;
   TimerFires 0; FetchSettles 0 (Scraped (Some "cs225 page")); PoolYields 0].

(** The catalogue lists the same course twice; the two requests bring
    different pages. *)
Definition same_course_twice : list (Tick (Raw:=string)) :=
  [TimerFires 0; FetchSettles 0 (Scraped (Some "first page")); PoolYields 0;
   TimerFires 0; FetchSettles 0 (Scraped (Some "second page")); PoolYields 0].

(** The course lists of two subjects. *)
Definition catalogue (subject : string) : list CourseInfo :=
  if decide (subject = "CS") then [cs101; cs225] else [cs374].

(** The course list of the second subject cannot be fetched. *)
Definition second_subject_fails : TermWorld (Raw:=string) :=
  mkWorld (Normal ["CS"; "ECE"])
          (fun subject =>
             if decide (subject = "CS") then Normal [cs101; cs225]
             else Throw "timeout")
          [].

(** Two requests under way: the first is answered 403, then the second
    fails with a server error. *)
Definition failure_after_block : list (Tick (Raw:=string)) :=
  [TimerFires 0; TimerFires 1;
   FetchSettles 0 (Rejected (Some 403)); FetchSettles 1 (Rejected (Some 500))].

(** Two requests under way, both answered 403 before the loop receives a
    result. *)
Definition both_blocked : list (Tick (Raw:=string)) :=
  [TimerFires 0; TimerFires 1;
   FetchSettles 0 (Rejected (Some 403)); FetchSettles 1 (Rejected (Some 403))].

Definition cfg1 : Config := mkConfig (JInt 1) (JInt 500) None.

End PoolSpec.

(** ** Decimal text *)

Module TextSpec.
Import Utils Crawler.

(** The number written by the digits of [d] after the digits that gave
    [acc]. *)
Fixpoint uint_value (d : Decimal.uint) (acc : Z) : Z :=
  match d with
  | Decimal.Nil => acc
  | Decimal.D0 d => uint_value d (10 * acc)
  | Decimal.D1 d => uint_value d (10 * acc + 1)
  | Decimal.D2 d => uint_value d (10 * acc + 2)
  | Decimal.D3 d => uint_value d (10 * acc + 3)
  | Decimal.D4 d => uint_value d (10 * acc + 4)
  | Decimal.D5 d => uint_value d (10 * acc + 5)
  | Decimal.D6 d => uint_value d (10 * acc + 6)
  | Decimal.D7 d => uint_value d (10 * acc + 7)
  | Decimal.D8 d => uint_value d (10 * acc + 8)
  | Decimal.D9 d => uint_value d (10 * acc + 9)
  end.

(** An integer below 2^53 in magnitude: a JavaScript number holds it
    exactly, and so does its predecessor. *)
Definition safe_integer (z : Z) : Prop := Z.abs z < 2 ^ 53.

(** The year reads as no number ([NaN]) or as an integer below 2^53 in
    magnitude. *)
Definition safe_year (year : string) : Prop :=
  match parseInt_default year with
  | JInt z => safe_integer z
  | JNaN => True
  end.

(** The text is empty or starts with a character that is not a digit. *)
Definition starts_without_digit (rest : string) : Prop :=
  match rest with
  | String a _ => digit_of a = None
  | EmptyString => True
  end.

(** The two-digit code of a term name of the table. *)
Definition code_of (name : string) : string :=
  display (termCodes_get name).

(** The character occurs in the text, and how often. *)
Fixpoint occurs (a : ascii) (s : string) : bool :=
  match s with
  | EmptyString => false
  | String b rest => Ascii.eqb b a || occurs a rest
  end.

Fixpoint occurrences (a : ascii) (s : string) : nat :=
  match s with
  | EmptyString => 0%nat
  | String b rest =>
      ((if Ascii.eqb b a then 1 else 0) + occurrences a rest)%nat
  end.

(** Only white space. *)
Definition blank (s : string) : Prop := skip_ws s = EmptyString.

(** A year and a term that can be written in [SPECIFIED_TERMS]: neither
    holds a comma or a slash, the year does not start and the term does not
    end with white space. *)
Definition writable (t : Term) : Prop :=
  occurs "," (year t) = false /\ occurs "/" (year t) = false /\
  occurs "," (term t) = false /\ occurs "/" (term t) = false /\
  skip_ws (year t) = year t /\ trimEnd (term t) = term t.

(** An entry of the variable: [year/term] with white space around it. *)
Record Entry : Type := mkEntry {
  before : string;
  entry_term : Term;
  after : string
}.

Definition entry_text (e : Entry) : string :=
  before e +:+ year (entry_term e) +:+ "/" +:+ term (entry_term e) +:+ after e.

Definition well_written (e : Entry) : Prop :=
  blank (before e) /\ blank (after e) /\ writable (entry_term e).

(** The entries separated by commas. *)
Fixpoint joined (es : list Entry) : string :=
  match es with
  | [] => EmptyString
  | [e] => entry_text e
  | e :: rest => entry_text e +:+ "," +:+ joined rest
  end.

End TextSpec.

(** * Properties *)

(** ** Configuration *)

Module ConfigFacts.
Import Utils Crawler.

Lemma digits_prefix_some (s : string) (v : Z) :
  is_Some (digits_prefix s (Some v)).
Proof.
  revert v. induction s as [|a s IH]; intros v; simpl; [by eexists|].
  destruct (digit_of a); [apply IH | by eexists].
Qed.

(** [parseInt] yields [NaN] exactly on the texts without an integer
    prefix. *)
Lemma parseInt_NaN_iff (value : string) :
  parseInt value = JNaN <-> has_int_prefix value = false.
Proof.
  unfold parseInt, has_int_prefix.
  destruct (split_sign (skip_ws value)) as [sign body]; simpl.
  destruct body as [|a body]; simpl; [done|].
  destruct (digit_of a) as [d|] eqn:Hd.
  - destruct (digits_prefix_some body (10 * 0 + d)) as [v Hv].
    simpl. rewrite Hv. split; done.
  - split; [|done]. intros _. apply bool_decide_eq_false. by intros [? ?].
Qed.

(** C10: a variable that is set to a text without an integer prefix makes
    [getIntConfig] return [NaN], not [null]: the call of [parseInt]
    completes normally for every text, so the [catch] branch is never
    taken; the default of a constant such as [CONCURRENCY] is therefore
    used exactly when the variable is absent, and a malformed value gives
    [NaN] instead of the default 2. *)
Theorem getIntConfig_malformed_is_NaN (env : Env) (key value : string) :
  env !! key = Some value ->
  has_int_prefix value = false ->
  getIntConfig env key = Some JNaN /\
  (forall v, exists n, parseInt_call v = Normal n) /\
  (forall e k, getIntConfig e k = None <-> e !! k = None) /\
  (forall e, e !! "CONCURRENCY" = None -> CONCURRENCY (config_of_env e) = JInt 2) /\
  (key = "CONCURRENCY" ->
   CONCURRENCY (config_of_env env) = JNaN /\
   CONCURRENCY (config_of_env env) <> JInt 2).
Proof.
  intros Hset Hbad.
  assert (Hnan : getIntConfig env key = Some JNaN).
  { unfold getIntConfig, parseInt_call. rewrite Hset.
    by apply parseInt_NaN_iff in Hbad as ->. }
  split; [exact Hnan|]. split; [|split; [|split]].
  - intros v. by eexists.
  - intros e k. unfold getIntConfig, parseInt_call.
    destruct (e !! k); split; congruence.
  - intros e He. unfold config_of_env, getIntConfig; simpl. by rewrite He.
  - intros ->. unfold config_of_env; simpl. rewrite Hnan. by split.
Qed.

Lemma getIntConfig_malformed_is_NaN_witness :
  getIntConfig {["CONCURRENCY" := "two"]} "CONCURRENCY" = Some JNaN.
Proof.
  refine (proj1 (getIntConfig_malformed_is_NaN
                   {["CONCURRENCY" := "two"]} "CONCURRENCY" "two" _ _)).
  - reflexivity.
  - reflexivity.
Defined.

Example parseInt_units : parseInt "  -42px" = JInt (-42).
Proof. reflexivity. Qed.

Example parseInt_words : parseInt "abc" = JNaN.
Proof. reflexivity. Qed.

Example config_defaults :
  config_of_env ∅ = mkConfig (JInt 2) (JInt 500) None.
Proof. reflexivity. Qed.

End ConfigFacts.

(** ** Term planning *)

Module TermFacts.
Import Utils TermSpec.

Lemma parse_toString (z : Z) : parse_year (toString z) = Some z.
Proof.
  unfold parse_year, toString.
  rewrite NilZero.isi.
  - simpl. by rewrite DecimalZ.of_to.
  - destruct z; simpl; try discriminate.
    intros [= H]. by apply DecimalPos.Unsigned.to_uint_nonnil in H.
  - destruct z; simpl; try discriminate.
    intros [= H]. by apply DecimalPos.Unsigned.to_uint_nonnil in H.
Qed.

Lemma toString_inj (a b : Z) : toString a = toString b -> a = b.
Proof.
  intros H. apply (f_equal parse_year) in H.
  rewrite !parse_toString in H. congruence.
Qed.

Lemma small_index (i : Z) : 0 <= i <= 3 -> i = 0 \/ i = 1 \/ i = 2 \/ i = 3.
Proof. lia. Qed.

Ltac index_cases H :=
  apply small_index in H; destruct H as [H|[H|[H|H]]].

Lemma key_split (y i : Z) :
  0 <= i <= 3 -> (4 * y + i) / 4 = y /\ (4 * y + i) mod 4 = i.
Proof.
  intros Hi. split.
  - rewrite Z.add_comm, Z.mul_comm, Z.div_add by lia.
    rewrite Z.div_small; lia.
  - rewrite Z.add_comm, Z.mul_comm, Z.mod_add by lia.
    apply Z.mod_small; lia.
Qed.

Lemma cycle_rank_term_of_key (k : Z) : cycle_rank (term_of_key k) = Some k.
Proof.
  unfold cycle_rank, term_of_key; simpl. rewrite parse_toString.
  assert (Hm : 0 <= k mod 4 <= 3) by (pose proof (Z.mod_pos_bound k 4); lia).
  pose proof (Z.div_mod k 4 ltac:(lia)) as Hk.
  index_cases Hm; rewrite Hm in *; simpl; f_equal; lia.
Qed.

Lemma prev_term_of_key (k : Z) :
  prev_in_cycle (term_of_key k) = Some (term_of_key (k - 1)).
Proof.
  unfold prev_in_cycle, term_of_key; simpl. rewrite parse_toString.
  assert (Hm : 0 <= k mod 4 <= 3) by (pose proof (Z.mod_pos_bound k 4); lia).
  pose proof (Z.div_mod k 4 ltac:(lia)) as Hk.
  index_cases Hm; rewrite Hm in *; simpl.
  - replace (k - 1) with (4 * (k / 4 - 1) + 3) by lia.
    destruct (key_split (k / 4 - 1) 3 ltac:(lia)) as [-> ->]. done.
  - replace (k - 1) with (4 * (k / 4) + 0) at 1 2 by lia.
    destruct (key_split (k / 4) 0 ltac:(lia)) as [-> ->]. done.
  - replace (k - 1) with (4 * (k / 4) + 1) at 1 2 by lia.
    destruct (key_split (k / 4) 1 ltac:(lia)) as [-> ->]. done.
  - replace (k - 1) with (4 * (k / 4) + 2) at 1 2 by lia.
    destruct (key_split (k / 4) 2 ltac:(lia)) as [-> ->]. done.
Qed.

(** One iteration emits the term of the current rank and moves one rank
    back. *)
Lemma walk_body_key (w : Walk) :
  in_cycle w ->
  terms (walk_body w) = terms w ++ [term_of_key (walk_key w)] /\
  walk_key (walk_body w) = walk_key w - 1 /\
  in_cycle (walk_body w).
Proof.
  destruct w as [ts i y]. unfold in_cycle, walk_key, term_of_key; simpl.
  intros Hi. destruct (key_split y i Hi) as [-> ->].
  index_cases Hi; subst i; unfold walk_body; simpl; repeat split; lia.
Qed.

Lemma walk_init_in_cycle (cy cm : Z) : in_cycle (walk_init cy cm).
Proof.
  unfold walk_init, in_cycle, currentTermOf.
  repeat case_match; simpl; lia.
Qed.

Lemma walk_iter (n : nat) (w : Walk) :
  in_cycle w ->
  terms (Nat.iter n walk_body w) =
    terms w ++ ((fun j => term_of_key (walk_key w - Z.of_nat j)) <$> seq 0 n) /\
  walk_key (Nat.iter n walk_body w) = walk_key w - Z.of_nat n /\
  in_cycle (Nat.iter n walk_body w).
Proof.
  intros Hw. induction n as [|n (IHt & IHk & IHc)].
  - simpl. rewrite app_nil_r. split; [done|]. split; [lia|done].
  - rewrite Nat.iter_succ.
    destruct (walk_body_key _ IHc) as (Ht & Hk & Hc).
    rewrite Ht, Hk, IHt, IHk. split; [|split; [lia|done]].
    rewrite seq_S, fmap_app, app_assoc. done.
Qed.

(** The output is the list of the terms of ranks [k0], [k0 - 1], ... *)
Lemma generateTermsToScrape_lookup (cy cm count : Z) (i : nat) (t : Term) :
  generateTermsToScrape cy cm count !! i = Some t ->
  t = term_of_key (walk_key (walk_init cy cm) - Z.of_nat i).
Proof.
  unfold generateTermsToScrape.
  destruct (walk_iter (Z.to_nat count) _ (walk_init_in_cycle cy cm)) as (-> & _).
  simpl. rewrite list_lookup_fmap. intros H.
  destruct (seq 0 (Z.to_nat count) !! i) as [j|] eqn:Hj; [|done].
  apply lookup_seq in Hj as [-> _]. simpl in H. congruence.
Qed.

Lemma generateTermsToScrape_length (cy cm count : Z) :
  length (generateTermsToScrape cy cm count) = Z.to_nat count.
Proof.
  unfold generateTermsToScrape.
  destruct (walk_iter (Z.to_nat count) _ (walk_init_in_cycle cy cm)) as (-> & _).
  simpl. by rewrite length_fmap, length_seq.
Qed.

(** For every [count >= 0] the planner returns exactly [count] terms; their
    ranks in the cycle spring, summer, fall, winter, next year's spring are
    strictly descending; no term occurs twice; each term is followed by the
    one a single backward step away in that cycle; and [count = 0] gives
    the empty list. *)
Lemma generateTermsToScrape_walks_the_cycle (currentYear currentMonth count : Z) :
  0 <= count ->
  let out := generateTermsToScrape currentYear currentMonth count in
  length out = Z.to_nat count /\
  (forall (i j : nat) (a b : Term),
      (i < j)%nat -> out !! i = Some a -> out !! j = Some b ->
      exists ka kb, cycle_rank a = Some ka /\ cycle_rank b = Some kb /\ kb < ka) /\
  NoDup out /\
  (forall (i : nat) (a b : Term),
      out !! i = Some a -> out !! S i = Some b -> prev_in_cycle a = Some b) /\
  (count = 0 -> out = []).
Proof.
  intros Hc out. split; [apply generateTermsToScrape_length|].
  split; [|split; [|split]].
  - intros i j a b Hij Ha Hb.
    apply generateTermsToScrape_lookup in Ha as ->.
    apply generateTermsToScrape_lookup in Hb as ->.
    eexists _, _. rewrite !cycle_rank_term_of_key. repeat split. lia.
  - apply NoDup_alt. intros i j t Hi Hj.
    apply generateTermsToScrape_lookup in Hi, Hj.
    rewrite Hi in Hj. apply (f_equal cycle_rank) in Hj.
    rewrite !cycle_rank_term_of_key in Hj. injection Hj. lia.
  - intros i a b Ha Hb.
    apply generateTermsToScrape_lookup in Ha as ->.
    apply generateTermsToScrape_lookup in Hb as ->.
    rewrite prev_term_of_key. do 2 f_equal. lia.
  - intros ->. reflexivity.
Qed.

Lemma generateTermsToScrape_current (y m : Z) :
  generateTermsToScrape y m 1 = [current_term y m].
Proof.
  unfold generateTermsToScrape, current_term, currentTermOf. simpl.
  unfold walk_body, walk_init, currentTermOf.
  repeat case_match; reflexivity.
Qed.

(** The calendar key of the current term is the first month in which the
    planner's table gives that term. *)
Lemma calendar_key_current (y m : Z) :
  1 <= m <= 12 ->
  exists m0,
    calendar_key (current_term y m) = Some (12 * y + m0) /\
    1 <= m0 <= m /\
    currentTermOf m0 = currentTermOf m /\
    (m0 = 1 \/ currentTermOf (m0 - 1) <> currentTermOf m).
Proof.
  intros Hm. unfold calendar_key, current_term. cbn [year term].
  rewrite parse_toString. unfold currentTermOf.
  destruct (Z.leb_spec m 1); [exists 1; simpl; repeat split; (lia || by left)|].
  destruct (Z.leb_spec m 5).
  { exists 2. simpl. repeat split; try lia. by right. }
  destruct (Z.leb_spec m 8).
  { exists 6. simpl. repeat split; try lia. by right. }
  destruct (Z.leb_spec m 12); [|lia].
  exists 9. simpl. repeat split; try lia. by right.
Qed.

(** C5, where the code departs from it: the list is not in descending
    chronological order.  Whenever the planner emits a winter and goes on,
    the next term is the fall of the same year value: the term that is
    current in September of the year in whose January that winter is the
    current term.  On the calendar it comes eight months after the term
    the planner emitted before it. *)
Theorem generateTermsToScrape_plans_fall_after_winter
    (currentYear currentMonth count : Z) (i : nat) (a b : Term) :
  generateTermsToScrape currentYear currentMonth count !! i = Some a ->
  generateTermsToScrape currentYear currentMonth count !! S i = Some b ->
  term a = "winter" ->
  exists y,
    a = mkTerm (toString y) "winter" /\
    b = mkTerm (toString y) "fall" /\
    generateTermsToScrape y 1 1 = [a] /\
    generateTermsToScrape y 9 1 = [b] /\
    calendar_key a = Some (12 * y + 1) /\
    calendar_key b = Some (12 * y + 9).
Proof.
  intros Ha Hb Hw.
  apply generateTermsToScrape_lookup in Ha, Hb.
  set (k := walk_key (walk_init currentYear currentMonth) - Z.of_nat i) in *.
  replace (walk_key (walk_init currentYear currentMonth) - Z.of_nat (S i))
    with (k - 1) in Hb by lia.
  assert (Hm : 0 <= k mod 4 <= 3) by (pose proof (Z.mod_pos_bound k 4); lia).
  pose proof (Z.div_mod k 4 ltac:(lia)) as Hk.
  assert (E : k mod 4 = 3).
  { rewrite Ha in Hw. unfold term_of_key in Hw. cbn [term] in Hw.
    index_cases Hm; rewrite Hm in Hw; try discriminate Hw. done. }
  exists (k / 4).
  assert (Ea : a = mkTerm (toString (k / 4)) "winter")
    by (rewrite Ha; unfold term_of_key; by rewrite E).
  assert (Eb : b = mkTerm (toString (k / 4)) "fall").
  { rewrite Hb. unfold term_of_key.
    replace (k - 1) with (4 * (k / 4) + 2) by lia.
    by destruct (key_split (k / 4) 2 ltac:(lia)) as [-> ->]. }
  rewrite !generateTermsToScrape_current, Ea, Eb.
  unfold calendar_key. cbn [year term]. rewrite parse_toString.
  repeat split; reflexivity.
Qed.

Lemma generateTermsToScrape_plans_fall_after_winter_witness :
  exists y,
    mkTerm "2026" "winter" = mkTerm (toString y) "winter" /\
    mkTerm "2026" "fall" = mkTerm (toString y) "fall" /\
    generateTermsToScrape y 1 1 = [mkTerm "2026" "winter"] /\
    generateTermsToScrape y 9 1 = [mkTerm "2026" "fall"] /\
    calendar_key (mkTerm "2026" "winter") = Some (12 * y + 1) /\
    calendar_key (mkTerm "2026" "fall") = Some (12 * y + 9).
Proof.
  apply (generateTermsToScrape_plans_fall_after_winter 2026 1 2 0
           (mkTerm "2026" "winter") (mkTerm "2026" "fall"));
    reflexivity.
Defined.

Lemma walk_body_emits (w : Walk) :
  terms (walk_body w) =
  terms w ++ [mkTerm (toString (walkYear w)) (termOrder_at (currentTermIndex w))].
Proof.
  unfold walk_body.
  destruct (String.eqb (termOrder_at (currentTermIndex w)) "winter");
    repeat case_match; reflexivity.
Qed.

Lemma walk_terms_length (n : nat) (w : Walk) :
  length (terms (Nat.iter n walk_body w)) = (length (terms w) + n)%nat.
Proof.
  induction n as [|n IH]; [simpl; lia|].
  rewrite Nat.iter_succ, walk_body_emits, length_app, IH. simpl. lia.
Qed.

Lemma walk_terms_lookup (n i : nat) (w : Walk) :
  terms w = [] -> (i < n)%nat ->
  terms (Nat.iter n walk_body w) !! i =
  Some (mkTerm (toString (walkYear (Nat.iter i walk_body w)))
               (termOrder_at (currentTermIndex (Nat.iter i walk_body w)))).
Proof.
  intros Hnil. induction n as [|n IH]; [lia|]. intros Hi.
  rewrite Nat.iter_succ, walk_body_emits.
  pose proof (walk_terms_length n w) as Hlen. rewrite Hnil in Hlen; simpl in Hlen.
  destruct (decide (i = n)) as [->|Hne].
  - rewrite lookup_app_r by lia. rewrite Hlen, Nat.sub_diag. reflexivity.
  - rewrite lookup_app_l by lia. apply IH. lia.
Qed.

Lemma termOrder_at_spring (i : Z) : termOrder_at i = "spring" -> i = 0.
Proof.
  unfold termOrder_at. destruct (Z.ltb_spec i 0); [done|].
  destruct (Z.to_nat i) as [|[|[|[|n]]]] eqn:Hn; simpl; try done.
  intros _. lia.
Qed.

(** C6: the element emitted at position [i] carries the year the walk holds
    when it reaches that position; the step that follows lowers the year by
    one when the emitted term is spring (the walk then stands on winter)
    and when the index would fall below the start of the cycle list, and
    leaves the year alone otherwise. *)
Theorem walk_year_at_emission (currentYear currentMonth count : Z)
    (i : nat) (t : Term) :
  generateTermsToScrape currentYear currentMonth count !! i = Some t ->
  let w := walk_at currentYear currentMonth i in
  t = mkTerm (toString (walkYear w)) (termOrder_at (currentTermIndex w)) /\
  (term t = "spring" ->
   walkYear (walk_body w) = walkYear w - 1 /\
   termOrder_at (currentTermIndex (walk_body w)) = "winter") /\
  (currentTermIndex w - 1 < 0 ->
   walkYear (walk_body w) = walkYear w - 1 /\
   currentTermIndex (walk_body w) = Z.of_nat (length termOrder) - 1) /\
  (term t <> "spring" -> 0 <= currentTermIndex w - 1 ->
   walkYear (walk_body w) = walkYear w).
Proof.
  intros Hi w.
  assert (Hlt : (i < Z.to_nat count)%nat).
  { apply lookup_lt_Some in Hi. by rewrite generateTermsToScrape_length in Hi. }
  unfold generateTermsToScrape in Hi.
  rewrite (walk_terms_lookup _ i) in Hi by done.
  injection Hi as <-. fold (walk_at currentYear currentMonth i). fold w.
  split; [reflexivity|]. simpl. split; [|split].
  - intros Hs. pose proof (termOrder_at_spring _ Hs) as H0.
    unfold walk_body. rewrite Hs, H0. simpl. done.
  - intros Hneg. unfold walk_body.
    destruct (Z.ltb_spec (currentTermIndex w - 1) 0); [done | lia].
  - intros Hns Hpos. unfold walk_body.
    destruct (Z.ltb_spec (currentTermIndex w - 1) 0); [lia|].
    destruct (String.eqb_spec (termOrder_at (currentTermIndex w)) "spring");
      [done | reflexivity].
Qed.

Lemma walk_year_at_emission_witness :
  mkTerm "2024" "winter" =
  mkTerm (toString (walkYear (walk_at 2025 3 1)))
         (termOrder_at (currentTermIndex (walk_at 2025 3 1))).
Proof.
  refine (proj1 (walk_year_at_emission 2025 3 2 1 (mkTerm "2024" "winter") _)).
  reflexivity.
Defined.

(** *** Term codes *)

Lemma getTermCode_table (y : string) :
  getTermCode y "spring" = Normal (y +:+ "02") /\
  getTermCode y "summer" = Normal (y +:+ "05") /\
  getTermCode y "fall" = Normal (y +:+ "08") /\
  getTermCode y "winter" = Normal (y +:+ "12").
Proof. repeat split. Qed.

(** A name that, in lower case, is neither in the table nor a member of
    [Object.prototype] is refused. *)
Lemma getTermCode_throws (y t : string) :
  own_term (toLowerCase t) = false ->
  toLowerCase t ∉ objectPrototypeKeys ->
  getTermCode y t = Throw ("Invalid term: " +:+ t).
Proof.
  unfold own_term, termOrder. rewrite bool_decide_eq_false.
  intros Hown Hproto. unfold getTermCode, termCodes_get.
  rewrite (bool_decide_eq_false_2 _ Hproto).
  repeat match goal with
  | |- context [String.eqb (toLowerCase t) ?n] =>
      destruct (String.eqb_spec (toLowerCase t) n) as [E|_];
      [exfalso; apply Hown; rewrite E, list_elem_of_In; simpl; tauto|]
  end.
  reflexivity.
Qed.

(** C8: [getTermCode "2025" "fall"] is ["202508"] and ["bogus"] is
    refused, but the name ["constructor"], which is not a term, is not
    refused: the lookup in the code table finds the member inherited from
    [Object.prototype], and a value is returned. *)
Theorem getTermCode_inherited_name_returns :
  getTermCode "2025" "fall" = Normal "202508" /\
  getTermCode "2025" "bogus" = Throw "Invalid term: bogus" /\
  getTermCode "2025" "constructor" =
    Normal "2025function Object() { [native code] }" /\
  getTermCode "2025" "__proto__" = Normal "2025[object Object]".
Proof. repeat split. Qed.

Example plan_from_march :
  generateTermsToScrape 2025 3 6 =
  [mkTerm "2025" "spring"; mkTerm "2024" "winter"; mkTerm "2024" "fall";
   mkTerm "2024" "summer"; mkTerm "2024" "spring"; mkTerm "2023" "winter"].
Proof. reflexivity. Qed.

Example plan_from_january :
  generateTermsToScrape 2026 1 2 =
  [mkTerm "2026" "winter"; mkTerm "2026" "fall"].
Proof. reflexivity. Qed.

Example name_of_winter : getTermName "2026" "winter" = "Winter 2025-2026".
Proof. reflexivity. Qed.

Example name_of_fall : getTermName "2025" "fall" = "Fall 2025".
Proof. reflexivity. Qed.

End TermFacts.

(** ** Pacing *)

Module PacingFacts.
Import Utils Crawler Double Pacing PacingSpec.

(** *** Rounding is monotone *)

Lemma rne_div_range (p d : Z) : 0 < d -> p / d <= rne_div p d <= p / d + 1.
Proof.
  intros Hd. unfold rne_div.
  destruct (2 * (p mod d) <? d); [lia|].
  destruct (d <? 2 * (p mod d)); [lia|].
  destruct (Z.even (p / d)); lia.
Qed.

Lemma rne_div_exact (c d : Z) : 0 < d -> rne_div (c * d) d = c.
Proof.
  intros Hd. unfold rne_div.
  rewrite Z.div_mul, Z.mod_mul by lia.
  destruct (Z.ltb_spec (2 * 0) d); lia.
Qed.

Lemma rne_div_mono (p1 p2 d : Z) :
  0 < d -> p1 <= p2 -> rne_div p1 d <= rne_div p2 d.
Proof.
  intros Hd Hp.
  pose proof (Z.div_le_mono p1 p2 d Hd Hp) as Hq.
  pose proof (rne_div_range p1 d Hd) as H1.
  pose proof (rne_div_range p2 d Hd) as H2.
  destruct (Z.eq_dec (p1 / d) (p2 / d)) as [E|N]; [|lia].
  pose proof (Z.div_mod p1 d ltac:(lia)) as D1.
  pose proof (Z.div_mod p2 d ltac:(lia)) as D2.
  rewrite E in D1.
  assert (Hr : p1 mod d <= p2 mod d) by lia.
  unfold rne_div. rewrite E.
  destruct (Z.ltb_spec (2 * (p1 mod d)) d), (Z.ltb_spec (2 * (p2 mod d)) d);
    try lia.
  - destruct (Z.ltb_spec d (2 * (p2 mod d))); [lia|].
    destruct (Z.even (p2 / d)); lia.
  - destruct (Z.ltb_spec d (2 * (p1 mod d))), (Z.ltb_spec d (2 * (p2 mod d)));
      try lia; destruct (Z.even (p2 / d)); lia.
Qed.

Lemma round_nonneg_nonneg (p s : Z) : 0 <= p -> 0 <= s -> 0 <= round_nonneg p s.
Proof.
  intros Hp Hs. unfold round_nonneg.
  set (k := Z.max (Z.log2 p - 52) s).
  assert (Hk : 0 <= k) by lia.
  assert (Hd : 0 < 2 ^ k) by (apply Z.pow_pos_nonneg; lia).
  pose proof (rne_div_range p (2 ^ k) Hd).
  pose proof (Z.div_pos p (2 ^ k) Hp Hd).
  apply Z.mul_nonneg_nonneg; [lia|]. apply Z.pow_nonneg. lia.
Qed.

(** Two numbers in the same binade are rounded on the same grid; of two
    numbers in different binades the smaller is rounded to at most the
    power of two between them, the larger to at least that power. *)
Lemma round_nonneg_mono (p1 p2 s : Z) :
  0 <= s -> 0 <= p1 <= p2 -> round_nonneg p1 s <= round_nonneg p2 s.
Proof.
  intros Hs [H1 H12]. unfold round_nonneg.
  set (k1 := Z.max (Z.log2 p1 - 52) s).
  set (k2 := Z.max (Z.log2 p2 - 52) s).
  pose proof (Z.log2_le_mono p1 p2 H12) as Hlog.
  assert (Hk : k1 <= k2) by lia.
  assert (Hk1 : s <= k1) by lia.
  assert (Hd1 : 0 < 2 ^ k1) by (apply Z.pow_pos_nonneg; lia).
  assert (Hd2 : 0 < 2 ^ k2) by (apply Z.pow_pos_nonneg; lia).
  destruct (Z.eq_dec k1 k2) as [E|N].
  - rewrite <- E. apply Z.mul_le_mono_nonneg_r; [apply Z.pow_nonneg; lia|].
    by apply rne_div_mono.
  - assert (Hk2 : k2 = Z.log2 p2 - 52) by lia.
    assert (Hp2 : 0 < p2).
    { destruct (Z.eq_dec p2 0) as [->|]; [|lia]. simpl in *. lia. }
    assert (Hlow : 2 ^ 52 * 2 ^ (k2 - s) <= rne_div p2 (2 ^ k2) * 2 ^ (k2 - s)).
    { apply Z.mul_le_mono_nonneg_r; [apply Z.pow_nonneg; lia|].
      rewrite <- (rne_div_exact (2 ^ 52) (2 ^ k2) Hd2).
      apply rne_div_mono; [done|].
      rewrite <- Z.pow_add_r by lia.
      replace (52 + k2) with (Z.log2 p2) by lia.
      apply Z.log2_spec. lia. }
    assert (Hup : rne_div p1 (2 ^ k1) * 2 ^ (k1 - s) <= 2 ^ 53 * 2 ^ (k1 - s)).
    { apply Z.mul_le_mono_nonneg_r; [apply Z.pow_nonneg; lia|].
      rewrite <- (rne_div_exact (2 ^ 53) (2 ^ k1) Hd1).
      apply rne_div_mono; [done|].
      rewrite <- Z.pow_add_r by lia.
      destruct (Z.eq_dec p1 0) as [->|Hne].
      { apply Z.pow_nonneg. lia. }
      pose proof (Z.log2_spec p1 ltac:(lia)) as [_ Hlt].
      apply Z.lt_le_incl. eapply Z.lt_le_trans; [exact Hlt|].
      apply Z.pow_le_mono_r; lia. }
    eapply Z.le_trans; [exact Hup|]. eapply Z.le_trans; [|exact Hlow].
    rewrite <- !Z.pow_add_r by lia. apply Z.pow_le_mono_r; lia.
Qed.

Lemma round_mono (p1 p2 s : Z) :
  0 <= s -> p1 <= p2 -> round p1 s <= round p2 s.
Proof.
  intros Hs Hp. unfold round.
  destruct (Z.ltb_spec p1 0), (Z.ltb_spec p2 0); try lia.
  - pose proof (round_nonneg_mono (- p2) (- p1) s Hs ltac:(lia)). lia.
  - pose proof (round_nonneg_nonneg (- p1) s ltac:(lia) Hs).
    pose proof (round_nonneg_nonneg p2 s ltac:(lia) Hs). lia.
  - apply round_nonneg_mono; lia.
Qed.

(** *** The operations on numbers within bounds *)

Lemma one_pos : 0 < one.
Proof. reflexivity. Qed.

Lemma one_room : 2048 * one < 2 ^ 2098.
Proof. reflexivity. Qed.

Lemma fin_of_small (n : Z) : Z.abs n <= 2048 * one -> fin_of n = Fin n.
Proof.
  intros Hn. unfold fin_of. pose proof one_room.
  destruct (Z.leb_spec (2 ^ 2098) (Z.abs n)); [lia|done].
Qed.

Lemma dmul_between (a b lo hi : Z) :
  lo <= a * b <= hi ->
  Z.abs (round lo 1074) <= 2048 * one ->
  Z.abs (round hi 1074) <= 2048 * one ->
  exists c, dmul (Fin a) (Fin b) = Fin c /\ round lo 1074 <= c <= round hi 1074.
Proof.
  intros [Hlo Hhi] Bl Bh. exists (round (a * b) 1074).
  pose proof (round_mono lo (a * b) 1074 ltac:(lia) Hlo).
  pose proof (round_mono (a * b) hi 1074 ltac:(lia) Hhi).
  split; [|lia]. simpl. apply fin_of_small. lia.
Qed.

Lemma dadd_between (a b lo hi : Z) :
  lo <= a + b <= hi ->
  Z.abs (round lo 0) <= 2048 * one ->
  Z.abs (round hi 0) <= 2048 * one ->
  exists c, dadd (Fin a) (Fin b) = Fin c /\ round lo 0 <= c <= round hi 0.
Proof.
  intros [Hlo Hhi] Bl Bh. exists (round (a + b) 0).
  pose proof (round_mono lo (a + b) 0 ltac:(lia) Hlo).
  pose proof (round_mono (a + b) hi 0 ltac:(lia) Hhi).
  split; [|lia]. simpl. apply fin_of_small. lia.
Qed.

Lemma dmax_floor (a : Z) (y : double) :
  dmax (Fin a) y = NaN \/ dle (Fin a) (dmax (Fin a) y).
Proof.
  destruct y as [|b|n]; [by left|right..]; unfold dmax, dle.
  - by destruct (dleb (Fin a) (Inf b)) eqn:E; [|apply Z.leb_refl].
  - by destruct (dleb (Fin a) (Fin n)) eqn:E; [|apply Z.leb_refl].
Qed.

(** *** The constants of [sleep] *)

Lemma of_Z_1 : of_Z 1 = Fin one.
Proof. vm_compute. reflexivity. Qed.

Lemma of_Z_2 : of_Z 2 = Fin (2 * one).
Proof. vm_compute. reflexivity. Qed.

Lemma of_Z_100 : of_Z 100 = Fin (100 * one).
Proof. vm_compute. reflexivity. Qed.

Lemma of_Z_1000 : of_Z 1000 = Fin (1000 * one).
Proof. vm_compute. reflexivity. Qed.

(** The literal [0.3] is the double [5404319552844595 * 2^-54], a little
    below three tenths. *)
Lemma defaultJitterPercent_bits :
  defaultJitterPercent = Fin (5404319552844595 * 2 ^ 1020) /\
  5404319552844595 * 2 ^ 1020 * 10 < 3 * one.
Proof. split; vm_compute; reflexivity. Qed.

(** [1000 * 0.3] is rounded to 300. *)
Lemma default_product : dmul (of_Z 1000) defaultJitterPercent = Fin (300 * one).
Proof. vm_compute. reflexivity. Qed.

(** *** The delay *)

(** [Math.random() * 2 - 1] lies between -1 and 1. *)
Lemma sample_range (r : Z) :
  0 <= r < one ->
  between (-1) 1 (dsub (dmul (Fin r) (of_Z 2)) (of_Z 1)).
Proof.
  intros Hr. pose proof one_pos as Hone.
  rewrite of_Z_2, of_Z_1.
  assert (R0 : round 0 1074 = 0) by (vm_compute; reflexivity).
  assert (R2 : round (2 * one * one) 1074 = 2 * one) by (vm_compute; reflexivity).
  destruct (dmul_between r (2 * one) 0 (2 * one * one)) as (t & -> & Ht).
  { nia. } { rewrite R0. lia. } { rewrite R2. lia. }
  rewrite R0, R2 in Ht.
  assert (Rm : round (- one) 0 = - one) by (vm_compute; reflexivity).
  assert (Rp : round one 0 = one) by (vm_compute; reflexivity).
  unfold dsub, dneg.
  destruct (dadd_between t (- one) (- one) one) as (s & -> & Hs).
  { lia. } { rewrite Rm. lia. } { rewrite Rp. lia. }
  rewrite Rm, Rp in Hs. exists s. split; [done|lia].
Qed.

(** C9: for every value [Math.random()] can return, a double that is at
    least 0 and less than 1, the sample [Math.random() * 2 - 1] lies in
    [[-1, 1]] and the delay is [max(100, ms + ms * jitterPercent * sample)],
    each operation being the one of double-precision arithmetic, as the
    code computes it; whatever the arguments, the delay is [NaN] or at
    least 100; and [sleep(1000, 0.3)] gives a delay in [[100, 1300]], in
    fact in [[700, 1300]]. *)
Theorem actualDelay_formula_and_bounds (ms jitterPercent : double) (r : Z) :
  0 <= r < one ->
  let random := Fin r in
  let sample := dsub (dmul random (of_Z 2)) (of_Z 1) in
  between (-1) 1 sample /\
  actualDelay ms jitterPercent random =
    dmax (of_Z 100) (dadd ms (dmul (dmul ms jitterPercent) sample)) /\
  (actualDelay ms jitterPercent random = NaN \/
   dle (of_Z 100) (actualDelay ms jitterPercent random)) /\
  between 100 1300 (actualDelay (of_Z 1000) defaultJitterPercent random) /\
  between 700 1300 (actualDelay (of_Z 1000) defaultJitterPercent random).
Proof.
  intros Hr. cbv zeta. pose proof one_pos as Hone.
  pose proof (sample_range r Hr) as Hsample.
  split; [exact Hsample|]. split; [reflexivity|].
  split; [unfold actualDelay; rewrite of_Z_100; apply dmax_floor|].
  assert (H : between 700 1300
                (actualDelay (of_Z 1000) defaultJitterPercent (Fin r))).
  { unfold actualDelay, jitter.
    destruct Hsample as (s & -> & Hs).
    rewrite default_product, of_Z_1000, of_Z_100.
    assert (Rl : round (- (300 * one * one)) 1074 = - (300 * one))
      by (vm_compute; reflexivity).
    assert (Rh : round (300 * one * one) 1074 = 300 * one)
      by (vm_compute; reflexivity).
    destruct (dmul_between (300 * one) s (- (300 * one * one)) (300 * one * one))
      as (j & -> & Hj).
    { nia. } { rewrite Rl. lia. } { rewrite Rh. lia. }
    rewrite Rl, Rh in Hj.
    assert (Sl : round (700 * one) 0 = 700 * one) by (vm_compute; reflexivity).
    assert (Sh : round (1300 * one) 0 = 1300 * one) by (vm_compute; reflexivity).
    destruct (dadd_between (1000 * one) j (700 * one) (1300 * one))
      as (d & -> & Hd).
    { lia. } { rewrite Sl. lia. } { rewrite Sh. lia. }
    rewrite Sl, Sh in Hd.
    exists d. split; [|lia].
    unfold dmax, dleb. destruct (Z.leb_spec (100 * one) d); [done|lia]. }
  split; [|exact H].
  destruct H as (d & -> & Hd). exists d. split; [done|lia].
Qed.

(** With [Math.random()] returning 0.25 the sample is -0.5 and
    [sleep(1000, 0.3)] waits 850 ms. *)
Lemma actualDelay_formula_and_bounds_witness :
  between 100 1300 (actualDelay (of_Z 1000) defaultJitterPercent (Fin (2 ^ 1072))).
Proof.
  refine (proj1 (proj2 (proj2 (proj2
    (actualDelay_formula_and_bounds NaN NaN (2 ^ 1072) _))))).
  split; [discriminate | reflexivity].
Defined.

Example actualDelay_quarter :
  actualDelay (of_Z 1000) defaultJitterPercent (Fin (2 ^ 1072)) = Fin (850 * one).
Proof. vm_compute. reflexivity. Qed.

(** The operations round: [sleep(333, 0.3)] with [Math.random()] returning
    0 waits [2050369283476685 * 2^-43] ms, printed 233.10000000000002, and
    not 233.1. *)
Example actualDelay_rounds :
  actualDelay (of_Z 333) defaultJitterPercent (Fin 0) =
    Fin (2050369283476685 * 2 ^ 1031) /\
  2050369283476685 * 2 ^ 1031 * 10 <> 2331 * one.
Proof. split; [vm_compute; reflexivity | discriminate]. Qed.

(** A delay that is not a number gives a wait that is not a number: the
    floor of 100 does not apply.  [main] passes such a delay when
    [REQUEST_DELAY_MS] is set to a text without an integer prefix. *)
Lemma actualDelay_of_malformed_delay
    (env : Env) (value : string) (jitterPercent random : double) :
  env !! "REQUEST_DELAY_MS" = Some value ->
  has_int_prefix value = false ->
  REQUEST_DELAY_MS (config_of_env env) = JNaN /\
  actualDelay (of_jsnum (REQUEST_DELAY_MS (config_of_env env)))
    jitterPercent random = NaN.
Proof.
  intros Hset Hbad.
  assert (E : REQUEST_DELAY_MS (config_of_env env) = JNaN).
  { unfold config_of_env, getIntConfig, parseInt_call. simpl. rewrite Hset.
    simpl. by apply ConfigFacts.parseInt_NaN_iff in Hbad as ->. }
  split; [done|]. rewrite E. reflexivity.
Qed.

End PacingFacts.

(** ** The pool run and the drain loop *)

Module PoolFacts.
Import Utils Crawler PoolSpec.

#[local] Set Warnings "-clear-no-such-hyp".

Section Facts.

Context {Raw Conv : Type}.
Variable convertCourse : Raw -> Conv.

Implicit Types (p : Pool (Raw:=Raw) (Conv:=Conv)) (s : Session) (c : CourseInfo).
Implicit Types (r : Result (Raw:=Raw)) (ys : list (Result (Raw:=Raw))).
Implicit Types (exec : list (CourseInfo * Stage (Raw:=Raw))).

Local Abbreviation Inv := (PoolSpec.Inv convertCourse).

(** *** The tally is the fold of the loop body over the yielded results *)

Lemma aggregate_fold_counts ys (t : Tally (Conv:=Conv)) :
  let t' := fold_left (aggregate convertCourse) ys t in
  completed t' = completed t + Z.of_nat (length ys) /\
  successCount t' = successCount t + Z.of_nat (length (stored_keys ys)) /\
  failureCount t' =
    failureCount t + (Z.of_nat (length ys) - Z.of_nat (length (stored_keys ys))) /\
  dom (coursesMap t') = dom (coursesMap t) ∪ list_to_set (stored_keys ys).
Proof.
  revert t. induction ys as [|r ys IH]; intros t.
  - simpl. repeat split; try lia. set_solver.
  - cbn [fold_left]. specialize (IH (aggregate convertCourse t r)).
    destruct IH as (Hc & Hs & Hf & Hd).
    rewrite Hc, Hs, Hf, Hd. clear Hc Hs Hf Hd.
    unfold stored_keys, aggregate. rewrite filter_cons.
    destruct (stored r) as [d|] eqn:Hst.
    + rewrite decide_True by (by eexists).
      rewrite fmap_cons, list_to_set_cons, !length_cons.
      cbn [completed successCount failureCount coursesMap].
      rewrite dom_insert_L. repeat split; try lia. set_solver.
    + rewrite decide_False by (by intros [? ?]).
      rewrite !length_cons.
      cbn [completed successCount failureCount coursesMap].
      repeat split; lia.
Qed.

(** *** Starting queued items *)

Lemma start_queued_spec (concurrency : jsnum) s (q : list CourseInfo) exec
    (tr : list Event) q' exec' tr' :
  start_queued concurrency s q exec tr = (q', exec', tr') ->
  exists started,
    q = started ++ q' /\
    exec' = exec ++ ((fun c => (c, pool_callback s c)) <$> started) /\
    tr' = tr ++ (started ≫= fun c => sleep_events c (pool_callback (Raw:=Raw) s c)).
Proof.
  revert exec tr. induction q as [|c q IH]; intros exec tr; simpl.
  - intros [= <- <- <-]. exists []. simpl. by rewrite !app_nil_r.
  - destruct (size_ge _ _).
    + intros [= <- <- <-]. exists [c]. simpl. by rewrite app_nil_r.
    + intros H. apply IH in H as (st & -> & -> & ->).
      exists (c :: st). simpl. by rewrite <- !app_assoc.
Qed.

Lemma start_queued_progress (concurrency : jsnum) s c (q : list CourseInfo) exec
    (tr : list Event) :
  (length (start_queued concurrency s (c :: q) exec tr).1.1 < length (c :: q))%nat.
Proof.
  cbn [start_queued]. destruct (size_ge _ _); [simpl; lia|].
  destruct (start_queued concurrency s q _ _) as [[q' exec'] tr'] eqn:H.
  apply start_queued_spec in H as (st & Hq & _ & _). simpl.
  apply (f_equal length) in Hq. rewrite length_app in Hq. lia.
Qed.

(** *** What every pool state reached from the start satisfies *)

Lemma pool_callback_settled s c r :
  pool_callback s c = Settled r -> r = skipped c.
Proof.
  unfold pool_callback, scrapeWithDelay_start.
  destruct (abortRequested s); congruence.
Qed.

Lemma settle_course s c (reply : Reply (Raw:=Raw)) :
  course (scrapeWithDelay_settle s c reply).1.2 = c.
Proof.
  unfold scrapeWithDelay_settle. destruct reply as [d|st]; [done|].
  repeat case_bool_decide; reflexivity.
Qed.

Lemma resume_inv (concurrency : jsnum) courses p :
  Inv courses p -> Inv courses (resume concurrency p).
Proof.
  intros [Ht Hp Hs _ _]. unfold resume.
  destruct (start_queued _ _ _ _ _) as [[q' exec'] tr'] eqn:Ha.
  apply start_queued_spec in Ha as (st & Hq & -> & ->).
  constructor; cbn [tally yielded executing queue status session].
  - exact Ht.
  - rewrite <- Hp, Hq, fmap_app, <- list_fmap_compose.
    assert (E : (fst ∘ (fun c => (c, pool_callback (Raw:=Raw) (session p) c))) <$> st = st).
    { clear. induction st as [|c st IH]; simpl; [done|]. by f_equal. }
    rewrite E. by rewrite <- !app_assoc.
  - intros k c r Hk. apply lookup_app_Some in Hk as [Hk|[_ Hk]]; [by eapply Hs|].
    rewrite list_lookup_fmap in Hk.
    destruct (st !! _) as [c'|]; [|done]. simpl in Hk.
    injection Hk as <- Hcb. apply pool_callback_settled in Hcb. by subst r.
  - repeat case_match; done.
  - repeat case_match; naive_solver.
Qed.

Lemma fst_insert_same exec (k : nat) c (st st' : Stage (Raw:=Raw)) :
  exec !! k = Some (c, st) ->
  fst <$> <[k := (c, st')]> exec = fst <$> exec.
Proof.
  intros Hk. rewrite list_fmap_insert. simpl.
  apply list_insert_id. by rewrite list_lookup_fmap, Hk.
Qed.

Lemma step_inv (concurrency : jsnum) courses p (t : Tick) :
  Inv courses p -> Inv courses (step convertCourse concurrency p t).
Proof.
  intros HI. pose proof HI as [Ht Hp Hs Hb He]. unfold step.
  destruct (status p) eqn:Hst; [|done..].
  destruct t as [k|k reply|k];
    destruct (executing p !! k) as [[c [| |res]]|] eqn:Hk; try done.
  - (* the timer of a sleeping task *)
    constructor; cbn [tally yielded executing queue status session]; try done.
    + by rewrite (fst_insert_same _ _ _ _ _ Hk).
    + intros k' c' r Hk'.
      destruct (decide (k = k')) as [<-|Hne].
      * rewrite list_lookup_insert_eq in Hk' by (by eapply lookup_lt_Some). done.
      * rewrite list_lookup_insert_ne in Hk' by done. by eapply Hs.
  - (* a request settles *)
    pose proof (settle_course (session p) c reply) as Hc.
    destruct (scrapeWithDelay_settle (session p) c reply) as [[s' res] log].
    simpl in Hc.
    constructor; cbn [tally yielded executing queue status session]; try done.
    + by rewrite (fst_insert_same _ _ _ _ _ Hk).
    + intros k' c' r Hk'.
      destruct (decide (k = k')) as [<-|Hne].
      * rewrite list_lookup_insert_eq in Hk' by (by eapply lookup_lt_Some).
        congruence.
      * rewrite list_lookup_insert_ne in Hk' by done. by eapply Hs.
  - (* a result reaches the loop *)
    cbn [session queue executing tally yielded trace].
    assert (HI1 : Inv courses
              (mkPool (session p) (queue p) (delete k (executing p))
                 (aggregate convertCourse (tally p) res) Draining
                 (yielded p ++ [res]) (trace p))).
    { constructor; cbn [tally yielded executing queue status session]; try done.
      - by rewrite fold_left_app, <- Ht.
      - rewrite <- Hp. rewrite fmap_app. simpl.
        rewrite (Hs _ _ _ Hk).
        rewrite (delete_Permutation (fst <$> executing p) k c)
          by (by rewrite list_lookup_fmap, Hk).
        rewrite <- list_fmap_delete.
        rewrite <- !app_assoc. simpl.
        by rewrite Permutation_middle.
      - intros k' c' r Hk'.
        apply list_elem_of_lookup_2, list_elem_of_delete_inv in Hk'.
        apply list_elem_of_lookup_1 in Hk' as [k'' Hk'']. by eapply Hs. }
    destruct (abortRequested (session p)) eqn:Hab.
    + destruct HI1 as [Ht1 Hp1 Hs1 _ _].
      constructor; cbn [tally yielded executing queue status session]; done.
    + by apply resume_inv.
Qed.

Lemma start_inv (concurrency : jsnum) s courses :
  Inv courses (pool_start (Conv:=Conv) concurrency s courses).
Proof.
  apply resume_inv. constructor; simpl; done.
Qed.

Lemma steps_inv (concurrency : jsnum) courses (sched : list Tick) p :
  Inv courses p ->
  Inv courses (fold_left (step convertCourse concurrency) sched p).
Proof.
  revert p. induction sched as [|t sched IH]; intros p HI; simpl; [done|].
  apply IH. by apply step_inv.
Qed.

Lemma run_pool_inv (concurrency : jsnum) s courses (sched : list Tick) :
  Inv courses (run_pool convertCourse concurrency s courses sched).
Proof. apply steps_inv, start_inv. Qed.

(** When the loop is over, nothing is aggregated any more. *)
Lemma step_after_loop (concurrency : jsnum) p (t : Tick) :
  status p <> Draining -> step convertCourse concurrency p t = p.
Proof. unfold step. by destruct (status p). Qed.

Lemma steps_after_loop (concurrency : jsnum) p (sched : list Tick) :
  status p <> Draining ->
  fold_left (step convertCourse concurrency) sched p = p.
Proof.
  intros Hp. induction sched as [|t sched IH]; simpl; [done|].
  by rewrite step_after_loop.
Qed.

Lemma stored_keys_NoDup courses ys (rest : list CourseInfo) :
  NoDup (courseKey <$> courses) ->
  (course <$> ys) ++ rest ≡ₚ courses ->
  NoDup (stored_keys ys).
Proof.
  intros Hnd Hperm. rewrite <- Hperm, fmap_app in Hnd.
  apply NoDup_app in Hnd as (Hnd & _ & _).
  rewrite <- list_fmap_compose in Hnd.
  eapply sublist_NoDup; [exact Hnd|].
  unfold stored_keys. apply fmap_sublist, sublist_filter.
Qed.

(** *** Requests and the abort flag *)

Lemma paced_app_quiet (tr ext : list Event) :
  paced tr -> Forall (fun e => is_request e = false) ext -> paced (tr ++ ext).
Proof.
  intros Hp Hq i c Hi.
  apply lookup_app_Some in Hi as [Hi|[_ Hi]].
  - destruct (Hp i c Hi) as (j & Hj & Hl). exists j. split; [done|].
    by apply lookup_app_l_Some.
  - apply list_elem_of_lookup_2 in Hi.
    rewrite Forall_forall in Hq. by apply Hq in Hi.
Qed.

Lemma paced_app_request (tr : list Event) c :
  paced tr -> EvSleep c ∈ tr -> paced (tr ++ [EvRequest c]).
Proof.
  intros Hp Hin i c' Hi.
  apply lookup_app_Some in Hi as [Hi|[Hge Hi]].
  - destruct (Hp i c' Hi) as (j & Hj & Hl). exists j. split; [done|].
    by apply lookup_app_l_Some.
  - apply list_lookup_singleton_Some in Hi as [_ [= <-]].
    apply list_elem_of_lookup_1 in Hin as [j Hj]. exists j. split.
    + apply lookup_lt_Some in Hj. lia.
    + by apply lookup_app_l_Some.
Qed.

Lemma sleep_events_quiet c (st : Stage (Raw:=Raw)) :
  Forall (fun e => is_request e = false) (sleep_events c st).
Proof. destruct st; repeat constructor. Qed.

Lemma resume_paced (concurrency : jsnum) p :
  Paced p -> Paced (resume (Conv:=Conv) concurrency p).
Proof.
  intros [Hs Ht]. unfold resume.
  destruct (start_queued _ _ _ _ _) as [[q' exec'] tr'] eqn:Ha.
  apply start_queued_spec in Ha as (st & Hq & -> & ->).
  constructor; cbn [executing trace].
  - intros k c Hk. apply elem_of_app.
    apply lookup_app_Some in Hk as [Hk|[_ Hk]]; [left; by eapply Hs|right].
    rewrite list_lookup_fmap in Hk.
    destruct (st !! _) as [c'|] eqn:Hc'; [|done]. simpl in Hk.
    injection Hk as <- Hcb.
    apply list_elem_of_bind. exists c'. split.
    + rewrite Hcb. simpl. set_solver.
    + by eapply list_elem_of_lookup_2.
  - apply paced_app_quiet; [done|].
    apply Forall_forall. intros e He.
    apply list_elem_of_bind in He as (c & He & _).
    pose proof (sleep_events_quiet c (pool_callback (session p) c)) as Hq'.
    rewrite Forall_forall in Hq'. by apply Hq'.
Qed.

Lemma step_paced (concurrency : jsnum) p (t : Tick) :
  Paced p -> Paced (step convertCourse concurrency p t).
Proof.
  intros HP. pose proof HP as [Hs Ht]. unfold step.
  destruct (status p) eqn:Hst; [|done..].
  destruct t as [k|k reply|k];
    destruct (executing p !! k) as [[c [| |res]]|] eqn:Hk; try done.
  - constructor; cbn [executing trace].
    + intros k' c' Hk'. apply elem_of_app. left.
      destruct (decide (k = k')) as [<-|Hne].
      * rewrite list_lookup_insert_eq in Hk' by (by eapply lookup_lt_Some). done.
      * rewrite list_lookup_insert_ne in Hk' by done. by eapply Hs.
    + apply paced_app_request; [done|]. by eapply Hs.
  - destruct (scrapeWithDelay_settle (session p) c reply) as [[s' res] log].
    constructor; cbn [executing trace].
    + intros k' c' Hk'. apply elem_of_app. left.
      destruct (decide (k = k')) as [<-|Hne].
      * rewrite list_lookup_insert_eq in Hk' by (by eapply lookup_lt_Some). done.
      * rewrite list_lookup_insert_ne in Hk' by done. by eapply Hs.
    + apply paced_app_quiet; [done|].
      apply Forall_fmap, Forall_forall. done.
  - cbn [session queue executing tally yielded trace].
    assert (HP1 : forall st,
              Paced (mkPool (session p) (queue p) (delete k (executing p))
                       (aggregate convertCourse (tally p) res) st
                       (yielded p ++ [res]) (trace p))).
    { intros st. constructor; cbn [executing trace]; [|done].
      intros k' c' Hk'.
      apply list_elem_of_lookup_2, list_elem_of_delete_inv in Hk'.
      apply list_elem_of_lookup_1 in Hk' as [k'' Hk'']. by eapply Hs. }
    destruct (abortRequested (session p)); [apply HP1|].
    apply resume_paced, HP1.
Qed.

Lemma run_pool_paced (concurrency : jsnum) s courses (sched : list Tick) :
  Paced (run_pool convertCourse concurrency s courses sched).
Proof.
  unfold run_pool.
  assert (H0 : Paced (pool_start (Raw:=Raw) (Conv:=Conv) concurrency s courses)).
  { apply resume_paced. constructor; simpl; [done|]. intros i c Hi. done. }
  revert H0. generalize (pool_start (Raw:=Raw) (Conv:=Conv) concurrency s courses).
  induction sched as [|t sched IH]; intros p Hp; simpl; [done|].
  apply IH. by apply step_paced.
Qed.

Lemma slept_app (tr1 tr2 : list Event) : slept (tr1 ++ tr2) = slept tr1 ++ slept tr2.
Proof. apply omap_app. Qed.

Lemma slept_console (log : list LogLine) : slept (EvConsole <$> log) = [].
Proof. induction log; simpl; done. Qed.

Lemma settle_keeps_abort s c (reply : Reply (Raw:=Raw)) :
  abortRequested s = true ->
  abortRequested (scrapeWithDelay_settle s c reply).1.1 = true.
Proof.
  intros Hs. unfold scrapeWithDelay_settle. destruct reply as [d|st]; [done|].
  repeat case_bool_decide; simpl; done.
Qed.

(** With the flag set, no event of the pool starts a queued course. *)
Lemma step_when_aborted (concurrency : jsnum) p (t : Tick) :
  abortRequested (session p) = true ->
  let p' := step convertCourse concurrency p t in
  queue p' = queue p /\
  slept (trace p') = slept (trace p) /\
  abortRequested (session p') = true.
Proof.
  intros Hab. unfold step.
  destruct (status p); [|done..].
  destruct t as [k|k reply|k];
    destruct (executing p !! k) as [[c [| |res]]|]; try done.
  - cbn [queue trace session]. rewrite slept_app. simpl.
    by rewrite app_nil_r.
  - pose proof (settle_keeps_abort (session p) c reply Hab) as Hk.
    destruct (scrapeWithDelay_settle (session p) c reply) as [[s' res] log].
    cbn [queue trace session]. rewrite slept_app, slept_console.
    by rewrite app_nil_r.
  - cbn [session]. rewrite Hab. done.
Qed.

(** *** Node's order of events *)

Lemma resume_prompt (concurrency : jsnum) p :
  abortRequested (session p) = false ->
  (forall (k : nat) c r, executing p !! k <> Some (c, Settled r)) ->
  Prompt (resume (Conv:=Conv) concurrency p).
Proof.
  intros Hab Hs. unfold resume.
  destruct (start_queued _ _ _ _ _) as [[q' exec'] tr'] eqn:Ha.
  apply start_queued_spec in Ha as (st & Hq & -> & ->).
  constructor; cbn [executing session]; [done|].
  intros k c r Hk.
  apply lookup_app_Some in Hk as [Hk|[_ Hk]]; [by eapply Hs|].
  rewrite list_lookup_fmap in Hk.
  destruct (st !! _) as [c'|]; [|done]. simpl in Hk.
  injection Hk as <- Hcb. revert Hcb.
  unfold pool_callback, scrapeWithDelay_start. by rewrite Hab.
Qed.

Lemma delete_insert_same {A} (l : list A) (k : nat) (x : A) :
  delete k (<[k := x]> l) = delete k l.
Proof.
  revert k. induction l as [|y l IH]; intros [|k]; simpl; try done.
  by rewrite IH.
Qed.

Lemma step_unready (concurrency : jsnum) p (k : nat) :
  (forall c r, executing p !! k <> Some (c, Settled r)) ->
  step convertCourse concurrency p (PoolYields k) = p.
Proof.
  intros Hk. unfold step. destruct (status p); [|done..].
  destruct (executing p !! k) as [[c [| |res]]|] eqn:E; try done.
  by destruct (Hk c res).
Qed.

Lemma node_step_prompt (concurrency : jsnum) p (m : MacroTask) :
  Prompt p -> Prompt (node_step convertCourse concurrency p m).
Proof.
  intros HP. destruct (status p) eqn:Hst.
  2,3: (destruct m; simpl; rewrite !(step_after_loop _ p) by congruence;
        exact HP).
  pose proof HP as [Hf Hs].
  assert (Hf' : abortRequested (session p) = false) by (apply Hf; congruence).
  clear Hf.
  destruct m as [k|k reply]; simpl.
  - unfold step. rewrite Hst.
    destruct (executing p !! k) as [[c [| |res]]|] eqn:Hk; try done.
    constructor; cbn [status session executing]; [done|].
    intros k' c' r Hk'.
    destruct (decide (k = k')) as [<-|Hne].
    + rewrite list_lookup_insert_eq in Hk' by (by eapply lookup_lt_Some). done.
    + rewrite list_lookup_insert_ne in Hk' by done. by eapply Hs.
  - destruct (executing p !! k) as [[c [| |res]]|] eqn:Hk.
    + (* the task is still asleep: nothing happens *)
      assert (E : step convertCourse concurrency p (FetchSettles k reply) = p)
        by (unfold step; by rewrite Hst, Hk).
      rewrite E, step_unready; [done|]. intros ? ?. by rewrite Hk.
    + (* the request settles and its result is aggregated at once *)
      unfold step at 2. rewrite Hst, Hk.
      destruct (scrapeWithDelay_settle (session p) c reply) as [[s' res] log].
      unfold step. cbn [status executing session queue tally yielded trace].
      rewrite list_lookup_insert_eq by (by eapply lookup_lt_Some).
      rewrite delete_insert_same.
      assert (Hrest : forall (k' : nat) c' r,
                 delete k (executing p) !! k' <> Some (c', Settled r)).
      { intros k' c' r Hk'.
        apply list_elem_of_lookup_2, list_elem_of_delete_inv in Hk'.
        apply list_elem_of_lookup_1 in Hk' as [k'' Hk'']. by eapply Hs. }
      destruct (abortRequested s') eqn:Hab.
      * constructor; cbn [status executing]; done.
      * apply resume_prompt; cbn [session executing]; done.
    + by destruct (Hs k c res).
    + assert (E : step convertCourse concurrency p (FetchSettles k reply) = p)
        by (unfold step; by rewrite Hst, Hk).
      rewrite E, step_unready; [done|]. intros ? ?. by rewrite Hk.
Qed.

Lemma start_prompt (concurrency : jsnum) s courses :
  abortRequested s = false ->
  Prompt (pool_start (Raw:=Raw) (Conv:=Conv) concurrency s courses).
Proof. intros Hs. apply resume_prompt; simpl; [done|]. by intros k c r. Qed.

Lemma run_node_prompt (concurrency : jsnum) s courses (ms : list MacroTask) :
  abortRequested s = false ->
  Prompt (run_node convertCourse concurrency s courses ms).
Proof.
  intros Hs. unfold run_node.
  pose proof (start_prompt concurrency s courses Hs) as H0. revert H0.
  generalize (pool_start (Raw:=Raw) (Conv:=Conv) concurrency s courses).
  induction ms as [|m ms IH]; intros p Hp; simpl; [done|].
  apply IH. by apply node_step_prompt.
Qed.

Lemma node_steps_after_loop (concurrency : jsnum) p (ms : list MacroTask) :
  status p <> Draining ->
  fold_left (node_step convertCourse concurrency) ms p = p.
Proof.
  intros Hp. induction ms as [|m ms IH]; simpl; [done|].
  destruct m; simpl; rewrite !(step_after_loop _ p) by done; exact IH.
Qed.

(** A run in Node's order is a run of the pool. *)
Lemma run_node_run_pool (concurrency : jsnum) s courses (ms : list MacroTask) :
  run_node convertCourse concurrency s courses ms =
  run_pool convertCourse concurrency s courses (ms ≫= ticks_of).
Proof.
  unfold run_node, run_pool.
  generalize (pool_start (Raw:=Raw) (Conv:=Conv) concurrency s courses).
  induction ms as [|m ms IH]; intros p; simpl; [done|].
  rewrite fold_left_app, IH. by destruct m.
Qed.

(** C1, as the code has it: whatever the order of events, the loop's tally
    is exactly the aggregate of the results the pool has handed to it:
    [completed] counts them, [successCount] counts those that succeeded
    with a payload, the course map holds the keys of exactly those, and,
    the course keys being distinct, the number of courses in the dataset
    equals [successCount].  The courses that were started and whose result
    the loop has not received are those left in [executing], whatever
    stage they are in; with the flag set, the next result the loop receives
    is aggregated and the loop is left through [break]; once the loop has
    ended (through [break] after an abort, or because the pool is
    exhausted) no further result is aggregated. *)
Theorem drain_loop_aggregates_received_results
    (concurrency : jsnum) s courses (sched : list Tick) :
  NoDup (courseKey <$> courses) ->
  let p := run_pool convertCourse concurrency s courses sched in
  completed (tally p) = Z.of_nat (length (yielded p)) /\
  successCount (tally p) =
    Z.of_nat (length (filter (fun r => is_Some (stored r)) (yielded p))) /\
  failureCount (tally p) = completed (tally p) - successCount (tally p) /\
  (forall key, key ∈ dom (coursesMap (tally p)) <->
     exists r, r ∈ yielded p /\ is_Some (stored r) /\ courseKey (course r) = key) /\
  Z.of_nat (size (coursesMap (tally p))) = successCount (tally p) /\
  (course <$> yielded p) ++ (fst <$> executing p) ++ queue p ≡ₚ courses /\
  (status p = Broke -> abortRequested (session p) = true) /\
  (status p <> Draining ->
   forall sched', run_pool convertCourse concurrency s courses (sched ++ sched') = p) /\
  (status p = Draining -> abortRequested (session p) = true ->
   forall (k : nat) c r,
     executing p !! k = Some (c, Settled r) ->
     let p' := run_pool convertCourse concurrency s courses
                 (sched ++ [PoolYields k]) in
     status p' = Broke /\
     yielded p' = yielded p ++ [r] /\
     tally p' = aggregate convertCourse (tally p) r /\
     executing p' = delete k (executing p)).
Proof.
  intros Hnd p.
  pose proof (run_pool_inv concurrency s courses sched) as [Ht Hp _ Hb _].
  fold p in Ht, Hp, Hb.
  pose proof (aggregate_fold_counts (yielded p) tally0) as (Hc & Hs & Hf & Hd).
  simpl in Hc, Hs, Hf, Hd. rewrite <- Ht in Hc, Hs, Hf, Hd.
  rewrite dom_empty_L, (left_id_L ∅ (∪)) in Hd.
  assert (Hlen : length (stored_keys (yielded p)) =
                 length (filter (fun r => is_Some (stored r)) (yielded p)))
    by (unfold stored_keys; apply length_fmap).
  split; [lia|]. split; [lia|]. split; [lia|].
  split; [|split; [|split; [|split; [|split]]]].
  - intros key. rewrite Hd, elem_of_list_to_set.
    unfold stored_keys. rewrite list_elem_of_fmap. split.
    + intros (r & -> & Hr). apply list_elem_of_filter in Hr as [? ?].
      by exists r.
    + intros (r & Hr & Hst & <-). exists r. split; [done|].
      by apply list_elem_of_filter.
  - rewrite <- size_dom, Hd.
    rewrite size_list_to_set by (by eapply stored_keys_NoDup).
    lia.
  - exact Hp.
  - exact Hb.
  - intros Hend sched'. unfold run_pool. rewrite fold_left_app.
    by apply steps_after_loop.
  - intros Hst Hab k c r Hk. unfold run_pool. rewrite fold_left_app.
    fold (run_pool convertCourse concurrency s courses sched). fold p.
    cbn [fold_left]. unfold step. rewrite Hst, Hk.
    cbn [session]. by rewrite Hab.
Qed.

(** C2: start the pool with the flag clear and let it run in Node's order
    until the flag is set.  From then on nothing more happens in the run:
    no sleep is started and no request is issued.  Every request of the run
    was issued after the sleep of its task, which the task entered only
    after it had read the flag as clear.  A task that reads the flag as set
    resolves at once with the skip result, without sleep and without
    request; and, whatever the order of events, while the flag is set no
    queued course is started. *)
Theorem abort_flag_stops_new_requests
    (concurrency : jsnum) s courses (ms ms' : list MacroTask) :
  abortRequested s = false ->
  let p := run_node convertCourse concurrency s courses ms in
  abortRequested (session p) = true ->
  run_node convertCourse concurrency s courses (ms ++ ms') = p /\
  status p = Broke /\
  paced (trace p) /\
  (forall s' c,
      abortRequested s' = true ->
      pool_callback (Raw:=Raw) s' c = Settled (skipped c) /\
      scrapeWithDelay_start (Raw:=Raw) s' c = Settled (skipped c) /\
      sleep_events c (pool_callback (Raw:=Raw) s' c) = []) /\
  (forall s' c,
      abortRequested s' = false ->
      sleep_events c (pool_callback (Raw:=Raw) s' c) = [EvSleep c]) /\
  (forall (q : Pool (Raw:=Raw) (Conv:=Conv)) (t : Tick),
      abortRequested (session q) = true ->
      queue (step convertCourse concurrency q t) = queue q /\
      slept (trace (step convertCourse concurrency q t)) = slept (trace q) /\
      abortRequested (session (step convertCourse concurrency q t)) = true).
Proof.
  intros Hs p Hab.
  pose proof (run_node_prompt concurrency s courses ms Hs) as [Hf _].
  fold p in Hf.
  assert (Hbroke : status p = Broke).
  { destruct (status p) eqn:Hst; [|done|]; rewrite Hf in Hab; done. }
  assert (Hend : status p <> Draining) by congruence.
  split; [|split; [|split; [|split; [|split]]]].
  - unfold run_node. rewrite fold_left_app. by apply node_steps_after_loop.
  - exact Hbroke.
  - unfold p. rewrite run_node_run_pool. apply run_pool_paced.
  - intros s' c Hs'. unfold pool_callback, scrapeWithDelay_start.
    by rewrite Hs'.
  - intros s' c Hs'. unfold pool_callback, scrapeWithDelay_start.
    by rewrite Hs'.
  - intros q t Hq. by apply step_when_aborted.
Qed.


(** *** Replies 403 and 429 *)

Lemma settle_403 s c :
  scrapeWithDelay_settle (Raw:=Raw) s c (Rejected (Some 403)) =
  (mkSession (totalRequests s) (rateLimitCount s) (forbidden403Count s + 1) true,
   skipped c, [LogForbidden c; LogAborting]).
Proof.
  unfold scrapeWithDelay_settle. by rewrite bool_decide_eq_true_2.
Qed.

Lemma settle_429 s c :
  scrapeWithDelay_settle (Raw:=Raw) s c (Rejected (Some 429)) =
  (mkSession (totalRequests s) (rateLimitCount s + 1) (forbidden403Count s)
             (abortRequested s),
   skipped c,
   (LogRateLimited c ::
      (if rateLimitCount s + 1 >? 5
       then [LogExcessiveRateLimiting (rateLimitCount s + 1)] else []))
   ++ (if negb (abortRequested s) then [LogFailedToScrape c] else [])).
Proof.
  unfold scrapeWithDelay_settle.
  rewrite bool_decide_eq_false_2 by (intros [=]).
  by rewrite bool_decide_eq_true_2.
Qed.

(** The effect of a settled request in Node's order. *)
Lemma node_settle (concurrency : jsnum) p (k : nat) c (reply : Reply) :
  status p = Draining ->
  executing p !! k = Some (c, Fetching) ->
  let out := scrapeWithDelay_settle (session p) c reply in
  let p1 status' :=
    mkPool out.1.1 (queue p) (delete k (executing p))
           (aggregate convertCourse (tally p) out.1.2) status'
           (yielded p ++ [out.1.2]) (trace p ++ (EvConsole <$> out.2)) in
  node_step convertCourse concurrency p (Settle k reply) =
  if abortRequested out.1.1 then p1 Broke else resume concurrency (p1 Draining).
Proof.
  intros Hst Hk. simpl. unfold step at 2. rewrite Hst, Hk.
  destruct (scrapeWithDelay_settle (session p) c reply) as [[s' res] log].
  unfold step. cbn [status executing session queue tally yielded trace fst snd].
  rewrite list_lookup_insert_eq by (by eapply lookup_lt_Some).
  by rewrite delete_insert_same.
Qed.

Lemma resume_fields (concurrency : jsnum) p :
  session (resume concurrency p) = session p /\
  tally (resume concurrency p) = tally p /\
  yielded (resume concurrency p) = yielded p /\
  status (resume concurrency p) <> Broke /\
  (queue p <> [] ->
   (length (queue (resume concurrency p)) < length (queue p))%nat).
Proof.
  unfold resume.
  pose proof (start_queued_progress concurrency (session p)) as Hprog.
  destruct (queue p) as [|c q] eqn:Hq.
  - simpl. repeat split; try done. by destruct (executing p).
  - specialize (Hprog c q (executing p) (trace p)).
    destruct (start_queued _ _ _ _ _) as [[q' exec'] tr']. simpl in *.
    repeat split; try done. by repeat case_match.
Qed.

(** C7: a reply 429 adds one to [rateLimitCount] and leaves the abort flag
    as it was, in every state of the session; the warning about excessive
    rate limiting is written exactly when the new count exceeds 5.  In a
    pool whose flag is clear the result is counted as a failure, the loop
    does not break, and the pool goes on to start the next queued
    course. *)
Theorem rate_limit_counts_and_continues
    (concurrency : jsnum) p (k : nat) c :
  status p = Draining ->
  abortRequested (session p) = false ->
  executing p !! k = Some (c, Fetching) ->
  let reply := Rejected (Some 429) in
  let out := scrapeWithDelay_settle (Raw:=Raw) (session p) c reply in
  let p' := node_step convertCourse concurrency p (Settle k reply) in
  (forall s0 c0,
      let out0 := scrapeWithDelay_settle (Raw:=Raw) s0 c0 reply in
      rateLimitCount out0.1.1 = rateLimitCount s0 + 1 /\
      abortRequested out0.1.1 = abortRequested s0 /\
      forbidden403Count out0.1.1 = forbidden403Count s0 /\
      out0.1.2 = skipped c0 /\
      LogRateLimited c0 ∈ out0.2 /\
      (LogExcessiveRateLimiting (rateLimitCount out0.1.1) ∈ out0.2 <->
       5 < rateLimitCount out0.1.1)) /\
  session p' = out.1.1 /\
  abortRequested (session p') = false /\
  status p' <> Broke /\
  yielded p' = yielded p ++ [skipped c] /\
  failureCount (tally p') = failureCount (tally p) + 1 /\
  coursesMap (tally p') = coursesMap (tally p) /\
  (queue p <> [] -> (length (queue p') < length (queue p))%nat).
Proof.
  intros Hst Hab Hk reply out p'. split.
  - intros s0 c0 out0. unfold out0, reply. rewrite settle_429. simpl.
    repeat split; try done.
    + set_solver.
    + intros Hin. destruct (Z.gtb_spec (rateLimitCount s0 + 1) 5); [lia|].
      destruct (abortRequested s0); simpl in Hin; set_solver.
    + intros Hgt. destruct (Z.gtb_spec (rateLimitCount s0 + 1) 5); [|lia].
      set_solver.
  - unfold p'. rewrite (node_settle concurrency p k c reply Hst Hk).
    fold out. unfold out, reply. rewrite settle_429.
    cbn [fst snd abortRequested]. rewrite Hab.
    match goal with |- context [resume concurrency ?q] =>
      destruct (resume_fields concurrency q) as (Hs & Ht & Hy & Hb & Hq) end.
    rewrite Hs, Ht, Hy. cbn [session tally yielded queue] in *.
    repeat split; try done.
Qed.

(** *** Every pool run can be brought to its end *)

Lemma resume_ready (concurrency : jsnum) p :
  abortRequested (session p) = false ->
  Forall (fun e => e.2 = Sleeping) (executing p) ->
  Ready (resume (Conv:=Conv) concurrency p) /\
  (length (executing (resume concurrency p)) +
   length (queue (resume concurrency p)) =
   length (executing p) + length (queue p))%nat.
Proof.
  intros Hab Hall. unfold resume, Ready.
  pose proof (start_queued_progress concurrency (session p)) as Hprog.
  destruct (start_queued _ _ _ _ _) as [[q' exec'] tr'] eqn:Ha.
  pose proof Ha as Hspec.
  apply start_queued_spec in Hspec as (st & Hq & -> & ->).
  cbn [status session executing queue]. split.
  - intros Hst. split; [done|]. split.
    + intros Hnil. apply app_eq_nil in Hnil as [He Hs].
      apply fmap_nil_inv in Hs. subst st. simpl in Hq.
      destruct (queue p) as [|c q] eqn:Eq.
      * subst q'. rewrite He in Hst. simpl in Hst. done.
      * specialize (Hprog c q (executing p) (trace p)).
        rewrite Ha in Hprog. simpl in Hprog. subst q'. simpl in Hprog. lia.
    + apply Forall_app. split; [done|].
      apply Forall_fmap, Forall_forall. intros c _. simpl.
      unfold pool_callback, scrapeWithDelay_start. by rewrite Hab.
  - rewrite Hq, !length_app, length_fmap. lia.
Qed.

Lemma serve_oldest (concurrency : jsnum) p (reply : Reply (Raw:=Raw)) :
  Ready p -> status p = Draining ->
  let p' := node_step convertCourse concurrency
              (node_step convertCourse concurrency p (Timer 0))
              (Settle 0 reply) in
  Ready p' /\
  (length (executing p') + length (queue p') <
   length (executing p) + length (queue p))%nat.
Proof.
  intros HR Hst. destruct (HR Hst) as (Hab & Hne & Hall).
  destruct (executing p) as [|[c st] exec] eqn:He; [done|].
  apply Forall_cons in Hall as [Hc Hall]. simpl in Hc. subst st.
  set (p0 := node_step convertCourse concurrency p (Timer 0)).
  assert (E0 : p0 = mkPool (scrapeWithDelay_wake (session p)) (queue p)
                      ((c, Fetching) :: exec) (tally p) Draining (yielded p)
                      (trace p ++ [EvRequest c])).
  { unfold p0. simpl. unfold step. by rewrite Hst, He. }
  intros p'. unfold p'.
  rewrite (node_settle concurrency p0 0 c reply) by (by rewrite E0).
  rewrite E0. cbn [session queue executing tally yielded trace delete].
  destruct (scrapeWithDelay_settle _ c reply) as [[s' res] log] eqn:Hset.
  cbn [fst snd]. simpl delete.
  destruct (abortRequested s') eqn:Hab'.
  - split; [intros H; simpl in H; done|]. simpl. lia.
  - match goal with |- context [resume concurrency ?q] =>
      destruct (resume_ready concurrency q) as [HR' Hlen] end; [done|done|].
    split; [exact HR'|]. rewrite Hlen. simpl. lia.
Qed.

(** Whatever the concurrency and the course list, some order of events
    ends the drain loop. *)
Lemma pool_run_can_end (concurrency : jsnum) s courses (reply : Reply (Raw:=Raw)) :
  abortRequested s = false ->
  exists ms : list MacroTask,
    status (run_node convertCourse concurrency s courses ms) <> Draining.
Proof.
  intros Hs. unfold run_node.
  assert (H0 : Ready (pool_start (Raw:=Raw) (Conv:=Conv) concurrency s courses)).
  { apply resume_ready; simpl; [done|constructor]. }
  revert H0. generalize (pool_start (Raw:=Raw) (Conv:=Conv) concurrency s courses).
  intros p. remember (length (executing p) + length (queue p))%nat as n eqn:Hn.
  revert p Hn. induction (lt_wf n) as [n _ IH]. intros p Hn HR.
  destruct (status p) eqn:Hst.
  - destruct (serve_oldest concurrency p reply HR Hst) as [HR' Hlt].
    edestruct (IH _ ltac:(rewrite Hn; exact Hlt) _ eq_refl HR') as [ms Hms].
    exists (Timer 0 :: Settle 0 reply :: ms). exact Hms.
  - exists []. simpl. congruence.
  - exists []. simpl. congruence.
Qed.

(** ** [main] *)

Implicit Types (run : Run (Conv:=Conv)) (w : TermWorld (Raw:=Raw)).

Lemma run_pool_success_iff (concurrency : jsnum) s courses (sched : list Tick) :
  let p := run_pool convertCourse concurrency s courses sched in
  (successCount (tally p) >? 0) = true <-> coursesMap (tally p) <> ∅.
Proof.
  intros p.
  pose proof (run_pool_inv concurrency s courses sched) as [Ht _ _ _ _].
  fold p in Ht.
  pose proof (aggregate_fold_counts (yielded p) tally0) as (_ & Hs & _ & Hd).
  simpl in Hs, Hd. rewrite <- Ht in Hs, Hd.
  rewrite dom_empty_L, (left_id_L ∅ (∪)) in Hd.
  rewrite <- (dom_empty_iff_L (coursesMap (tally p))), Hd, Hs.
  destruct (stored_keys (yielded p)) as [|key keys]; simpl.
  - split; [discriminate|]. intros H. by destruct H.
  - split; [|intros _; apply Z.gtb_lt; lia].
    intros _ H. assert (key ∈ (∅ : gset string)) by (rewrite <- H; set_solver).
    set_solver.
Qed.

Lemma writes_of_snoc l termCode termName (courses : gmap string Conv) :
  writes_of (l ++ [(termCode, termName, courses)]) =
  writes_of l ++ [WriteTermData termCode courses].
Proof. unfold writes_of. by rewrite fmap_app. Qed.

(** The body of the loop over the terms keeps the files written so far and
    only ever stops the process with status 1. *)
Lemma process_term_files (cfg : Config) run (t : Term) w run' (fl : Flow) :
  process_term convertCourse cfg run t w = (run', fl) ->
  disk run = writes_of (allTermData run) ->
  disk run' = writes_of (allTermData run') /\
  (exists ops, disk run' = disk run ++ ops) /\
  (forall code, fl = Stop (Exited code) -> code = 1) /\
  fl <> Stop Returned.
Proof.
  unfold process_term. intros H Hd.
  destruct (discovered cfg t w) as [[termCode courses]|].
  2: { injection H as <- <-. repeat split; [done| |done..].
       exists []. by rewrite app_nil_r. }
  destruct (status _) eqn:Hst.
  - injection H as <- <-. simpl. repeat split; [done| |done..].
    exists []. by rewrite app_nil_r.
  - unfold after_pool, save_term in H.
    repeat case_match; injection H as <- <-; simpl;
      rewrite ?writes_of_snoc, ?Hd; repeat split; eauto; try congruence.
    exists []. by rewrite app_nil_r.
  - unfold after_pool, save_term in H.
    repeat case_match; injection H as <- <-; simpl;
      rewrite ?writes_of_snoc, ?Hd; repeat split; eauto; try congruence.
    exists []. by rewrite app_nil_r.
Qed.

Lemma main_loop_files (cfg : Config) (ts : list (Term * TermWorld)) run run' e :
  main_loop convertCourse cfg run ts = (run', e) ->
  disk run = writes_of (allTermData run) ->
  (forall code, e = Exited code -> code = 1) /\
  (e = Returned ->
   disk run' =
     writes_of (allTermData run') ++
     match allTermData run' with
     | [] => []
     | _ => [WriteIndex (index_of (allTermData run'))]
     end).
Proof.
  revert run. induction ts as [|[t w] ts IH]; intros run H Hd; simpl in H.
  - injection H as <- <-. split; [done|]. intros _.
    unfold write_index. destruct (allTermData run) as [|d l] eqn:E.
    + by rewrite E, Hd.
    + cbn [disk allTermData]. by rewrite Hd.
  - destruct (process_term convertCourse cfg run t w) as [r1 fl] eqn:Hp.
    apply process_term_files in Hp as (Hd1 & _ & Hc & Hr); [|done].
    destruct fl as [|e1].
    + by eapply IH.
    + injection H as <- <-. split; [|intros ->; done].
      intros code ->. by apply Hc.
Qed.


Lemma main_files (cfg : Config) (ts : list (Term * TermWorld)) run' e :
  main convertCourse cfg ts = (run', e) ->
  (forall code, e = Exited code -> code = 1) /\
  (e = Returned ->
   disk run' =
     writes_of (allTermData run') ++
     match allTermData run' with
     | [] => []
     | _ => [WriteIndex (index_of (allTermData run'))]
     end).
Proof.
  unfold main. destruct ts as [|tw ts].
  - intros [= <- <-]. split; done.
  - intros H. by eapply main_loop_files.
Qed.

(** C3, as the code has it: a reply 403 sets the abort flag.  When the
    drain loop of a term ends with the flag set, the courses aggregated so
    far, if there are any, are written as that term's dataset after the
    files of the earlier terms, which stay as they were, and the process
    then exits with status 1.  In a run that [main] completes, the index
    is written once, as the last file, when at least one dataset was
    produced, and not at all otherwise. *)
Theorem hard_block_saves_partial_data_then_exits
    (cfg : Config) run (t : Term) w (termCode : string) courses :
  discovered cfg t w = Some (termCode, courses) ->
  let p := run_pool convertCourse (CONCURRENCY cfg)
             (reset_for_term (vars run)) courses (schedule w) in
  status p <> Draining ->
  abortRequested (session p) = true ->
  (forall s0 c0,
      abortRequested
        (scrapeWithDelay_settle (Raw:=Raw) s0 c0 (Rejected (Some 403))).1.1 = true) /\
  (exists run',
      process_term convertCourse cfg run t w = (run', Stop (Exited 1)) /\
      disk run' =
        disk run ++
        (if decide (coursesMap (tally p) = ∅) then []
         else [WriteTermData termCode (coursesMap (tally p))]) /\
      forall rest,
        main_loop convertCourse cfg run ((t, w) :: rest) = (run', Exited 1)) /\
  (forall (ts : list (Term * TermWorld)) run1 e,
      main convertCourse cfg ts = (run1, e) ->
      (forall code, e = Exited code -> code = 1) /\
      (e = Returned ->
       disk run1 =
         writes_of (allTermData run1) ++
         match allTermData run1 with
         | [] => []
         | _ => [WriteIndex (index_of (allTermData run1))]
         end)).
Proof.
  intros Hdisc p Hend Hab. split; [|split].
  - intros s0 c0. by rewrite settle_403.
  - pose proof (run_pool_success_iff (CONCURRENCY cfg)
                  (reset_for_term (vars run)) courses (schedule w)) as Hiff.
    fold p in Hiff. simpl in Hiff.
    assert (Hpt : exists run',
               process_term convertCourse cfg run t w = (run', Stop (Exited 1)) /\
               disk run' =
                 disk run ++
                 (if decide (coursesMap (tally p) = ∅) then []
                  else [WriteTermData termCode (coursesMap (tally p))])).
    { assert (Hafter : exists run',
                 after_pool
                   (mkRun (reset_for_term (vars run)) (allTermData run) (disk run)
                      (poolStarts run ++ [reset_for_term (vars run)]))
                   t termCode p = (run', Stop (Exited 1)) /\
                 disk run' =
                   disk run ++
                   (if decide (coursesMap (tally p) = ∅) then []
                    else [WriteTermData termCode (coursesMap (tally p))])).
      { unfold after_pool. rewrite Hab.
        destruct (successCount (tally p) >? 0) eqn:Hsc;
          eexists; (split; [reflexivity|]); simpl; case_decide as Hempty.
        - by apply Hiff in Hempty.
        - done.
        - by rewrite app_nil_r.
        - apply Hiff in Hempty. congruence. }
      unfold process_term. rewrite Hdisc. fold p.
      destruct (status p) eqn:Hst; [done|exact Hafter..]. }
    destruct Hpt as (run' & Hpt & Hd). exists run'. split; [done|]. split; [done|].
    intros rest. simpl. by rewrite Hpt.
  - intros ts run1 e. apply main_files.
Qed.

Lemma process_term_starts (P : Session -> Prop) (cfg : Config) run (t : Term) w :
  (forall s, P (reset_for_term s)) ->
  Forall P (poolStarts run) ->
  Forall P (poolStarts (process_term convertCourse cfg run t w).1).
Proof.
  intros HP Hall. unfold process_term.
  destruct (discovered cfg t w) as [[termCode courses]|]; [|done].
  assert (Hall' : Forall P (poolStarts run ++ [reset_for_term (vars run)])).
  { apply Forall_app. split; [done|]. by constructor. }
  destruct (status _); simpl; [done|..];
    unfold after_pool, save_term; repeat case_match; simpl; done.
Qed.

Lemma main_loop_starts (P : Session -> Prop) (cfg : Config)
    (ts : list (Term * TermWorld)) run :
  (forall s, P (reset_for_term s)) ->
  Forall P (poolStarts run) ->
  Forall P (poolStarts (main_loop convertCourse cfg run ts).1).
Proof.
  intros HP. revert run. induction ts as [|[t w] ts IH]; intros run Hall; simpl.
  - unfold write_index. by destruct (allTermData run).
  - pose proof (process_term_starts P cfg run t w HP Hall) as H1.
    destruct (process_term convertCourse cfg run t w) as [r1 [|e]]; simpl in *.
    + by apply IH.
    + done.
Qed.

(** C4, as the code has it: each time a term's pool is started the abort
    flag is clear and the count of 403 replies is zero, whatever the
    earlier terms went through. *)
Theorem pool_starts_with_flag_and_403_count_reset
    (cfg : Config) (ts : list (Term * TermWorld)) :
  Forall flag_and_403_reset (poolStarts (main convertCourse cfg ts).1).
Proof.
  unfold main. destruct ts as [|tw ts]; [constructor|].
  apply main_loop_starts; [|constructor].
  intros s. by split.
Qed.

End Facts.

(** ** Runs on concrete input *)

(** C1 fails as worded: the loop breaks on the result of the first course,
    and the second course, which was started before the flag was set, is
    left in [executing] with its request under way; its result is never
    aggregated. *)
Lemma started_course_left_unaggregated :
  let p := run_pool keep (JInt 2) session0 [cs101; cs225] blocked_first in
  status p = Broke /\
  executing p = [(cs225, Fetching)] /\
  completed (tally p) = 1 /\
  ~ every_started_result_aggregated p.
Proof.
  vm_compute. repeat split; try reflexivity.
  intros H. specialize (H ltac:(discriminate)). discriminate.
Qed.

(** The same holds of a course whose request has succeeded when the loop
    breaks, but whose result the loop has not yet received: both requests
    settle before the loop receives the first result. *)
Example settled_success_left_unaggregated :
  let p := run_pool keep (JInt 2) session0 [cs101; cs225]
             [TimerFires 0; TimerFires 1;
              FetchSettles 0 (Rejected (Some 403));
              FetchSettles 1 (Scraped (Some "cs225 page")); PoolYields 0] in
  status p = Broke /\
  executing p = [(cs225, Settled (mkResult cs225 (Some "cs225 page") true))] /\
  successCount (tally p) = 0 /\
  coursesMap (tally p) = ∅.
Proof. vm_compute. done. Qed.

Lemma drain_loop_aggregates_received_results_witness :
  let p := run_pool keep (JInt 2) session0 [cs101; cs225]
             [TimerFires 0; TimerFires 1;
              FetchSettles 1 (Scraped (Some "cs225 page")); PoolYields 1;
              FetchSettles 0 (Rejected (Some 403)); PoolYields 0] in
  Z.of_nat (size (coursesMap (tally p))) = successCount (tally p).
Proof.
  intros p.
  refine (proj1 (proj2 (proj2 (proj2 (proj2
    (drain_loop_aggregates_received_results keep (JInt 2) session0
       [cs101; cs225] _ _)))))).
  apply (bool_decide_unpack _). vm_compute. exact I.
Defined.

Lemma abort_flag_stops_new_requests_witness :
  run_node keep (JInt 2) session0 [cs101; cs225; cs374]
    ([Timer 0; Settle 0 (Rejected (Some 403))] ++
     [Timer 0; Settle 0 (Scraped (Some "cs225 page"))]) =
  run_node keep (JInt 2) session0 [cs101; cs225; cs374]
    [Timer 0; Settle 0 (Rejected (Some 403))].
Proof.
  refine (proj1 (abort_flag_stops_new_requests keep (JInt 2) session0
                   [cs101; cs225; cs374]
                   [Timer 0; Settle 0 (Rejected (Some 403))]
                   [Timer 0; Settle 0 (Scraped (Some "cs225 page"))] _ _)).
  - reflexivity.
  - vm_compute. reflexivity.
Defined.

Lemma rate_limit_counts_and_continues_witness :
  let p := run_node keep (JInt 2) session0 [cs101; cs225; cs374] [Timer 0] in
  let p' := node_step keep (JInt 2) p (Settle 0 (Rejected (Some 429))) in
  abortRequested (session p') = false /\ status p' <> Broke.
Proof.
  intros p p'.
  pose proof (rate_limit_counts_and_continues keep (JInt 2) p 0 cs101
                ltac:(reflexivity) ltac:(reflexivity) ltac:(reflexivity))
    as (_ & _ & Hflag & Hstatus & _).
  split; [exact Hflag | exact Hstatus].
Defined.

Lemma hard_block_saves_partial_data_then_exits_witness :
  exists run',
    process_term keep cfg2 run0 spring25 (two_courses success_then_block) =
      (run', Stop (Exited 1)) /\
    length (disk run') = 1%nat.
Proof.
  pose proof (hard_block_saves_partial_data_then_exits keep cfg2 run0 spring25
                (two_courses success_then_block) "202502" [cs101; cs225]
                ltac:(reflexivity) ltac:(vm_compute; discriminate)
                ltac:(vm_compute; reflexivity))
    as (_ & (run' & Hpt & Hdisk & _) & _).
  exists run'. split; [exact Hpt|].
  rewrite Hdisk. vm_compute. reflexivity.
Defined.

(** C3 fails as worded: the first term is completed and its dataset
    written; the second term is hard-blocked after one success, its partial
    dataset is written and the process exits with status 1.  Two datasets
    were produced and the index was not written. *)
Lemma index_not_written_when_a_term_is_blocked :
  let out := main keep cfg2
               [(spring25, two_courses limited_then_success);
                (winter24, two_courses success_then_block)] in
  out.2 = Exited 1 /\
  (fun d => d.1.1) <$> allTermData out.1 = ["202502"; "202412"] /\
  length (disk out.1) = 2%nat /\
  index_writes (disk out.1) = 0%nat /\
  index_writes (disk out.1) <> 1%nat.
Proof. vm_compute. repeat split; done. Qed.

(** C4 fails as worded: the request and the 429 reply of the first term are
    still counted when the pool of the second term starts. *)
Lemma counters_carried_into_next_term :
  let out := main keep cfg2
               [(spring25, two_courses limited_then_success);
                (winter24, two_courses success_then_block)] in
  poolStarts out.1 = [session0; mkSession 2 1 0 false] /\
  ~ pools_start_fresh out.1.
Proof.
  vm_compute. split; [reflexivity|].
  intros H. inversion H as [|? ? _ H2]. inversion H2 as [|? ? H3 _].
  discriminate.
Qed.

End PoolFacts.

(** ** Decimal text, configuration values and term names *)

Module TextFacts.
Import Utils Crawler TermSpec TextSpec.

Lemma digits_prefix_rest (rest : string) (v : Z) :
  starts_without_digit rest -> digits_prefix rest (Some v) = Some v.
Proof. destruct rest as [|a rest]; simpl; [done|]. by intros ->. Qed.

Lemma digits_prefix_uint (d : Decimal.uint) (rest : string) (acc : Z) :
  digits_prefix (NilEmpty.string_of_uint d +:+ rest) (Some acc) =
  digits_prefix rest (Some (uint_value d acc)).
Proof.
  revert acc. induction d; intros acc; simpl; try done;
    rewrite IHd;
    apply (f_equal (fun v => digits_prefix rest (Some (uint_value d v))));
    match goal with |- context [Z.of_nat ?n - 48] =>
      set (x := Z.of_nat n - 48); vm_compute in x; subst x end; lia.
Qed.

Lemma digits_prefix_uint_start (d : Decimal.uint) (rest : string) :
  d <> Decimal.Nil ->
  digits_prefix (NilEmpty.string_of_uint d +:+ rest) None =
  digits_prefix rest (Some (uint_value d 0)).
Proof.
  destruct d; try done; intros _; simpl;
    rewrite digits_prefix_uint; do 2 f_equal.
Qed.

Lemma uint_value_acc (d : Decimal.uint) (acc : positive) :
  uint_value d (Z.pos acc) = Z.pos (Pos.of_uint_acc d acc).
Proof.
  revert acc. induction d; intros acc; simpl; try done;
    rewrite <- IHd; f_equal; lia.
Qed.

Lemma uint_value_of_uint (d : Decimal.uint) :
  uint_value d 0 = Z.of_N (Pos.of_uint d).
Proof.
  induction d; simpl; try done;
    rewrite <- uint_value_acc; f_equal.
Qed.

Lemma uint_value_to_uint (p : positive) :
  uint_value (Pos.to_uint p) 0 = Z.pos p.
Proof.
  rewrite uint_value_of_uint, DecimalPos.Unsigned.of_to. reflexivity.
Qed.

Lemma string_of_nonnil (d : Decimal.uint) :
  d <> Decimal.Nil -> NilZero.string_of_uint d = NilEmpty.string_of_uint d.
Proof. by destruct d. Qed.

Lemma uint_text_head (d : Decimal.uint) (rest : string) :
  d <> Decimal.Nil ->
  exists a tail, NilEmpty.string_of_uint d +:+ rest = String a tail /\
                 is_ws a = false /\ Ascii.eqb a "-" = false /\
                 Ascii.eqb a "+" = false.
Proof. destruct d; try done; intros _; simpl; eexists _, _; done. Qed.

Lemma parseInt_unsigned (text : string) (a : ascii) (tail : string) :
  text = String a tail ->
  is_ws a = false -> Ascii.eqb a "-" = false -> Ascii.eqb a "+" = false ->
  parseInt text =
  match digits_prefix text None with
  | Some v => JInt v
  | None => JNaN
  end.
Proof.
  intros -> Hws Hm Hp. unfold parseInt. cbn [skip_ws]. rewrite Hws.
  cbn [split_sign]. rewrite Hm, Hp.
  destruct (digits_prefix _ None) as [v|]; [|done].
  f_equal. lia.
Qed.

Lemma parseInt_negative (text : string) :
  parseInt (String "-" text) =
  match digits_prefix text None with
  | Some v => JInt (- v)
  | None => JNaN
  end.
Proof.
  unfold parseInt.
  change (skip_ws (String "-" text)) with (String "-" text).
  change (split_sign (String "-" text)) with (-1, text).
  cbv beta iota.
  destruct (digits_prefix text None) as [v|]; [|done].
  f_equal; lia.
Qed.

(** [parseInt] reads back the decimal text of an integer, and ignores what
    follows the digits. *)
Lemma parseInt_toString (z : Z) (rest : string) :
  starts_without_digit rest -> parseInt (toString z +:+ rest) = JInt z.
Proof.
  intros Hrest. unfold toString.
  destruct z as [|p|p]; simpl Z.to_int; cbn [NilZero.string_of_int].
  - simpl. unfold parseInt. simpl. by rewrite digits_prefix_rest.
  - pose proof (DecimalPos.Unsigned.to_uint_nonnil p) as Hnn.
    rewrite string_of_nonnil by done.
    destruct (uint_text_head _ rest Hnn) as (a & tail & E & Hws & Hm & Hp).
    rewrite (parseInt_unsigned _ a tail E Hws Hm Hp).
    rewrite digits_prefix_uint_start by done.
    rewrite digits_prefix_rest by done.
    by rewrite uint_value_to_uint.
  - pose proof (DecimalPos.Unsigned.to_uint_nonnil p) as Hnn.
    rewrite string_of_nonnil by done.
    change (String "-" (NilEmpty.string_of_uint (Pos.to_uint p)) +:+ rest)
      with (String "-" (NilEmpty.string_of_uint (Pos.to_uint p) +:+ rest)).
    rewrite parseInt_negative.
    rewrite digits_prefix_uint_start by done.
    rewrite digits_prefix_rest by done.
    by rewrite uint_value_to_uint.
Qed.

Lemma parseInt_skips_ws (a : ascii) (text : string) :
  is_ws a = true -> parseInt (String a text) = parseInt text.
Proof. intros Ha. unfold parseInt. simpl. by rewrite Ha. Qed.

(** X1: a variable whose value is the decimal text of an integer below
    2^53 in magnitude, possibly after white space and possibly followed by
    text that does not start with a digit, is read as that integer.  (A
    larger integer is read as the nearest number the language has, which
    [jsnum] does not model.) *)
Theorem getIntConfig_reads_decimal
    (env : Env) (key : string) (z : Z) (rest : string) :
  safe_integer z ->
  starts_without_digit rest ->
  env !! key = Some (toString z +:+ rest) ->
  getIntConfig env key = Some (JInt z) /\
  (forall a, is_ws a = true ->
     getIntConfig (<[key := String a (toString z +:+ rest)]> env) key =
     Some (JInt z)).
Proof.
  intros _ Hrest Hset. split.
  - unfold getIntConfig, parseInt_call. rewrite Hset.
    by rewrite parseInt_toString.
  - intros a Ha. unfold getIntConfig, parseInt_call.
    rewrite lookup_insert_eq, parseInt_skips_ws by done.
    by rewrite parseInt_toString.
Qed.

Lemma getIntConfig_reads_decimal_witness :
  getIntConfig {["CONCURRENCY" := "3 workers"]} "CONCURRENCY" = Some (JInt 3).
Proof.
  refine (proj1 (getIntConfig_reads_decimal
                   {["CONCURRENCY" := "3 workers"]} "CONCURRENCY" 3 " workers" _ _ _)).
  - reflexivity.
  - reflexivity.
  - reflexivity.
Defined.

(** *** Text lemmas *)

Lemma append_cons (a : ascii) (x y : string) :
  String a x +:+ y = String a (x +:+ y).
Proof. reflexivity. Qed.

Lemma append_empty_r (text : string) : text +:+ "" = text.
Proof.
  induction text as [|a text IH]; [done|]. by rewrite append_cons, IH.
Qed.

Lemma hex_body_uint (d : Decimal.uint) :
  hex_body (NilEmpty.string_of_uint d) = None.
Proof. destruct d as [|d|d|d|d|d|d|d|d|d|d]; try done; by destruct d. Qed.

(** Without a radix [parseInt] reads the decimal text of an integer as
    with radix 10: the text does not start with [0x]. *)
Lemma parseInt_default_toString (z : Z) : parseInt_default (toString z) = JInt z.
Proof.
  pose proof (parseInt_toString z "" I) as Hp. rewrite append_empty_r in Hp.
  rewrite <- Hp. unfold parseInt_default, parseInt, toString.
  destruct z as [|q|q]; simpl Z.to_int; cbn [NilZero.string_of_int]; [done| |].
  - pose proof (DecimalPos.Unsigned.to_uint_nonnil q) as Hnn.
    rewrite string_of_nonnil by done.
    destruct (uint_text_head _ "" Hnn) as (a & tail & E & Hws & Hm & Hpl).
    rewrite append_empty_r in E.
    pose proof (hex_body_uint (Pos.to_uint q)) as Hx. rewrite E in Hx |- *.
    cbn [skip_ws]. rewrite Hws. cbn [split_sign]. rewrite Hm, Hpl.
    by rewrite Hx.
  - pose proof (DecimalPos.Unsigned.to_uint_nonnil q) as Hnn.
    rewrite string_of_nonnil by done.
    change (skip_ws (String "-" ?t)) with (String "-" t).
    change (split_sign (String "-" ?t)) with (-1, t).
    cbv beta iota. by rewrite hex_body_uint.
Qed.

Lemma length_append (a b : string) :
  String.length (a +:+ b) = (String.length a + String.length b)%nat.
Proof.
  induction a as [|x a IH]; [done|].
  rewrite append_cons. simpl. by rewrite IH.
Qed.

Lemma append_suffix_inj (y1 y2 c1 c2 : string) :
  y1 +:+ c1 = y2 +:+ c2 -> String.length c1 = String.length c2 ->
  y1 = y2 /\ c1 = c2.
Proof.
  revert y2. induction y1 as [|a y1 IH]; intros [|b y2] H Hlen.
  - done.
  - apply (f_equal String.length) in H.
    rewrite !length_append in H. simpl in H. lia.
  - apply (f_equal String.length) in H.
    rewrite !length_append in H. simpl in H. lia.
  - rewrite !append_cons in H. injection H as -> H.
    destruct (IH _ H Hlen) as [-> ->]. done.
Qed.

(** *** Term codes of the names of the table *)

Lemma own_term_cases (name : string) :
  own_term name = true ->
  name = "spring" \/ name = "summer" \/ name = "fall" \/ name = "winter".
Proof.
  unfold own_term, termOrder. rewrite bool_decide_eq_true.
  rewrite !elem_of_cons, elem_of_nil. tauto.
Qed.

Lemma getTermCode_own (y t : string) :
  own_term (toLowerCase t) = true ->
  getTermCode y t = Normal (y +:+ code_of (toLowerCase t)) /\
  String.length (code_of (toLowerCase t)) = 2%nat.
Proof.
  intros H. unfold getTermCode, code_of.
  destruct (own_term_cases _ H) as [E|[E|[E|E]]]; rewrite E; done.
Qed.

Lemma code_of_inj (n1 n2 : string) :
  own_term n1 = true -> own_term n2 = true ->
  code_of n1 = code_of n2 -> n1 = n2.
Proof.
  intros H1 H2.
  destruct (own_term_cases _ H1) as [-> | [-> | [-> | ->]]];
    destruct (own_term_cases _ H2) as [-> | [-> | [-> | ->]]]; done.
Qed.

(** X2: two recognised terms get the same term code only when they have the
    same year and, letter case apart, the same name. *)
Theorem getTermCode_injective (y1 t1 y2 t2 code : string) :
  own_term (toLowerCase t1) = true ->
  own_term (toLowerCase t2) = true ->
  getTermCode y1 t1 = Normal code ->
  getTermCode y2 t2 = Normal code ->
  y1 = y2 /\ toLowerCase t1 = toLowerCase t2.
Proof.
  intros H1 H2 E1 E2.
  destruct (getTermCode_own y1 t1 H1) as [E1' L1].
  destruct (getTermCode_own y2 t2 H2) as [E2' L2].
  rewrite E1' in E1. rewrite E2' in E2. injection E1 as <-. injection E2 as E.
  symmetry in E. apply append_suffix_inj in E as [-> Ec]; [|congruence].
  split; [done|]. by apply code_of_inj.
Qed.

Lemma getTermCode_injective_witness :
  "2025" = "2025" /\ toLowerCase "Fall" = toLowerCase "FALL".
Proof.
  refine (getTermCode_injective "2025" "Fall" "2025" "FALL" "202508" _ _ _ _);
    reflexivity.
Defined.

End TextFacts.

(** ** The terms given in the environment *)

Module SpecifiedFacts.
Import Utils Crawler TextSpec TextFacts.

Lemma occurs_append (a : ascii) (x y : string) :
  occurs a (x +:+ y) = occurs a x || occurs a y.
Proof.
  induction x as [|b x IH]; [done|].
  rewrite append_cons. simpl. by rewrite IH, orb_assoc.
Qed.

Lemma blank_cons (b : ascii) (s : string) :
  blank (String b s) -> is_ws b = true /\ blank s.
Proof. unfold blank. simpl. by destruct (is_ws b). Qed.

Lemma blank_occurs (a : ascii) (s : string) :
  is_ws a = false -> blank s -> occurs a s = false.
Proof.
  intros Ha. induction s as [|b s IH]; [done|].
  intros [Hb Hs]%blank_cons. simpl. rewrite (IH Hs), orb_false_r.
  destruct (Ascii.eqb_spec b a) as [->|]; [congruence|done].
Qed.

Lemma split_without (sep : ascii) (s : string) :
  occurs sep s = false -> split sep s = [s].
Proof.
  induction s as [|a s IH]; [done|]. simpl.
  destruct (Ascii.eqb a sep); [done|]. simpl. intros H. by rewrite (IH H).
Qed.

Lemma split_append (sep : ascii) (x y : string) :
  occurs sep x = false ->
  split sep (x +:+ String sep y) = x :: split sep y.
Proof.
  induction x as [|a x IH].
  - intros _. change (EmptyString +:+ String sep y) with (String sep y).
    simpl. by rewrite Ascii.eqb_refl.
  - rewrite append_cons. simpl.
    destruct (Ascii.eqb a sep); [done|]. simpl. intros H. by rewrite (IH H).
Qed.

Lemma split_length (sep : ascii) (s : string) :
  length (split sep s) = S (occurrences sep s).
Proof.
  induction s as [|a s IH]; [done|]. simpl.
  destruct (Ascii.eqb a sep); simpl; [by rewrite IH|].
  destruct (split sep s); simpl in *; lia.
Qed.

Lemma skip_ws_blank_append (b x : string) :
  blank b -> skip_ws (b +:+ x) = skip_ws x.
Proof.
  induction b as [|a b IH]; [done|].
  intros [Ha Hb]%blank_cons. rewrite append_cons. simpl. rewrite Ha. by apply IH.
Qed.

Lemma skip_ws_length (s : string) :
  (String.length (skip_ws s) <= String.length s)%nat.
Proof.
  induction s as [|a s IH]; [done|]. simpl.
  destruct (is_ws a); simpl; lia.
Qed.

Lemma skip_ws_fixed (y : string) (a : ascii) (x : string) :
  is_ws a = false -> skip_ws y = y ->
  skip_ws (y +:+ String a x) = y +:+ String a x.
Proof.
  intros Ha. destruct y as [|b y].
  - intros _. change (EmptyString +:+ String a x) with (String a x).
    simpl. by rewrite Ha.
  - simpl. rewrite append_cons. simpl. destruct (is_ws b); [|done].
    intros H. pose proof (skip_ws_length y) as Hl. rewrite H in Hl.
    simpl in Hl. lia.
Qed.

Lemma trimEnd_append_blank (x b : string) :
  blank b -> trimEnd (x +:+ b) = trimEnd x.
Proof.
  intros Hb. induction x as [|a x IH].
  - change (EmptyString +:+ b) with b. simpl.
    induction b as [|c b IHb]; [done|].
    apply blank_cons in Hb as [Hc Hb]. simpl. by rewrite (IHb Hb), Hc.
  - rewrite append_cons. simpl. by rewrite IH.
Qed.

Lemma trimEnd_cons (a : ascii) (t : string) :
  is_ws a = false -> trimEnd (String a t) = String a (trimEnd t).
Proof. intros Ha. simpl. rewrite Ha. by destruct (trimEnd t). Qed.

Lemma trimEnd_keeps (x : string) (a : ascii) (q : string) :
  is_ws a = false ->
  trimEnd (x +:+ String a q) = x +:+ String a (trimEnd q).
Proof.
  intros Ha. induction x as [|b x IH]; [by apply trimEnd_cons|].
  rewrite !append_cons.
  change (trimEnd (String b (x +:+ String a q)))
    with (match trimEnd (x +:+ String a q) with
          | EmptyString => if is_ws b then EmptyString else String b EmptyString
          | kept => String b kept
          end).
  rewrite IH. by destruct x.
Qed.

Lemma slash_not_ws : is_ws "/" = false.
Proof. reflexivity. Qed.

Lemma trim_entry (e : Entry) :
  well_written e ->
  trim (entry_text e) = year (entry_term e) +:+ "/" +:+ term (entry_term e).
Proof.
  intros (Hb & Ha & _ & _ & _ & _ & Hy & Ht).
  unfold trim, entry_text.
  rewrite (skip_ws_blank_append _ _ Hb).
  change ("/" +:+ term (entry_term e) +:+ after e)
    with (String "/" (term (entry_term e) +:+ after e)).
  rewrite (skip_ws_fixed _ _ _ slash_not_ws Hy).
  rewrite (trimEnd_keeps _ _ _ slash_not_ws).
  by rewrite (trimEnd_append_blank _ _ Ha), Ht.
Qed.

Lemma specified_term_entry (e : Entry) :
  well_written e ->
  specified_term (entry_text e) =
  (Some (year (entry_term e)), Some (term (entry_term e))).
Proof.
  intros Hw. unfold specified_term. rewrite (trim_entry e Hw).
  destruct Hw as (_ & _ & _ & Hy & _ & Ht & _ & _).
  change ("/" +:+ term (entry_term e)) with (String "/" (term (entry_term e))).
  rewrite (split_append _ _ _ Hy), (split_without _ _ Ht). done.
Qed.

Lemma entry_text_without_comma (e : Entry) :
  well_written e -> occurs "," (entry_text e) = false.
Proof.
  intros (Hb & Ha & Hy & _ & Ht & _ & _ & _). unfold entry_text.
  rewrite !occurs_append, Hy, Ht.
  rewrite (blank_occurs "," _ eq_refl Hb), (blank_occurs "," _ eq_refl Ha).
  done.
Qed.

Lemma split_joined (es : list Entry) :
  es <> [] -> Forall well_written es ->
  split "," (joined es) = entry_text <$> es.
Proof.
  induction es as [|e es IH]; [done|]. intros _ Hall.
  apply Forall_cons in Hall as [He Hes].
  destruct es as [|e' es].
  - simpl. by rewrite (split_without _ _ (entry_text_without_comma e He)).
  - change (joined (e :: e' :: es))
      with (entry_text e +:+ String "," (joined (e' :: es))).
    rewrite (split_append _ _ _ (entry_text_without_comma e He)).
    rewrite IH by done. done.
Qed.

(** X3: a list of terms written as [year/term] entries, separated by commas and
    with any white space around the entries, is read back as it was
    written, in the same order. *)
Theorem SPECIFIED_TERMS_reads_back
    (env : Env) (es : list Entry) :
  es <> [] ->
  Forall well_written es ->
  env !! "SPECIFIED_TERMS" = Some (joined es) ->
  SPECIFIED_TERMS env =
  Some ((fun e => (Some (year (entry_term e)), Some (term (entry_term e)))) <$> es).
Proof.
  intros Hne Hall Hset. unfold SPECIFIED_TERMS. rewrite Hset. f_equal.
  rewrite (split_joined es Hne Hall). rewrite <- list_fmap_compose.
  apply Forall_fmap_ext_1. eapply Forall_impl; [exact Hall|].
  intros e He. simpl. by apply specified_term_entry.
Qed.

Lemma SPECIFIED_TERMS_reads_back_witness :
  SPECIFIED_TERMS {["SPECIFIED_TERMS" := "2025/fall, 2025/spring "]} =
  Some [(Some "2025", Some "fall"); (Some "2025", Some "spring")].
Proof.
  refine (SPECIFIED_TERMS_reads_back
            {["SPECIFIED_TERMS" := "2025/fall, 2025/spring "]}
            [mkEntry "" (mkTerm "2025" "fall") "";
             mkEntry " " (mkTerm "2025" "spring") " "] _ _ _).
  - discriminate.
  - repeat constructor.
  - reflexivity.
Defined.

(** X4: a variable that is set always gives at least one term, one more than
    it holds commas, and every term has a year: the list is never empty,
    not even for the empty text. *)
Theorem SPECIFIED_TERMS_is_never_empty (env : Env) (value : string) :
  env !! "SPECIFIED_TERMS" = Some value ->
  exists terms,
    SPECIFIED_TERMS env = Some terms /\
    length terms = S (occurrences "," value) /\
    Forall (fun t => is_Some t.1) terms.
Proof.
  intros Hset. unfold SPECIFIED_TERMS. rewrite Hset.
  eexists. split; [reflexivity|]. split.
  - by rewrite length_fmap, split_length.
  - apply Forall_fmap, Forall_forall. intros piece _. simpl.
    pose proof (split_length "/" (trim piece)) as Hl.
    destruct (split "/" (trim piece)); [done|by eexists].
Qed.

Lemma SPECIFIED_TERMS_is_never_empty_witness :
  exists terms,
    SPECIFIED_TERMS {["SPECIFIED_TERMS" := ""]} = Some terms /\
    length terms = 1%nat /\
    Forall (fun t => is_Some t.1) terms.
Proof.
  apply (SPECIFIED_TERMS_is_never_empty {["SPECIFIED_TERMS" := ""]} "").
  reflexivity.
Defined.

End SpecifiedFacts.

(** ** More on the planned terms *)

Module PlanFacts.
Import Utils TermSpec TextSpec TermFacts TextFacts.

Lemma planned_terms_as_keys (cy cm count : Z) :
  generateTermsToScrape cy cm count =
  (fun j => term_of_key (walk_key (walk_init cy cm) - Z.of_nat j))
    <$> seq 0 (Z.to_nat count).
Proof.
  unfold generateTermsToScrape.
  by destruct (walk_iter (Z.to_nat count) _ (walk_init_in_cycle cy cm)) as (-> & _).
Qed.

Lemma term_of_key_inj (k k' : Z) : term_of_key k = term_of_key k' -> k = k'.
Proof.
  intros H. apply (f_equal cycle_rank) in H.
  rewrite !cycle_rank_term_of_key in H. congruence.
Qed.

Lemma term_of_key_own (k : Z) :
  own_term (term (term_of_key k)) = true /\
  toLowerCase (term (term_of_key k)) = term (term_of_key k).
Proof.
  unfold term_of_key; simpl.
  assert (Hm : 0 <= k mod 4 <= 3) by (pose proof (Z.mod_pos_bound k 4); lia).
  apply small_index in Hm. destruct Hm as [E|[E|[E|E]]]; rewrite E; done.
Qed.

Lemma getTermCode_term_of_key (k : Z) :
  getTermCode (year (term_of_key k)) (term (term_of_key k)) =
  Normal (year (term_of_key k) +:+ code_of (term (term_of_key k))).
Proof.
  destruct (term_of_key_own k) as [Hown Hlow].
  pose proof (getTermCode_own (year (term_of_key k)) (term (term_of_key k))) as Hc.
  rewrite Hlow in Hc. by destruct (Hc Hown) as [-> _].
Qed.

(** X5: the list starts at the current term: the first planned term is the
    term of the current month in the current year. *)
Theorem planner_starts_at_current_term (currentYear currentMonth count : Z) :
  0 < count ->
  generateTermsToScrape currentYear currentMonth count !! 0%nat =
  Some (mkTerm (toString currentYear) (currentTermOf currentMonth)).
Proof.
  intros Hc. unfold generateTermsToScrape.
  rewrite (walk_terms_lookup _ 0) by (done || lia).
  f_equal. unfold walk_init, currentTermOf.
  destruct (currentMonth <=? 1); [reflexivity|].
  destruct (currentMonth <=? 5); [reflexivity|].
  destruct (currentMonth <=? 8); [reflexivity|].
  destruct (currentMonth <=? 12); reflexivity.
Qed.

Lemma planner_starts_at_current_term_witness :
  generateTermsToScrape 2026 1 2 !! 0%nat = Some (mkTerm "2026" "winter").
Proof. exact (planner_starts_at_current_term 2026 1 2 ltac:(lia)). Defined.

(** X6: asking for more terms only adds older ones: the plan for [n] terms is
    the beginning of the plan for [m >= n] terms. *)
Theorem planner_plans_extend (currentYear currentMonth n m : Z) :
  n <= m ->
  generateTermsToScrape currentYear currentMonth n
    `prefix_of` generateTermsToScrape currentYear currentMonth m.
Proof.
  intros Hnm. rewrite !planned_terms_as_keys.
  assert (Hle : (Z.to_nat n <= Z.to_nat m)%nat) by lia.
  replace (Z.to_nat m) with (Z.to_nat n + (Z.to_nat m - Z.to_nat n))%nat by lia.
  rewrite seq_app, fmap_app. by eexists.
Qed.

Lemma planner_plans_extend_witness :
  generateTermsToScrape 2025 3 2 `prefix_of` generateTermsToScrape 2025 3 6.
Proof. exact (planner_plans_extend 2025 3 2 6 ltac:(lia)). Defined.

(** X7: four planned terms make a year: the term four places further down the
    list has the same name and the year before. *)
Theorem planner_year_has_four_terms
    (currentYear currentMonth count : Z) (i : nat) (a b : Term) :
  generateTermsToScrape currentYear currentMonth count !! i = Some a ->
  generateTermsToScrape currentYear currentMonth count !! (i + 4)%nat = Some b ->
  term b = term a /\
  exists y, year a = toString y /\ year b = toString (y - 1).
Proof.
  intros Ha Hb.
  apply generateTermsToScrape_lookup in Ha as ->.
  apply generateTermsToScrape_lookup in Hb as ->.
  set (k := walk_key (walk_init currentYear currentMonth) - Z.of_nat i).
  replace (walk_key (walk_init currentYear currentMonth) - Z.of_nat (i + 4))
    with (k + (-1) * 4) by lia.
  unfold term_of_key; simpl.
  rewrite Z.div_add, Z.mod_add by lia.
  split; [done|]. exists (k / 4). split; [done|]. f_equal; lia.
Qed.

Lemma planner_year_has_four_terms_witness :
  term (mkTerm "2024" "spring") = term (mkTerm "2025" "spring").
Proof.
  refine (proj1 (planner_year_has_four_terms 2025 3 6 0
                   (mkTerm "2025" "spring") (mkTerm "2024" "spring") _ _));
    reflexivity.
Defined.

(** X8: every planned term has a term code, the year followed by the two digits
    of its name, and no two planned terms have the same code. *)
Theorem planned_terms_have_distinct_codes (currentYear currentMonth count : Z) :
  exists codes : list string,
    (fun t => getTermCode (year t) (term t))
      <$> generateTermsToScrape currentYear currentMonth count
    = Normal <$> codes /\
    codes = (fun t => year t +:+ code_of (term t))
              <$> generateTermsToScrape currentYear currentMonth count /\
    NoDup codes.
Proof.
  eexists. split; [|split; [reflexivity|]].
  - rewrite planned_terms_as_keys, <- !list_fmap_compose.
    apply list_fmap_ext. intros _ j _. unfold compose.
    apply getTermCode_term_of_key.
  - rewrite planned_terms_as_keys, <- list_fmap_compose.
    apply NoDup_fmap_2_strong; [|apply NoDup_seq].
    intros j j' _ _ E. unfold compose in E.
    set (k := walk_key (walk_init currentYear currentMonth) - Z.of_nat j) in *.
    set (k' := walk_key (walk_init currentYear currentMonth) - Z.of_nat j') in *.
    destruct (term_of_key_own k) as [Hown Hlow].
    destruct (term_of_key_own k') as [Hown' Hlow'].
    assert (Hlen : String.length (code_of (term (term_of_key k))) =
                   String.length (code_of (term (term_of_key k')))).
    { pose proof (getTermCode_own "" (term (term_of_key k))) as H1.
      pose proof (getTermCode_own "" (term (term_of_key k'))) as H2.
      rewrite Hlow in H1. rewrite Hlow' in H2.
      destruct (H1 Hown) as [_ ->]. by destruct (H2 Hown') as [_ ->]. }
    apply append_suffix_inj in E as [Ey Ec]; [|done].
    apply code_of_inj in Ec; [|done..].
    assert (Ek : term_of_key k = term_of_key k').
    { destruct (term_of_key k), (term_of_key k'). simpl in *. congruence. }
    apply term_of_key_inj in Ek. unfold k, k' in Ek. lia.
Qed.

(** X9: the display name of a planned term: the capitalised name and the year,
    except that the winter of year [y] is shown as spanning [y - 1] and
    [y]. *)
Theorem getTermName_of_planned_term
    (currentYear currentMonth count : Z) (i : nat) (t : Term) :
  generateTermsToScrape currentYear currentMonth count !! i = Some t ->
  exists y,
    year t = toString y /\
    (term t = "spring" /\ getTermName (year t) (term t) = "Spring " +:+ toString y \/
     term t = "summer" /\ getTermName (year t) (term t) = "Summer " +:+ toString y \/
     term t = "fall" /\ getTermName (year t) (term t) = "Fall " +:+ toString y \/
     term t = "winter" /\
       getTermName (year t) (term t) =
       "Winter " +:+ toString (y - 1) +:+ "-" +:+ toString y).
Proof.
  intros Ht. apply generateTermsToScrape_lookup in Ht as ->.
  set (k := walk_key (walk_init currentYear currentMonth) - Z.of_nat i).
  exists (k / 4). split; [done|].
  unfold term_of_key; simpl.
  assert (Hm : 0 <= k mod 4 <= 3) by (pose proof (Z.mod_pos_bound k 4); lia).
  apply small_index in Hm. destruct Hm as [E|[E|[E|E]]]; rewrite E.
  - left. done.
  - right. left. done.
  - right. right. left. done.
  - right. right. right. split; [done|].
    unfold getTermName.
    change (toLowerCase (termOrder_at 3) =? "winter")%string with true.
    cbv iota.
    rewrite parseInt_default_toString. reflexivity.
Qed.

Lemma getTermName_of_planned_term_witness :
  exists y, year (mkTerm "2024" "winter") = toString y /\
            getTermName "2024" "winter" = "Winter " +:+ toString (y - 1) +:+ "-" +:+ toString y.
Proof.
  destruct (getTermName_of_planned_term 2025 3 2 1 (mkTerm "2024" "winter")
              ltac:(reflexivity)) as (y & Hy & H).
  exists y. split; [exact Hy|].
  destruct H as [[H _]|[[H _]|[[H _]|[_ H]]]]; try discriminate H. exact H.
Defined.

End PlanFacts.

(** ** More on the pool run *)

Module RunFacts.
Import Utils Crawler PoolSpec TextSpec PoolFacts.

#[local] Set Warnings "-clear-no-such-hyp".

Section Facts.

Context {Raw Conv : Type}.
Variable convertCourse : Raw -> Conv.

Implicit Types (p : Pool (Raw:=Raw) (Conv:=Conv)) (s : Session) (c : CourseInfo).
Implicit Types (r : Result (Raw:=Raw)) (ys : list (Result (Raw:=Raw))).
Implicit Types (exec : list (CourseInfo * Stage (Raw:=Raw))).

(** *** The number of started tasks *)

Lemma start_queued_bound (z : Z) s (q : list CourseInfo) exec (tr : list Event) :
  (length exec < pool_limit z)%nat ->
  (length (start_queued (JInt z) s q exec tr).1.2 <= pool_limit z)%nat.
Proof.
  revert exec tr. induction q as [|c q IH]; intros exec tr Hlt; simpl; [lia|].
  destruct (Z.leb_spec z (Z.of_nat (length (exec ++ [(c, pool_callback s c)]))))
    as [Hge|Hlt'].
  - simpl. rewrite length_app. simpl. lia.
  - apply IH. rewrite length_app in *. simpl in *.
    unfold pool_limit in *. lia.
Qed.

Lemma resume_bound (z : Z) p :
  (length (executing p) < pool_limit z)%nat ->
  (length (executing (resume (Conv:=Conv) (JInt z) p)) <= pool_limit z)%nat.
Proof.
  intros Hlt. unfold resume.
  pose proof (start_queued_bound z (session p) (queue p) (executing p) (trace p) Hlt).
  by destruct (start_queued _ _ _ _ _) as [[q' exec'] tr'].
Qed.

Lemma step_bound (z : Z) p (t : Tick) :
  (length (executing p) <= pool_limit z)%nat ->
  (length (executing (step convertCourse (JInt z) p t)) <= pool_limit z)%nat.
Proof.
  intros Hle. unfold step. destruct (status p); [|done..].
  destruct t as [k|k reply|k];
    destruct (executing p !! k) as [[c [| |res]]|] eqn:Hk; try done.
  - cbn [executing]. by rewrite length_insert.
  - destruct (scrapeWithDelay_settle _ c reply) as [[s' res] log].
    cbn [executing]. by rewrite length_insert.
  - cbn [session queue executing tally yielded trace].
    pose proof (lookup_lt_Some _ _ _ Hk) as Hlt.
    assert (Hdel : (length (delete k (executing p)) < pool_limit z)%nat)
      by (rewrite length_delete by (by eexists); lia).
    destruct (abortRequested (session p)); cbn [executing]; [lia|].
    by apply resume_bound.
Qed.

(** X10: the pool never keeps more tasks started than the concurrency allows
    (at least one), whatever the order of events. *)
Theorem pool_keeps_within_concurrency
    (z : Z) s courses (sched : list Tick) :
  (length (executing (run_pool convertCourse (JInt z) s courses sched))
   <= pool_limit z)%nat.
Proof.
  unfold run_pool.
  assert (H0 : (length (executing (pool_start (Raw:=Raw) (Conv:=Conv)
                                     (JInt z) s courses)) <= pool_limit z)%nat).
  { apply resume_bound. simpl. unfold pool_limit. lia. }
  revert H0. generalize (pool_start (Raw:=Raw) (Conv:=Conv) (JInt z) s courses).
  induction sched as [|t sched IH]; intros p Hp; simpl; [done|].
  apply IH. by apply step_bound.
Qed.

Lemma start_queued_NaN s (q : list CourseInfo) exec (tr : list Event) :
  start_queued JNaN s q exec tr =
  ([], exec ++ ((fun c => (c, pool_callback (Raw:=Raw) s c)) <$> q),
   tr ++ (q ≫= fun c => sleep_events c (pool_callback (Raw:=Raw) s c))).
Proof.
  revert exec tr. induction q as [|c q IH]; intros exec tr; simpl.
  - by rewrite !app_nil_r.
  - rewrite IH. by rewrite <- !app_assoc.
Qed.

(** X11: a malformed [CONCURRENCY] removes the bound: the concurrency is [NaN],
    the comparison with the number of started tasks is never true, and the
    pool starts every course before it waits for the first result. *)
Theorem malformed_concurrency_starts_every_course
    (env : Env) (value : string) s courses :
  env !! "CONCURRENCY" = Some value ->
  has_int_prefix value = false ->
  abortRequested s = false ->
  let p := pool_start (Raw:=Raw) (Conv:=Conv)
             (CONCURRENCY (config_of_env env)) s courses in
  queue p = [] /\
  executing p = (fun c => (c, Sleeping)) <$> courses /\
  slept (trace p) = courses.
Proof.
  intros Hset Hbad Hs.
  assert (Hc : CONCURRENCY (config_of_env env) = JNaN).
  { unfold config_of_env, getIntConfig, parseInt_call; simpl. rewrite Hset.
    by apply ConfigFacts.parseInt_NaN_iff in Hbad as ->. }
  rewrite Hc. unfold pool_start, resume. rewrite start_queued_NaN.
  cbn [queue executing trace session app].
  assert (Hcb : forall c, pool_callback (Raw:=Raw) s c = Sleeping).
  { intros c. unfold pool_callback, scrapeWithDelay_start. by rewrite Hs. }
  split; [done|]. split.
  - apply list_fmap_ext. intros _ c _. by rewrite Hcb.
  - clear -Hcb. induction courses as [|c l IH]; [done|].
    rewrite bind_cons, slept_app, IH, Hcb. done.
Qed.

(** *** One request per course *)

Lemma requested_app (tr1 tr2 : list Event) :
  requested (tr1 ++ tr2) = requested tr1 ++ requested tr2.
Proof. apply omap_app. Qed.

Lemma requested_console (log : list LogLine) : requested (EvConsole <$> log) = [].
Proof. induction log; simpl; done. Qed.

Lemma requested_sleeps s (st : list CourseInfo) :
  requested (st ≫= fun c => sleep_events c (pool_callback (Raw:=Raw) s c)) = [].
Proof.
  induction st as [|c st IH]; [done|].
  rewrite bind_cons, requested_app, IH, app_nil_r.
  by destruct (pool_callback s c).
Qed.

Lemma sleepers_app exec1 exec2 :
  sleepers (exec1 ++ exec2) = sleepers exec1 ++ sleepers exec2.
Proof. apply omap_app. Qed.

Lemma sleepers_started s (st : list CourseInfo) :
  sleepers ((fun c => (c, pool_callback (Raw:=Raw) s c)) <$> st) ⊆+ st.
Proof.
  induction st as [|c st IH]; [done|].
  rewrite fmap_cons. unfold sleepers in *. simpl.
  destruct (pool_callback s c); simpl.
  - by apply submseteq_skip.
  - by apply submseteq_cons.
  - by apply submseteq_cons.
Qed.

Lemma sleepers_insert exec (k : nat) c (st st' : Stage (Raw:=Raw)) :
  exec !! k = Some (c, st) ->
  sleepers exec =
    sleepers (take k exec) ++ sleepers [(c, st)] ++ sleepers (drop (S k) exec) /\
  sleepers (<[k := (c, st')]> exec) =
    sleepers (take k exec) ++ sleepers [(c, st')] ++ sleepers (drop (S k) exec) /\
  sleepers (delete k exec) =
    sleepers (take k exec) ++ sleepers (drop (S k) exec).
Proof.
  intros Hk. pose proof (lookup_lt_Some _ _ _ Hk) as Hlt.
  rewrite <- !sleepers_app. split; [|split].
  - simpl. by rewrite take_drop_middle.
  - simpl. by rewrite insert_take_drop.
  - by rewrite delete_take_drop.
Qed.

Lemma resume_counted (concurrency : jsnum) s0 courses p :
  Counted s0 courses p -> Counted s0 courses (resume concurrency p).
Proof.
  intros [Hc Ht]. unfold resume.
  destruct (start_queued _ _ _ _ _) as [[q' exec'] tr'] eqn:Ha.
  apply start_queued_spec in Ha as (st & Hq & -> & ->).
  constructor; cbn [session executing queue trace].
  - rewrite requested_app, requested_sleeps, app_nil_r, sleepers_app.
    etrans; [|exact Hc]. rewrite Hq.
    apply submseteq_skips_l. rewrite <- app_assoc.
    apply submseteq_skips_l. apply submseteq_skips_r, sleepers_started.
  - by rewrite requested_app, requested_sleeps, app_nil_r.
Qed.

Lemma step_counted (concurrency : jsnum) s0 courses p (t : Tick) :
  Counted s0 courses p ->
  Counted s0 courses (step convertCourse concurrency p t).
Proof.
  intros HC. pose proof HC as [Hc Ht]. unfold step.
  destruct (status p); [|done..].
  destruct t as [k|k reply|k];
    destruct (executing p !! k) as [[c [| |res]]|] eqn:Hk; try done.
  - destruct (sleepers_insert _ k c Sleeping Fetching Hk) as (E1 & E2 & _).
    constructor; cbn [session executing queue trace scrapeWithDelay_wake totalRequests].
    + etrans; [|exact Hc]. rewrite requested_app, E1, E2. simpl.
      apply Permutation_submseteq.
      rewrite <- !app_assoc. apply Permutation_app_head. simpl.
      by rewrite Permutation_middle.
    + rewrite requested_app, length_app. simpl. lia.
  - destruct (sleepers_insert _ k c Fetching (Settled
                (scrapeWithDelay_settle (session p) c reply).1.2) Hk)
      as (E1 & E2 & _).
    destruct (scrapeWithDelay_settle (session p) c reply) as [[s' res] log] eqn:Hset.
    assert (Hreq : totalRequests s' = totalRequests (session p)).
    { revert Hset. unfold scrapeWithDelay_settle. destruct reply as [d|code].
      - by intros [= <- _ _].
      - repeat case_bool_decide; by intros [= <- _ _]. }
    constructor; cbn [session executing queue trace fst snd] in *.
    + rewrite requested_app, requested_console, app_nil_r, E2.
      by rewrite E1 in Hc.
    + by rewrite requested_app, requested_console, app_nil_r, Hreq.
  - destruct (sleepers_insert _ k c (Settled res) Sleeping Hk) as (E1 & _ & E3).
    cbn [session queue executing tally yielded trace].
    assert (HC1 : forall st,
              Counted s0 courses
                (mkPool (session p) (queue p) (delete k (executing p))
                   (aggregate convertCourse (tally p) res) st
                   (yielded p ++ [res]) (trace p))).
    { intros st. constructor; cbn [session executing queue trace]; [|done].
      rewrite E3. by rewrite E1 in Hc. }
    destruct (abortRequested (session p)); [apply HC1|].
    apply resume_counted, HC1.
Qed.

Lemma run_pool_counted (concurrency : jsnum) s courses (sched : list Tick) :
  Counted s courses (run_pool convertCourse concurrency s courses sched).
Proof.
  unfold run_pool.
  assert (H0 : Counted s courses
                 (pool_start (Raw:=Raw) (Conv:=Conv) concurrency s courses)).
  { apply resume_counted. constructor; simpl; [done|lia]. }
  revert H0. generalize (pool_start (Raw:=Raw) (Conv:=Conv) concurrency s courses).
  induction sched as [|t sched IH]; intros p Hp; simpl; [done|].
  apply IH. by apply step_counted.
Qed.

(** X12: there is no retry: whatever the order of events and the replies, the
    courses for which [scrapeCourse] is called are courses of the list,
    each at most as often as it is listed; [totalRequests] grows by
    exactly the number of calls, which is at most the number of courses. *)
Theorem every_course_is_requested_at_most_once
    (concurrency : jsnum) s courses (sched : list Tick) :
  let p := run_pool convertCourse concurrency s courses sched in
  requested (trace p) ⊆+ courses /\
  (NoDup courses -> NoDup (requested (trace p))) /\
  totalRequests (session p) =
    totalRequests s + Z.of_nat (length (requested (trace p))) /\
  totalRequests (session p) <= totalRequests s + Z.of_nat (length courses).
Proof.
  intros p.
  pose proof (run_pool_counted concurrency s courses sched) as [Hc Ht].
  fold p in Hc, Ht.
  assert (Hsub : requested (trace p) ⊆+ courses).
  { etrans; [|exact Hc]. by apply submseteq_inserts_r. }
  split; [done|]. split; [|split; [done|]].
  - intros Hnd. apply submseteq_Permutation in Hsub as [rest Hperm].
    rewrite Hperm in Hnd. by apply NoDup_app in Hnd as (? & _ & _).
  - apply submseteq_length in Hsub. lia.
Qed.

(** *** The counters do not steer the run *)

Lemma settle_agree s1 s2 c (reply : Reply (Raw:=Raw)) :
  abortRequested s1 = abortRequested s2 ->
  (scrapeWithDelay_settle s1 c reply).1.2 = (scrapeWithDelay_settle s2 c reply).1.2 /\
  abortRequested (scrapeWithDelay_settle s1 c reply).1.1 =
  abortRequested (scrapeWithDelay_settle s2 c reply).1.1.
Proof.
  intros Hf. unfold scrapeWithDelay_settle. destruct reply as [d|code]; [done|].
  repeat case_bool_decide; simpl; done.
Qed.

Lemma start_queued_agree (concurrency : jsnum) s1 s2 (q : list CourseInfo) exec
    (tr1 tr2 : list Event) :
  abortRequested s1 = abortRequested s2 ->
  exists q' exec' ext,
    start_queued concurrency s1 q exec tr1 = (q', exec', tr1 ++ ext) /\
    start_queued concurrency s2 q exec tr2 = (q', exec', tr2 ++ ext).
Proof.
  intros Hf.
  assert (Hcb : forall c, pool_callback (Raw:=Raw) s1 c = pool_callback s2 c).
  { intros c. unfold pool_callback, scrapeWithDelay_start. by rewrite Hf. }
  revert exec tr1 tr2. induction q as [|c q IH]; intros exec tr1 tr2; simpl.
  - exists [], exec, []. by rewrite !app_nil_r.
  - rewrite Hcb. destruct (size_ge _ _).
    + by eexists _, _, _.
    + destruct (IH (exec ++ [(c, pool_callback s2 c)])
                   (tr1 ++ sleep_events c (pool_callback (Raw:=Raw) s2 c))
                   (tr2 ++ sleep_events c (pool_callback (Raw:=Raw) s2 c)))
        as (q' & exec' & ext & E1 & E2).
      exists q', exec', (sleep_events c (pool_callback (Raw:=Raw) s2 c) ++ ext).
      by rewrite !app_assoc.
Qed.

Lemma resume_agree (concurrency : jsnum) p1 p2 :
  Agree p1 p2 -> Agree (resume concurrency p1) (resume concurrency p2).
Proof.
  intros [Hq He Ht Hst Hy Hf Hsl Hrq]. unfold resume.
  destruct (start_queued_agree concurrency (session p1) (session p2) (queue p1)
              (executing p1) (trace p1) (trace p2) Hf)
    as (q' & exec' & ext & E1 & E2).
  rewrite <- Hq, <- He, E1, E2.
  constructor; cbn [queue executing tally status yielded session trace]; try done.
  - by rewrite !slept_app, Hsl.
  - by rewrite !requested_app, Hrq.
Qed.

Lemma step_agree (concurrency : jsnum) p1 p2 (t : Tick) :
  Agree p1 p2 ->
  Agree (step convertCourse concurrency p1 t) (step convertCourse concurrency p2 t).
Proof.
  intros HA. pose proof HA as [Hq He Ht Hst Hy Hf Hsl Hrq]. unfold step.
  rewrite <- Hst, <- He. destruct (status p1); [|done..].
  destruct t as [k|k reply|k];
    destruct (executing p1 !! k) as [[c [| |res]]|] eqn:Hk; try done.
  - constructor; cbn [queue executing tally status yielded session trace]; try done.
    + by rewrite !slept_app, Hsl.
    + by rewrite !requested_app, Hrq.
  - destruct (settle_agree (session p1) (session p2) c reply Hf) as [Hres Hflag].
    destruct (scrapeWithDelay_settle (session p1) c reply) as [[s1' res1] log1].
    destruct (scrapeWithDelay_settle (session p2) c reply) as [[s2' res2] log2].
    simpl in Hres, Hflag. subst res2.
    constructor; cbn [queue executing tally status yielded session trace]; try done.
    + by rewrite !slept_app, !slept_console, Hsl.
    + by rewrite !requested_app, !requested_console, Hrq.
  - cbn [session queue executing tally yielded trace].
    rewrite <- Hq, <- Ht, <- Hy, <- Hf.
    destruct (abortRequested (session p1)) eqn:Hab.
    + constructor; cbn [queue executing tally status yielded session trace];
        congruence.
    + apply resume_agree.
      constructor; cbn [queue executing tally status yielded session trace];
        congruence.
Qed.

Lemma run_pool_agree (concurrency : jsnum) s1 s2 courses (sched : list Tick) :
  abortRequested s1 = abortRequested s2 ->
  Agree (run_pool convertCourse concurrency s1 courses sched)
        (run_pool convertCourse concurrency s2 courses sched).
Proof.
  intros Hf. unfold run_pool.
  assert (H0 : Agree (pool_start (Raw:=Raw) (Conv:=Conv) concurrency s1 courses)
                     (pool_start (Raw:=Raw) (Conv:=Conv) concurrency s2 courses)).
  { apply resume_agree. constructor; simpl; done. }
  revert H0.
  generalize (pool_start (Raw:=Raw) (Conv:=Conv) concurrency s1 courses).
  generalize (pool_start (Raw:=Raw) (Conv:=Conv) concurrency s2 courses).
  induction sched as [|t sched IH]; intros p2 p1 Hp; simpl; [done|].
  apply IH. by apply step_agree.
Qed.

(** X13: what a term writes, and whether the process goes on after it, depend on
    the term and on what the outside world does during it, not on the
    counters and files the earlier terms left behind. *)
Theorem term_outcome_ignores_earlier_terms
    (cfg : Config) (run1 run2 : Run (Conv:=Conv)) (t : Term) (w : TermWorld) :
  exists (ops : list FileOp) (entries : list (string * string * gmap string Conv))
         (fl : Flow),
    let out1 := process_term convertCourse cfg run1 t w in
    let out2 := process_term convertCourse cfg run2 t w in
    out1.2 = fl /\ out2.2 = fl /\
    disk out1.1 = disk run1 ++ ops /\ disk out2.1 = disk run2 ++ ops /\
    allTermData out1.1 = allTermData run1 ++ entries /\
    allTermData out2.1 = allTermData run2 ++ entries.
Proof.
  unfold process_term.
  destruct (discovered cfg t w) as [[termCode courses]|].
  2: { exists [], [], Continue. simpl. by rewrite !app_nil_r. }
  pose proof (run_pool_agree (CONCURRENCY cfg) (reset_for_term (vars run1))
                (reset_for_term (vars run2)) courses (schedule w) eq_refl)
    as [_ _ Ht Hst _ Hf _ _].
  rewrite <- Hst.
  destruct (status _) eqn:E.
  - exists [], [], (Stop Waiting). simpl. by rewrite !app_nil_r.
  - unfold after_pool, save_term. rewrite <- Hf, <- Ht.
    destruct (abortRequested _); [destruct (_ >? 0)|]; simpl;
      eexists _, _, _; repeat split; try reflexivity;
      by rewrite ?app_nil_r.
  - unfold after_pool, save_term. rewrite <- Hf, <- Ht.
    destruct (abortRequested _); [destruct (_ >? 0)|]; simpl;
      eexists _, _, _; repeat split; try reflexivity;
      by rewrite ?app_nil_r.
Qed.

(** *** Runs that are not aborted *)

Lemma settle_flag_was_clear s c (reply : Reply (Raw:=Raw)) :
  abortRequested (scrapeWithDelay_settle s c reply).1.1 = false ->
  abortRequested s = false.
Proof.
  intros H. destruct (abortRequested s) eqn:E; [|done].
  by rewrite (settle_keeps_abort s c reply E) in H.
Qed.

Lemma sleepers_cons c (st : Stage (Raw:=Raw)) exec :
  sleepers ((c, st) :: exec) =
  match st with
  | Sleeping => c :: sleepers exec
  | _ => sleepers exec
  end.
Proof. by destruct st. Qed.

Lemma sleepers_all_started s (st : list CourseInfo) :
  abortRequested s = false ->
  sleepers ((fun c => (c, pool_callback (Raw:=Raw) s c)) <$> st) = st.
Proof.
  intros Hs. induction st as [|c st IH]; [done|].
  rewrite fmap_cons, sleepers_cons, IH.
  unfold pool_callback, scrapeWithDelay_start. by rewrite Hs.
Qed.

Lemma resume_full (concurrency : jsnum) courses p :
  Full courses p -> Full courses (resume concurrency p).
Proof.
  intros HF. unfold resume, Full.
  destruct (start_queued _ _ _ _ _) as [[q' exec'] tr'] eqn:Ha.
  apply start_queued_spec in Ha as (st & Hq & -> & ->).
  cbn [session executing queue trace]. intros Hs.
  rewrite requested_app, requested_sleeps, app_nil_r, sleepers_app.
  rewrite sleepers_all_started by done.
  rewrite <- (HF Hs), Hq. by rewrite <- !app_assoc.
Qed.

Lemma step_full (concurrency : jsnum) courses p (t : Tick) :
  Full courses p -> Full courses (step convertCourse concurrency p t).
Proof.
  intros HF. unfold step.
  destruct (status p); [|done..].
  destruct t as [k|k reply|k];
    destruct (executing p !! k) as [[c [| |res]]|] eqn:Hk; try done.
  - destruct (sleepers_insert _ k c Sleeping Fetching Hk) as (E1 & E2 & _).
    intros Hs. cbn [session executing queue trace scrapeWithDelay_wake abortRequested] in *.
    rewrite <- (HF Hs), requested_app, E1, E2. simpl.
    rewrite <- !app_assoc. apply Permutation_app_head. simpl.
    by rewrite Permutation_middle.
  - destruct (sleepers_insert _ k c Fetching (Settled
                (scrapeWithDelay_settle (session p) c reply).1.2) Hk)
      as (E1 & E2 & _).
    pose proof (settle_flag_was_clear (session p) c reply) as Hclear.
    destruct (scrapeWithDelay_settle (session p) c reply) as [[s' res] log].
    intros Hs. cbn [session executing queue trace fst snd] in *.
    rewrite requested_app, requested_console, app_nil_r, E2.
    rewrite <- (HF (Hclear Hs)), E1. done.
  - destruct (sleepers_insert _ k c (Settled res) Sleeping Hk) as (E1 & _ & E3).
    cbn [session queue executing tally yielded trace].
    assert (HF1 : forall st,
              Full courses
                (mkPool (session p) (queue p) (delete k (executing p))
                   (aggregate convertCourse (tally p) res) st
                   (yielded p ++ [res]) (trace p))).
    { intros st Hs. cbn [session executing queue trace] in *.
      rewrite E3, <- (HF Hs), E1. done. }
    destruct (abortRequested (session p)); [apply HF1|].
    apply resume_full, HF1.
Qed.

Lemma run_pool_full (concurrency : jsnum) s courses (sched : list Tick) :
  Full courses (run_pool convertCourse concurrency s courses sched).
Proof.
  unfold run_pool.
  assert (H0 : Full courses
                 (pool_start (Raw:=Raw) (Conv:=Conv) concurrency s courses)).
  { apply resume_full. intros _. simpl. done. }
  revert H0. generalize (pool_start (Raw:=Raw) (Conv:=Conv) concurrency s courses).
  induction sched as [|t sched IH]; intros p Hp; simpl; [done|].
  apply IH. by apply step_full.
Qed.

Lemma step_calm (concurrency : jsnum) p (t : Tick) :
  Calm p -> Calm (step convertCourse concurrency p t).
Proof.
  intros HC. unfold step.
  destruct (status p) eqn:Hst; [|done..].
  destruct t as [k|k reply|k];
    destruct (executing p !! k) as [[c [| |res]]|] eqn:Hk; try done.
  - destruct (scrapeWithDelay_settle (session p) c reply) as [[s' res] log].
    done.
  - cbn [session queue executing tally yielded trace].
    destruct (abortRequested (session p)) eqn:Hab; [done|].
    intros _.
    by destruct (resume_fields concurrency
                   (mkPool (session p) (queue p) (delete k (executing p))
                      (aggregate convertCourse (tally p) res) Draining
                      (yielded p ++ [res]) (trace p))) as (-> & _).
Qed.

Lemma run_pool_calm (concurrency : jsnum) s courses (sched : list Tick) :
  abortRequested s = false ->
  Calm (run_pool convertCourse concurrency s courses sched).
Proof.
  intros Hs. unfold run_pool.
  assert (H0 : Calm (pool_start (Raw:=Raw) (Conv:=Conv) concurrency s courses)).
  { intros _. unfold pool_start.
    by destruct (resume_fields concurrency
                   (mkPool (Raw:=Raw) (Conv:=Conv) s courses [] tally0 Draining [] []))
      as (-> & _). }
  revert H0. generalize (pool_start (Raw:=Raw) (Conv:=Conv) concurrency s courses).
  induction sched as [|t sched IH]; intros p Hp; simpl; [done|].
  apply IH. by apply step_calm.
Qed.

(** X14: when the pool is exhausted every course has been requested exactly
    once and its result handed to the loop exactly once: [completed] is the
    number of courses, each is counted as a success or as a failure,
    [totalRequests] has grown by the number of courses, and the flag is
    still clear. *)
Theorem exhausted_pool_processed_every_course
    (concurrency : jsnum) s courses (sched : list Tick) :
  abortRequested s = false ->
  let p := run_pool convertCourse concurrency s courses sched in
  status p = Exhausted ->
  abortRequested (session p) = false /\
  course <$> yielded p ≡ₚ courses /\
  requested (trace p) ≡ₚ courses /\
  completed (tally p) = Z.of_nat (length courses) /\
  successCount (tally p) + failureCount (tally p) = Z.of_nat (length courses) /\
  totalRequests (session p) = totalRequests s + Z.of_nat (length courses).
Proof.
  intros Hs p Hex.
  pose proof (run_pool_calm concurrency s courses sched Hs Hex) as Hclear.
  pose proof (run_pool_inv convertCourse concurrency s courses sched)
    as [Ht Hp _ _ Hend].
  pose proof (run_pool_full concurrency s courses sched Hclear) as Hfull.
  pose proof (run_pool_counted concurrency s courses sched) as [_ Htot].
  fold p in Hclear, Ht, Hp, Hend, Hfull, Htot.
  destruct (Hend Hex) as [He Hq]. rewrite He, Hq in Hp, Hfull.
  simpl in Hp, Hfull. rewrite app_nil_r in Hp, Hfull.
  pose proof (aggregate_fold_counts convertCourse (yielded p) tally0)
    as (Hc & Hsc & Hfc & _).
  simpl in Hc, Hsc, Hfc. rewrite <- Ht in Hc, Hsc, Hfc.
  assert (Hlen : length (yielded p) = length courses)
    by (rewrite <- Hp; by rewrite length_fmap).
  assert (Hlen' : length (requested (trace p)) = length courses)
    by (by rewrite <- Hfull).
  repeat split; try done; lia.
Qed.

(** *** Only a 403 reply aborts *)

Lemma settle_not_403 s c (reply : Reply (Raw:=Raw)) :
  not_403 reply ->
  abortRequested (scrapeWithDelay_settle s c reply).1.1 = abortRequested s /\
  forbidden403Count (scrapeWithDelay_settle s c reply).1.1 = forbidden403Count s.
Proof.
  unfold not_403, scrapeWithDelay_settle. destruct reply as [d|code]; [done|].
  intros Hne. case_bool_decide as H403; [by subst code|].
  case_bool_decide; done.
Qed.

(** X15: with the flag clear at the start and no request answered 403, whatever
    else the replies are (429, other errors, empty payloads), the flag
    stays clear, the count of 403 replies stays as it was and the loop is
    not left through [break]. *)
Theorem only_403_aborts
    (concurrency : jsnum) s courses (sched : list Tick) :
  abortRequested s = false ->
  no_403 sched ->
  let p := run_pool convertCourse concurrency s courses sched in
  abortRequested (session p) = false /\
  forbidden403Count (session p) = forbidden403Count s /\
  status p <> Broke.
Proof.
  intros Hs Hno. unfold run_pool.
  assert (H0 : let p := pool_start (Raw:=Raw) (Conv:=Conv) concurrency s courses in
               abortRequested (session p) = false /\
               forbidden403Count (session p) = forbidden403Count s /\
               status p <> Broke).
  { simpl. unfold pool_start.
    destruct (resume_fields concurrency
                (mkPool (Raw:=Raw) (Conv:=Conv) s courses [] tally0 Draining [] []))
      as (-> & _ & _ & Hb & _). done. }
  revert H0. generalize (pool_start (Raw:=Raw) (Conv:=Conv) concurrency s courses).
  induction Hno as [|t sched Ht Hno IH]; intros p Hp; simpl; [done|].
  apply IH. destruct Hp as (Hf & Hc & Hb). simpl. unfold step.
  destruct (status p) eqn:Hst; [|repeat split; congruence..].
  destruct t as [k|k reply|k];
    destruct (executing p !! k) as [[c [| |res]]|] eqn:Hk;
    try (repeat split; congruence).
  - simpl. repeat split; congruence.
  - destruct (settle_not_403 (session p) c reply Ht) as [Hf' Hc'].
    destruct (scrapeWithDelay_settle (session p) c reply) as [[s' res] log].
    simpl in *. repeat split; congruence.
  - cbn [session queue executing tally yielded trace]. rewrite Hf.
    match goal with |- context [resume concurrency ?q] =>
      destruct (resume_fields concurrency q) as (-> & _ & _ & Hb' & _) end.
    done.
Qed.

(** *** The course map *)

Lemma aggregate_keeps_other_keys ys (t : Tally (Conv:=Conv)) (key : string) :
  (forall r, r ∈ ys -> is_Some (stored r) -> courseKey (course r) <> key) ->
  coursesMap (fold_left (aggregate convertCourse) ys t) !! key =
  coursesMap t !! key.
Proof.
  revert t. induction ys as [|r ys IH]; intros t Hys; [done|].
  cbn [fold_left]. rewrite IH by (intros r' Hr'; apply Hys; by right).
  unfold aggregate. destruct (stored r) as [d|] eqn:Hst; [|done].
  cbn [coursesMap]. apply lookup_insert_ne, Hys; [by left | by eexists].
Qed.

(** X17: the course map holds, under the key of a course, the converted payload
    of the last successful result handed to the loop for that key: a later
    result for the same key replaces an earlier one. *)
Theorem later_result_replaces_earlier
    (concurrency : jsnum) s courses (sched : list Tick)
    ys1 r ys2 (payload : Raw) :
  let p := run_pool convertCourse concurrency s courses sched in
  yielded p = ys1 ++ r :: ys2 ->
  stored r = Some payload ->
  (forall r', r' ∈ ys2 -> is_Some (stored r') ->
     courseKey (course r') <> courseKey (course r)) ->
  coursesMap (tally p) !! courseKey (course r) = Some (convertCourse payload).
Proof.
  intros p Hy Hst Hlast.
  pose proof (run_pool_inv convertCourse concurrency s courses sched) as [Ht _ _ _ _].
  fold p in Ht. rewrite Ht, Hy, fold_left_app. cbn [fold_left].
  rewrite aggregate_keeps_other_keys by done.
  unfold aggregate. rewrite Hst. cbn [coursesMap]. apply lookup_insert_eq.
Qed.

(** *** The console *)

Lemma console_app (tr1 tr2 : list Event) :
  console (tr1 ++ tr2) = console tr1 ++ console tr2.
Proof. apply omap_app. Qed.

Lemma console_lines (log : list LogLine) : console (EvConsole <$> log) = log.
Proof.
  induction log as [|l log IH]; [done|]. rewrite fmap_cons.
  change (console (EvConsole l :: (EvConsole <$> log)))
    with (l :: console (EvConsole <$> log)).
  by rewrite IH.
Qed.

Lemma console_sleeps s (st : list CourseInfo) :
  console (st ≫= fun c => sleep_events c (pool_callback (Raw:=Raw) s c)) = [].
Proof.
  induction st as [|c st IH]; [done|].
  rewrite bind_cons, console_app, IH, app_nil_r.
  by destruct (pool_callback s c).
Qed.

Lemma after_block_app (ls extra : list LogLine) :
  after_block (ls ++ extra) =
  match forbidden ls with
  | [] => after_block extra
  | _ => after_block ls ++ extra
  end.
Proof.
  induction ls as [|l ls IH]; [done|].
  destruct l; simpl; try done.
Qed.

Lemma after_block_none (ls : list LogLine) : forbidden ls = [] -> after_block ls = [].
Proof.
  induction ls as [|l ls IH]; [done|]. destruct l; simpl; try done.
Qed.

Lemma loggedat_same s0 s s' ls :
  rateLimitCount s' = rateLimitCount s ->
  forbidden403Count s' = forbidden403Count s ->
  abortRequested s' = abortRequested s ->
  LoggedAt s0 s ls -> LoggedAt s0 s' ls.
Proof.
  intros E1 E2 E3 [H1 H2 H3 H4 H5].
  constructor; rewrite ?E1, ?E2, ?E3; done.
Qed.

Lemma loggedat_settle s0 s ls c (reply : Reply (Raw:=Raw)) :
  LoggedAt s0 s ls ->
  let out := scrapeWithDelay_settle s c reply in
  LoggedAt s0 out.1.1 (ls ++ out.2).
Proof.
  intros [H1 H2 H3 H4 H5]. unfold scrapeWithDelay_settle.
  destruct reply as [d|code].
  { simpl. rewrite app_nil_r. by constructor. }
  case_bool_decide as H403; [|case_bool_decide as H429].
  - simpl. constructor; cbn [rateLimitCount forbidden403Count abortRequested].
    + unfold rate_limited. rewrite omap_app. simpl. by rewrite app_nil_r.
    + unfold forbidden. rewrite omap_app, length_app. simpl. fold (forbidden ls). lia.
    + unfold forbidden. rewrite omap_app. simpl. by destruct (omap _ ls).
    + intros n Hn. apply elem_of_app in Hn as [Hn|Hn]; [by apply H4|].
      apply elem_of_cons in Hn as [Hn|Hn]; [done|].
      apply list_elem_of_singleton in Hn. done.
    + intros Hs0 c' Hin. rewrite after_block_app in Hin.
      destruct (forbidden ls) eqn:Ef.
      * simpl in Hin. by apply list_elem_of_singleton in Hin.
      * apply elem_of_app in Hin as [Hin|Hin]; [by apply (H5 Hs0 c')|].
        apply elem_of_cons in Hin as [Hin|Hin]; [done|].
        by apply list_elem_of_singleton in Hin.
  - cbn [fst snd rateLimitCount forbidden403Count abortRequested].
    set (n := rateLimitCount s + 1).
    set (warn := if n >? 5 then [LogExcessiveRateLimiting n] else []).
    set (fail := if negb (abortRequested s) then [LogFailedToScrape c] else []).
    assert (Er : rate_limited ((LogRateLimited c :: warn) ++ fail) = [c]).
    { unfold warn, fail. by destruct (n >? 5), (abortRequested s). }
    assert (Ef : forbidden ((LogRateLimited c :: warn) ++ fail) = []).
    { unfold warn, fail. by destruct (n >? 5), (abortRequested s). }
    constructor.
    + unfold rate_limited in *. rewrite omap_app, length_app, Er. simpl. lia.
    + unfold forbidden in *. by rewrite omap_app, length_app, Ef, Nat.add_0_r.
    + unfold forbidden in *. by rewrite omap_app, Ef, app_nil_r.
    + intros m Hm. apply elem_of_app in Hm as [Hm|Hm].
      { specialize (H4 m Hm). simpl. lia. }
      apply elem_of_app in Hm as [Hm|Hm].
      * apply elem_of_cons in Hm as [Hm|Hm]; [done|].
        unfold warn in Hm. destruct (Z.gtb_spec n 5) as [Hgt|Hle].
        -- apply list_elem_of_singleton in Hm as [= ->]. simpl. unfold n in *. lia.
        -- by apply elem_of_nil in Hm.
      * unfold fail in Hm. destruct (negb _).
        -- by apply list_elem_of_singleton in Hm.
        -- by apply elem_of_nil in Hm.
    + intros Hs0 c' Hin. rewrite after_block_app in Hin.
      rewrite Hs0 in H3. destruct (forbidden ls) eqn:Efl.
      * rewrite after_block_none in Hin by done. by apply elem_of_nil in Hin.
      * apply elem_of_app in Hin as [Hin|Hin]; [by apply (H5 Hs0 c')|].
        unfold fail in Hin. rewrite H3 in Hin. simpl in Hin.
        rewrite app_nil_r in Hin.
        apply elem_of_cons in Hin as [Hin|Hin]; [done|].
        unfold warn in Hin. destruct (n >? 5).
        -- by apply list_elem_of_singleton in Hin.
        -- by apply elem_of_nil in Hin.
  - cbn [fst snd app].
    set (fail := if negb (abortRequested s) then [LogFailedToScrape c] else []).
    assert (Er : rate_limited fail = [])
      by (unfold fail; by destruct (abortRequested s)).
    assert (Ef : forbidden fail = [])
      by (unfold fail; by destruct (abortRequested s)).
    constructor.
    + unfold rate_limited in *. by rewrite omap_app, Er, app_nil_r.
    + unfold forbidden in *. by rewrite omap_app, Ef, app_nil_r.
    + unfold forbidden in *. by rewrite omap_app, Ef, app_nil_r.
    + intros m Hm. apply elem_of_app in Hm as [Hm|Hm]; [by apply H4|].
      unfold fail in Hm. destruct (negb _).
      * by apply list_elem_of_singleton in Hm.
      * by apply elem_of_nil in Hm.
    + intros Hs0 c' Hin. rewrite after_block_app in Hin.
      rewrite Hs0 in H3. destruct (forbidden ls) eqn:Efl.
      * rewrite after_block_none in Hin by done. by apply elem_of_nil in Hin.
      * apply elem_of_app in Hin as [Hin|Hin]; [by apply (H5 Hs0 c')|].
        unfold fail in Hin. rewrite H3 in Hin. by apply elem_of_nil in Hin.
Qed.

Lemma resume_logged (concurrency : jsnum) s0 p :
  Logged s0 p -> Logged s0 (resume concurrency p).
Proof.
  unfold Logged. intros HL. unfold resume.
  destruct (start_queued _ _ _ _ _) as [[q' exec'] tr'] eqn:Ha.
  apply start_queued_spec in Ha as (st & Hq & -> & ->).
  cbn [session trace]. by rewrite console_app, console_sleeps, app_nil_r.
Qed.

Lemma step_logged (concurrency : jsnum) s0 p (t : Tick) :
  Logged s0 p -> Logged s0 (step convertCourse concurrency p t).
Proof.
  intros HL. unfold step.
  destruct (status p); [|done..].
  destruct t as [k|k reply|k];
    destruct (executing p !! k) as [[c [| |res]]|] eqn:Hk; try done.
  - unfold Logged. cbn [session trace].
    rewrite console_app. simpl. rewrite app_nil_r.
    by apply (loggedat_same s0 (session p)).
  - pose proof (loggedat_settle s0 (session p) _ c reply HL) as HL'.
    destruct (scrapeWithDelay_settle (session p) c reply) as [[s' res] log].
    unfold Logged. cbn [session trace fst snd] in *.
    by rewrite console_app, console_lines.
  - cbn [session]. destruct (abortRequested (session p)); [done|].
    by apply resume_logged.
Qed.

Lemma run_pool_logged (concurrency : jsnum) s courses (sched : list Tick) :
  Logged s (run_pool convertCourse concurrency s courses sched).
Proof.
  unfold run_pool.
  assert (H0 : Logged s (pool_start (Raw:=Raw) (Conv:=Conv) concurrency s courses)).
  { apply resume_logged. unfold Logged. simpl.
    constructor; simpl; try done; try lia.
    - intros n Hn. by apply elem_of_nil in Hn.
    - intros _ c Hc. by apply elem_of_nil in Hc. }
  revert H0. generalize (pool_start (Raw:=Raw) (Conv:=Conv) concurrency s courses).
  induction sched as [|t sched IH]; intros p Hp; simpl; [done|].
  apply IH. by apply step_logged.
Qed.

(** X18: the console tells the counters: whatever the order of events and the
    replies, [rateLimitCount] has grown by the number of rate-limit lines
    and [forbidden403Count] by the number of 403 lines; the flag is set
    exactly if it was set at the start or a 403 line was written; and every
    warning about excessive rate limiting names a count above 5 that the
    counter has reached. *)
Theorem console_accounts_for_the_counters
    (concurrency : jsnum) s courses (sched : list Tick) :
  let p := run_pool convertCourse concurrency s courses sched in
  let ls := console (trace p) in
  rateLimitCount (session p) =
    rateLimitCount s + Z.of_nat (length (rate_limited ls)) /\
  forbidden403Count (session p) =
    forbidden403Count s + Z.of_nat (length (forbidden ls)) /\
  (abortRequested (session p) = true <->
   abortRequested s = true \/ forbidden ls <> []) /\
  (forall n, LogExcessiveRateLimiting n ∈ ls -> 5 < n <= rateLimitCount (session p)).
Proof.
  intros p ls.
  destruct (run_pool_logged concurrency s courses sched) as [H1 H2 H3 H4 _].
  fold p in H1, H2, H3, H4. fold ls in H1, H2, H3, H4.
  repeat split; try done.
  - intros Hab. rewrite H3 in Hab. destruct (forbidden ls); [by left|by right].
  - intros [Hs|Hf]; rewrite H3; [|by destruct (forbidden ls)].
    by destruct (forbidden ls).
  - by apply H4.
  - by apply H4.
Qed.

(** X19: "Don't spam errors if we're aborting": in a pool started with the flag
    clear, no failure line is written after the first 403 line, whatever
    replies arrive afterwards. *)
Theorem no_failure_line_after_a_block
    (concurrency : jsnum) s courses (sched : list Tick) :
  abortRequested s = false ->
  forall c,
    LogFailedToScrape c ∉
      after_block (console (trace (run_pool convertCourse concurrency s courses sched))).
Proof.
  intros Hs c.
  destruct (run_pool_logged concurrency s courses sched) as [_ _ _ _ H5].
  exact (H5 Hs c).
Qed.

(** *** How many 403 replies a run can count *)

Lemma unsettled_app exec1 exec2 :
  unsettled (exec1 ++ exec2) = unsettled exec1 ++ unsettled exec2.
Proof. apply omap_app. Qed.

Lemma unsettled_length exec : (length (unsettled exec) <= length exec)%nat.
Proof.
  induction exec as [|[c st] exec IH]; [done|].
  change ((c, st) :: exec) with ([(c, st)] ++ exec).
  rewrite unsettled_app, !length_app. destruct st; simpl; lia.
Qed.

Lemma unsettled_insert exec (k : nat) c (st st' : Stage (Raw:=Raw)) :
  exec !! k = Some (c, st) ->
  unsettled exec =
    unsettled (take k exec) ++ unsettled [(c, st)] ++ unsettled (drop (S k) exec) /\
  unsettled (<[k := (c, st')]> exec) =
    unsettled (take k exec) ++ unsettled [(c, st')] ++ unsettled (drop (S k) exec) /\
  unsettled (delete k exec) =
    unsettled (take k exec) ++ unsettled (drop (S k) exec).
Proof.
  intros Hk. pose proof (lookup_lt_Some _ _ _ Hk) as Hlt.
  rewrite <- !unsettled_app. split; [|split].
  - simpl. by rewrite take_drop_middle.
  - simpl. by rewrite insert_take_drop.
  - by rewrite delete_take_drop.
Qed.

Lemma resume_fits (z : Z) s0 p :
  abortRequested (session p) = false ->
  (length (executing p) < pool_limit z)%nat ->
  forbidden403Count (session p) = forbidden403Count s0 ->
  Fits (pool_limit z) s0 (resume (JInt z) p).
Proof.
  intros Hab Hlt Hc.
  pose proof (resume_bound z p Hlt) as Hb.
  destruct (resume_fields (JInt z) p) as (Hs & _).
  pose proof (unsettled_length (executing (resume (JInt z) p))) as Hu.
  constructor; rewrite ?Hs; try done; lia.
Qed.

Lemma step_fits (z : Z) s0 p (t : Tick) :
  Fits (pool_limit z) s0 p ->
  Fits (pool_limit z) s0 (step convertCourse (JInt z) p t).
Proof.
  intros HF. pose proof HF as [Hb Hg Hcl Hr]. unfold step.
  destruct (status p); [|done..].
  destruct t as [k|k reply|k];
    destruct (executing p !! k) as [[c [| |res]]|] eqn:Hk; try done.
  - destruct (unsettled_insert _ k c Sleeping Fetching Hk) as (E1 & E2 & _).
    constructor; cbn [session executing scrapeWithDelay_wake
                      forbidden403Count abortRequested]; try done.
    + by rewrite length_insert.
    + rewrite E2. rewrite E1 in Hr. simpl in *. done.
  - destruct (unsettled_insert _ k c Fetching
                (Settled (scrapeWithDelay_settle (session p) c reply).1.2) Hk)
      as (E1 & E2 & _).
    rewrite E1 in Hr. rewrite !length_app in Hr. simpl in Hr.
    assert (Hset :
      let s' := (scrapeWithDelay_settle (session p) c reply).1.1 in
      forbidden403Count (session p) <= forbidden403Count s' <=
        forbidden403Count (session p) + 1 /\
      (abortRequested s' = false ->
       abortRequested (session p) = false /\
       forbidden403Count s' = forbidden403Count (session p))).
    { unfold scrapeWithDelay_settle. destruct reply as [d|code]; simpl.
      - split; [lia|done].
      - repeat case_bool_decide; simpl; split; try lia; done. }
    destruct (scrapeWithDelay_settle (session p) c reply) as [[s' res] log].
    cbn [fst snd] in *. destruct Hset as [Hcount Hflag].
    constructor; cbn [session executing].
    + by rewrite length_insert.
    + lia.
    + intros Hab. destruct (Hflag Hab) as [Hab' ->]. by apply Hcl.
    + rewrite E2, !length_app. simpl. lia.
  - destruct (unsettled_insert _ k c (Settled res) Sleeping Hk) as (E1 & _ & E3).
    rewrite E1 in Hr. simpl in Hr.
    pose proof (lookup_lt_Some _ _ _ Hk) as Hlt.
    assert (Hdel : (length (delete k (executing p)) < pool_limit z)%nat)
      by (rewrite length_delete by (by eexists); lia).
    cbn [session queue executing tally yielded trace].
    destruct (abortRequested (session p)) eqn:Hab.
    + constructor; cbn [session executing].
      * lia.
      * done.
      * intros H. congruence.
      * rewrite E3. rewrite !length_app in *. simpl in Hr. lia.
    + apply resume_fits; cbn [session executing]; try done. by apply Hcl.
Qed.

Lemma run_pool_fits (z : Z) s courses (sched : list Tick) :
  Fits (pool_limit z) s (run_pool convertCourse (JInt z) s courses sched).
Proof.
  unfold run_pool.
  assert (H0 : Fits (pool_limit z) s
                 (pool_start (Raw:=Raw) (Conv:=Conv) (JInt z) s courses)).
  { unfold pool_start.
    pose proof (resume_bound z
      (mkPool (Raw:=Raw) (Conv:=Conv) s courses [] tally0 Draining [] [])) as Hb.
    destruct (resume_fields (JInt z)
      (mkPool (Raw:=Raw) (Conv:=Conv) s courses [] tally0 Draining [] []))
      as (Hs & _).
    pose proof (unsettled_length (executing (resume (JInt z)
      (mkPool (Raw:=Raw) (Conv:=Conv) s courses [] tally0 Draining [] [])))) as Hu.
    assert (Hlim : (0 < pool_limit z)%nat) by (unfold pool_limit; lia).
    specialize (Hb Hlim).
    constructor; rewrite ?Hs; simpl; try done; lia. }
  revert H0. generalize (pool_start (Raw:=Raw) (Conv:=Conv) (JInt z) s courses).
  induction sched as [|t sched IH]; intros p Hp; simpl; [done|].
  apply IH. by apply step_fits.
Qed.

(** X16: a pool run started with the flag clear counts no more 403 replies
    than the pool keeps tasks started (the concurrency, at least one),
    whatever the order of events: after the first 403 only the requests of
    tasks already started can still be answered.  The flag is set exactly
    when the count has grown, and a loop left through [break] has it set. *)
Theorem blocks_fit_in_the_pool
    (z : Z) s courses (sched : list Tick) :
  abortRequested s = false ->
  let p := run_pool convertCourse (JInt z) s courses sched in
  forbidden403Count s <= forbidden403Count (session p)
    <= forbidden403Count s + Z.of_nat (pool_limit z) /\
  (abortRequested (session p) = true <->
   forbidden403Count s < forbidden403Count (session p)) /\
  (status p = Broke -> abortRequested (session p) = true).
Proof.
  intros Hs p.
  destruct (run_pool_fits z s courses sched) as [_ Hg _ Hr].
  destruct (run_pool_logged (JInt z) s courses sched) as [_ H403 Hflag _ _].
  pose proof (run_pool_inv convertCourse (JInt z) s courses sched)
    as [_ _ _ Hbroke _].
  fold p in Hg, Hr, H403, Hflag, Hbroke.
  split; [lia|]. split; [|exact Hbroke].
  rewrite Hflag, Hs, H403.
  destruct (forbidden (console (trace p))); simpl; split; (done || lia).
Qed.

(** ** Discovery and the loop over the terms *)

Implicit Types (run : Run (Conv:=Conv)) (w : TermWorld (Raw:=Raw)).

Lemma slice0_nil {A} (n : jsnum) : slice0 (@nil A) n = [].
Proof. destruct n as [|z]; [done|]. simpl. destruct (z <? 0); apply take_nil. Qed.

Lemma discover_all (cap : option jsnum)
    (courseList : string -> completion (list CourseInfo))
    (lists : string -> list CourseInfo) (subjects : list string)
    (acc : list CourseInfo) :
  (forall subj, subj ∈ subjects -> courseList subj = Normal (lists subj)) ->
  discover cap courseList subjects acc =
  Normal (acc ++ (subjects ≫= fun subj =>
                    match cap with
                    | Some n => slice0 (lists subj) n
                    | None => lists subj
                    end)).
Proof.
  revert acc. induction subjects as [|subj rest IH]; intros acc Hall.
  - simpl. by rewrite app_nil_r.
  - cbn [discover]. rewrite Hall by (by left).
    rewrite IH by (intros x Hx; apply Hall; by right).
    rewrite bind_cons, app_assoc. do 3 f_equal.
    destruct cap as [n|]; [|done].
    destruct (lists subj) as [|c l]; [by rewrite slice0_nil|done].
Qed.

(** X20: without a cap the discovered courses are the course lists of the
    subjects, one after the other in the order of the subjects. *)
Theorem discover_concatenates_course_lists
    (courseList : string -> completion (list CourseInfo))
    (lists : string -> list CourseInfo) (subjects : list string) :
  (forall subj, subj ∈ subjects -> courseList subj = Normal (lists subj)) ->
  discover None courseList subjects [] = Normal (subjects ≫= lists) /\
  length (subjects ≫= lists) = sum_list ((fun subj => length (lists subj)) <$> subjects).
Proof.
  intros Hall. split; [by rewrite (discover_all None _ lists)|].
  clear. induction subjects as [|subj rest IH]; [done|].
  rewrite bind_cons, length_app, IH. done.
Qed.

(** X21: with a cap [n >= 0] each subject contributes its first [n] courses, in
    their order, and all of them when it has fewer; at most [n] courses per
    subject are discovered. *)
Theorem discover_takes_first_courses_of_each_subject
    (n : Z) (courseList : string -> completion (list CourseInfo))
    (lists : string -> list CourseInfo) (subjects : list string) :
  0 <= n ->
  (forall subj, subj ∈ subjects -> courseList subj = Normal (lists subj)) ->
  exists found,
    discover (Some (JInt n)) courseList subjects [] = Normal found /\
    found = subjects ≫= (fun subj => take (Z.to_nat n) (lists subj)) /\
    (length found <= Z.to_nat n * length subjects)%nat.
Proof.
  intros Hn Hall. eexists. split; [|split; [reflexivity|]].
  - rewrite (discover_all _ _ lists) by done. simpl. f_equal.
    apply list_bind_ext; [|done]. intros subj. simpl.
    destruct (Z.ltb_spec n 0); [lia|done].
  - clear. induction subjects as [|subj rest IH]; [simpl; lia|].
    rewrite bind_cons, length_app, length_take. simpl. lia.
Qed.

Lemma discover_first_failure (cap : option jsnum)
    (courseList : string -> completion (list CourseInfo))
    (pre : list string) (subj : string) (post : list string)
    (acc : list CourseInfo) (message : string) :
  (forall x, x ∈ pre -> exists l, courseList x = Normal l) ->
  courseList subj = Throw message ->
  discover cap courseList (pre ++ subj :: post) acc = Throw message.
Proof.
  revert acc. induction pre as [|x pre IH]; intros acc Hpre Hthrow.
  - simpl. by rewrite Hthrow.
  - cbn [app discover]. destruct (Hpre x ltac:(by left)) as [l ->].
    apply IH; [|done]. intros y Hy. apply Hpre. by right.
Qed.

(** X22: when listing the courses of one subject fails, the courses found for
    the subjects before it are dropped with it: the term writes nothing,
    changes nothing, starts no pool, and the run goes on with the next
    term. *)
Theorem course_list_failure_skips_the_term
    (cfg : Config) run (t : Term) w
    (pre : list string) (subj : string) (post : list string) (message : string) :
  subjectsReply w = Normal (pre ++ subj :: post) ->
  (forall x, x ∈ pre -> exists l, courseListReply w x = Normal l) ->
  courseListReply w subj = Throw message ->
  process_term convertCourse cfg run t w = (run, Continue) /\
  forall rest,
    main_loop convertCourse cfg run ((t, w) :: rest) =
    main_loop convertCourse cfg run rest.
Proof.
  intros Hsub Hpre Hthrow.
  assert (Hd : discovered cfg t w = None).
  { unfold discovered. rewrite Hsub.
    rewrite (discover_first_failure _ _ pre subj post [] message) by done.
    by destruct (length _ =? 0)%nat. }
  assert (Hp : process_term convertCourse cfg run t w = (run, Continue))
    by (unfold process_term; by rewrite Hd).
  split; [done|]. intros rest. simpl. by rewrite Hp.
Qed.

Lemma discover_nothing (n : jsnum)
    (courseList : string -> completion (list CourseInfo))
    (subjects : list string) (acc : list CourseInfo) :
  n = JNaN \/ n = JInt 0 ->
  discover (Some n) courseList subjects acc = Normal acc \/
  exists message, discover (Some n) courseList subjects acc = Throw message.
Proof.
  intros Hn. revert acc. induction subjects as [|subj rest IH]; intros acc.
  - by left.
  - cbn [discover]. destruct (courseList subj) as [courses|message]; [|by eauto].
    assert (E : (if (0 <? length courses)%nat then slice0 courses n else courses) = []).
    { destruct courses as [|c l]; [done|]. simpl. by destruct Hn as [->| ->]. }
    rewrite E, app_nil_r. apply IH.
Qed.

(** X23: a cap of 0, or a cap that is not a number because the variable is
    malformed, leaves no course to scrape: every term is skipped and the
    run ends without having written any file. *)
Theorem useless_cap_skips_every_term
    (env : Env) (value : string) (ts : list (Term * TermWorld)) :
  env !! "COURSES_PER_SUBJECT" = Some value ->
  parseInt value = JNaN \/ parseInt value = JInt 0 ->
  main convertCourse (config_of_env env) ts = (run0, Returned).
Proof.
  intros Hset Hn.
  assert (Hcap : COURSES_PER_SUBJECT (config_of_env env) = Some (parseInt value)).
  { unfold config_of_env, getIntConfig, parseInt_call; simpl. by rewrite Hset. }
  assert (Hd : forall t w, discovered (config_of_env env) t w = None).
  { intros t w. unfold discovered. rewrite Hcap.
    destruct (subjectsReply w) as [subjects|]; [|done].
    destruct (length subjects =? 0)%nat; [done|].
    destruct (discover_nothing (parseInt value) (courseListReply w) subjects [] Hn)
      as [->|[message ->]]; done. }
  unfold main. destruct ts as [|tw ts]; [done|].
  generalize (tw :: ts). clear tw ts. intros ts.
  induction ts as [|[t w] ts IH]; [done|].
  simpl. unfold process_term. by rewrite Hd.
Qed.

Lemma size_list_to_set_bound (l : list string) :
  (size (list_to_set l : gset string) <= length l)%nat.
Proof.
  induction l as [|x l IH]; [by rewrite list_to_set_nil, size_empty|].
  rewrite list_to_set_cons, size_union_alt, size_singleton. simpl.
  pose proof (subseteq_size (list_to_set l ∖ {[x]}) (list_to_set l : gset string)
                ltac:(set_solver)).
  lia.
Qed.

(** X24: the counters of the loop add up at every moment of a pool run: each
    result handed to the loop is counted once, as a success or as a failure;
    the map of courses has at most one entry per success; and no more
    results are handed over than there are courses. *)
Theorem tally_adds_up
    (concurrency : jsnum) s courses (sched : list Tick) :
  let t := tally (run_pool convertCourse concurrency s courses sched) in
  completed t = successCount t + failureCount t /\
  0 <= failureCount t /\
  Z.of_nat (size (coursesMap t)) <= successCount t /\
  completed t <= Z.of_nat (length courses).
Proof.
  set (p := run_pool convertCourse concurrency s courses sched). simpl.
  pose proof (run_pool_inv convertCourse concurrency s courses sched)
    as [Ht Hp _ _ _].
  fold p in Ht, Hp.
  pose proof (aggregate_fold_counts convertCourse (yielded p) tally0)
    as (Hc & Hs & Hf & Hdom).
  simpl in Hc, Hs, Hf, Hdom. rewrite <- Ht in Hc, Hs, Hf, Hdom.
  rewrite dom_empty_L, (left_id_L ∅ (∪)) in Hdom.
  assert (Hk : (length (stored_keys (yielded p)) <= length (yielded p))%nat).
  { unfold stored_keys. rewrite length_fmap. apply length_filter. }
  assert (Hy : (length (yielded p) <= length courses)%nat).
  { rewrite <- Hp, !length_app, length_fmap. lia. }
  pose proof (size_list_to_set_bound (stored_keys (yielded p))) as Hsz.
  rewrite <- Hdom, size_dom in Hsz.
  repeat split; lia.
Qed.

(** X25: a term whose pool is exhausted is written and recorded for the
    index, under its code and display name, whether or not any course
    succeeded, and the run goes on.  The year is one whose number the
    language holds exactly. *)
Theorem exhausted_term_is_always_written
    (cfg : Config) run (t : Term) w (termCode : string) courses :
  safe_year (year t) ->
  discovered cfg t w = Some (termCode, courses) ->
  let p := run_pool convertCourse (CONCURRENCY cfg)
             (reset_for_term (vars run)) courses (schedule w) in
  status p = Exhausted ->
  exists run',
    process_term convertCourse cfg run t w = (run', Continue) /\
    disk run' = disk run ++ [WriteTermData termCode (coursesMap (tally p))] /\
    allTermData run' =
      allTermData run ++
      [(termCode, getTermName (year t) (term t), coursesMap (tally p))] /\
    vars run' = session p.
Proof.
  intros _ Hd p Hex.
  pose proof (run_pool_calm (CONCURRENCY cfg) (reset_for_term (vars run))
                courses (schedule w) eq_refl Hex) as Hclear.
  fold p in Hclear.
  eexists. split; [|split; [|split]].
  - unfold process_term. rewrite Hd. fold p. rewrite Hex.
    unfold after_pool. rewrite Hclear. reflexivity.
  - done.
  - done.
  - done.
Qed.

Lemma discovered_code (cfg : Config) (t : Term) w (termCode : string) courses :
  discovered cfg t w = Some (termCode, courses) ->
  getTermCode (year t) (term t) = Normal termCode.
Proof.
  unfold discovered. repeat case_match; try done. by intros [= <- _].
Qed.

Lemma term_codes_cons (t : Term) w (ts : list (Term * TermWorld (Raw:=Raw))) :
  term_codes ((t, w) :: ts) = term_codes [(t, w)] ++ term_codes ts.
Proof. unfold term_codes. simpl. by destruct (getTermCode _ _). Qed.

Lemma process_term_kept (cfg : Config) run (t : Term) w :
  let out := process_term convertCourse cfg run t w in
  exists entries started,
    allTermData out.1 = allTermData run ++ entries /\
    poolStarts out.1 = poolStarts run ++ started /\
    (length entries <= length started <= 1)%nat /\
    (fun d => d.1.1) <$> entries `sublist_of` term_codes [(t, w)] /\
    (forall e, out.2 = Stop e ->
       e = Waiting \/ e = Exited 1 /\ abortRequested (vars out.1) = true).
Proof.
  unfold process_term.
  destruct (discovered cfg t w) as [[termCode courses]|] eqn:Hd.
  2:{ exists [], []. simpl. rewrite !app_nil_r.
      repeat split; try done; try lia. apply sublist_nil_l. }
  apply discovered_code in Hd.
  set (s := reset_for_term (vars run)).
  set (p := run_pool _ _ _ _ _).
  assert (Hcodes : [termCode] `sublist_of` term_codes [(t, w)])
    by (unfold term_codes; simpl; by rewrite Hd).
  assert (Hafter :
    let out := after_pool
                 (mkRun s (allTermData run) (disk run) (poolStarts run ++ [s]))
                 t termCode p in
    exists entries started,
      allTermData out.1 = allTermData run ++ entries /\
      poolStarts out.1 = poolStarts run ++ started /\
      (length entries <= length started <= 1)%nat /\
      (fun d => d.1.1) <$> entries `sublist_of` term_codes [(t, w)] /\
      (forall e, out.2 = Stop e ->
         e = Waiting \/ e = Exited 1 /\ abortRequested (vars out.1) = true)).
  { unfold after_pool.
    destruct (abortRequested (session p)) eqn:Hab;
      [destruct (successCount (tally p) >? 0)|]; simpl.
    - eexists [_], [s]. repeat split; try done; simpl; try lia.
      intros e [= <-]. by right.
    - exists [], [s]. rewrite app_nil_r. repeat split; try done; simpl; try lia.
      + apply sublist_nil_l.
      + intros e [= <-]. by right.
    - eexists [_], [s]. repeat split; try done; simpl; lia. }
  destruct (status p); [|done|done].
  exists [], [s]. simpl. rewrite app_nil_r. repeat split; try done; try lia.
  - apply sublist_nil_l.
  - intros e [= <-]. by left.
Qed.

Lemma main_loop_kept (cfg : Config) (ts : list (Term * TermWorld)) run :
  let out := main_loop convertCourse cfg run ts in
  exists entries started,
    allTermData out.1 = allTermData run ++ entries /\
    poolStarts out.1 = poolStarts run ++ started /\
    (length entries <= length started <= length ts)%nat /\
    (fun d => d.1.1) <$> entries `sublist_of` term_codes ts /\
    (forall code, out.2 = Exited code ->
       code = 1 /\ abortRequested (vars out.1) = true).
Proof.
  revert run. induction ts as [|[t w] ts IH]; intros run.
  - exists [], []. simpl. rewrite !app_nil_r.
    assert (E : allTermData (write_index run) = allTermData run /\
                poolStarts (write_index run) = poolStarts run)
      by (unfold write_index; destruct (allTermData run) eqn:E; simpl; by rewrite ?E).
    destruct E as [-> ->]. repeat split; try done.
  - cbn [main_loop].
    destruct (process_term_kept cfg run t w)
      as (entries & started & Ha & Hs & Hlen & Hsub & Hstop).
    destruct (process_term convertCourse cfg run t w) as [run' [|e]];
      simpl in Ha, Hs, Hstop.
    + destruct (IH run') as (entries' & started' & Ha' & Hs' & Hlen' & Hsub' & Hex).
      exists (entries ++ entries'), (started ++ started').
      rewrite Ha', Hs', Ha, Hs, <- !app_assoc, !length_app.
      split; [done|]. split; [done|]. split; [simpl; lia|]. split.
      * rewrite fmap_app, term_codes_cons. by apply sublist_app.
      * exact Hex.
    + exists entries, started. cbn [fst snd].
      split; [done|]. split; [done|]. split; [simpl; lia|]. split.
      * rewrite term_codes_cons. by apply sublist_inserts_r.
      * intros code ->. by destruct (Hstop _ eq_refl) as [?|[[= ->] Hab]].
Qed.

(** X26: whatever the terms and the replies, the datasets kept for the
    index never outnumber the pools started, and at most one pool is
    started per term; the datasets are kept in the order of the terms, at
    most one for each; and the process leaves through [process.exit] only
    with status 1 and with the abort flag set. *)
Theorem datasets_follow_the_terms
    (cfg : Config) (ts : list (Term * TermWorld)) :
  let out := main convertCourse cfg ts in
  (length (allTermData out.1) <= length (poolStarts out.1) <= length ts)%nat /\
  kept_codes out.1 `sublist_of` term_codes ts /\
  (forall code, out.2 = Exited code ->
     code = 1 /\ abortRequested (vars out.1) = true).
Proof.
  unfold main. destruct ts as [|tw ts].
  { simpl. repeat split; try done. }
  pose proof (main_loop_kept cfg (tw :: ts) run0) as H.
  cbv beta iota zeta in H |- *.
  destruct H as (entries & started & Ha & Hs & Hlen & Hsub & Hex).
  unfold kept_codes. rewrite Ha, Hs.
  change (allTermData run0) with (@nil (string * string * gmap string Conv)).
  change (poolStarts (Conv:=Conv) run0) with (@nil Session).
  rewrite !app_nil_l. done.
Qed.

End Facts.

Lemma malformed_concurrency_starts_every_course_witness :
  queue (pool_start (Raw:=string) (Conv:=string)
           (CONCURRENCY (config_of_env {["CONCURRENCY" := "two"]}))
           session0 [cs101; cs225; cs374]) = [].
Proof.
  refine (proj1 (malformed_concurrency_starts_every_course
                   {["CONCURRENCY" := "two"]} "two" session0
                   [cs101; cs225; cs374] _ _ _));
    reflexivity.
Defined.

Lemma exhausted_pool_processed_every_course_witness :
  let p := run_pool keep (JInt 1) session0 [cs101; cs225] both_succeed in
  abortRequested (session p) = false /\
  course <$> yielded p ≡ₚ [cs101; cs225] /\
  requested (trace p) ≡ₚ [cs101; cs225] /\
  completed (tally p) = 2 /\
  successCount (tally p) + failureCount (tally p) = 2 /\
  totalRequests (session p) = 2.
Proof.
  apply (exhausted_pool_processed_every_course keep (JInt 1) session0
           [cs101; cs225] both_succeed); reflexivity.
Defined.

Lemma only_403_aborts_witness :
  let p := run_pool keep (JInt 1) session0 [cs101; cs225] limited_then_success in
  abortRequested (session p) = false /\
  forbidden403Count (session p) = 0 /\
  status p <> Broke.
Proof.
  apply (only_403_aborts keep (JInt 1) session0 [cs101; cs225]
           limited_then_success); [reflexivity|].
  unfold no_403, limited_then_success.
  repeat constructor; discriminate.
Defined.

Lemma blocks_fit_in_the_pool_witness :
  let p := run_pool keep (JInt 2) session0 [cs101; cs225; cs374] both_blocked in
  0 <= forbidden403Count (session p) <= 0 + Z.of_nat (pool_limit 2) /\
  (abortRequested (session p) = true <-> 0 < forbidden403Count (session p)) /\
  (status p = Broke -> abortRequested (session p) = true).
Proof.
  apply (blocks_fit_in_the_pool keep 2 session0 [cs101; cs225; cs374]
           both_blocked).
  reflexivity.
Defined.

(** The bound is reached: with two requests under way, both can be answered
    403 before the loop receives a result. *)
Example two_blocks_before_the_break :
  forbidden403Count
    (session (run_pool keep (JInt 2) session0 [cs101; cs225; cs374] both_blocked))
  = 2.
Proof. reflexivity. Qed.

Lemma later_result_replaces_earlier_witness :
  coursesMap (tally (run_pool keep (JInt 1) session0 [cs101; cs101]
                       same_course_twice)) !! "CS 101" =
  Some "second page".
Proof.
  apply (later_result_replaces_earlier keep (JInt 1) session0 [cs101; cs101]
           same_course_twice
           [mkResult cs101 (Some "first page") true]
           (mkResult cs101 (Some "second page") true) [] "second page");
    [reflexivity | reflexivity |].
  intros r' Hr'. by apply elem_of_nil in Hr'.
Defined.

Lemma discover_concatenates_course_lists_witness :
  discover None (fun subject => Normal (catalogue subject)) ["CS"; "ECE"] [] =
    Normal [cs101; cs225; cs374] /\
  length [cs101; cs225; cs374] = 3%nat.
Proof.
  apply (discover_concatenates_course_lists
           (fun subject => Normal (catalogue subject)) catalogue ["CS"; "ECE"]).
  reflexivity.
Defined.

Lemma discover_takes_first_courses_of_each_subject_witness :
  exists found,
    discover (Some (JInt 1)) (fun subject => Normal (catalogue subject))
             ["CS"; "ECE"] [] = Normal found /\
    found = [cs101; cs374] /\
    (length found <= 1 * 2)%nat.
Proof.
  apply (discover_takes_first_courses_of_each_subject 1
           (fun subject => Normal (catalogue subject)) catalogue ["CS"; "ECE"]);
    [lia | reflexivity].
Defined.

Lemma course_list_failure_skips_the_term_witness :
  process_term keep cfg2 run0 spring25 second_subject_fails = (run0, Continue) /\
  forall rest,
    main_loop keep cfg2 run0 ((spring25, second_subject_fails) :: rest) =
    main_loop keep cfg2 run0 rest.
Proof.
  apply (course_list_failure_skips_the_term keep cfg2 run0 spring25
           second_subject_fails ["CS"] "ECE" [] "timeout");
    [reflexivity | | reflexivity].
  intros x Hx. apply list_elem_of_singleton in Hx. subst x.
  by exists [cs101; cs225].
Defined.

Lemma useless_cap_skips_every_term_witness :
  main keep (config_of_env {["COURSES_PER_SUBJECT" := "all"]})
       [(spring25, two_courses both_succeed)] = (run0, Returned).
Proof.
  apply (useless_cap_skips_every_term keep
           {["COURSES_PER_SUBJECT" := "all"]} "all");
    [reflexivity | left; reflexivity].
Defined.

Lemma exhausted_term_is_always_written_witness :
  let p := run_pool keep (JInt 1) (reset_for_term session0) [cs101; cs225]
             both_succeed in
  exists run',
    process_term keep cfg1 run0 winter24 (two_courses both_succeed) =
      (run', Continue) /\
    disk run' = [WriteTermData "202412" (coursesMap (tally p))] /\
    allTermData run' = [("202412", "Winter 2023-2024", coursesMap (tally p))] /\
    vars run' = session p.
Proof.
  apply (exhausted_term_is_always_written keep cfg1 run0 winter24
           (two_courses both_succeed) "202412" [cs101; cs225]);
    reflexivity.
Defined.

Lemma no_failure_line_after_a_block_witness :
  LogFailedToScrape cs225 ∉
    after_block (console (trace (run_pool keep (JInt 2) session0 [cs101; cs225]
                                   failure_after_block))).
Proof.
  apply (no_failure_line_after_a_block keep (JInt 2) session0 [cs101; cs225]
           failure_after_block).
  reflexivity.
Defined.

End RunFacts.
